(** * Link checker: sitemap cleaning, link extraction, link verification

    A shallow embedding of the crawl-and-check pipeline: SitemapFetcher,
    the two SitemapCleaner variants, utils, LinkExtractor, LinkChecker,
    SlackNotifier and the two handlers, followed by the properties stated
    about them.

    A JavaScript string is a sequence of UTF-16 code units.  The model
    holds the strings whose code units are below 256 (Basic Latin and
    Latin-1 Supplement), one [ascii] per code unit, so that lengths and
    indices are those of the program.  JavaScript numbers that hold HTTP
    status codes and indices are integers ([Z]), counters are naturals.
    The network, the HTML parser, the URL class of the runtime and the
    order in which concurrent requests complete are inputs of the model;
    clock readings other than response times are left out. *)

From Stdlib Require Import ZArith Lia Bool Ascii String List Sorted.
From stdpp Require Import base list strings.
Import ListNotations.
Local Open Scope string_scope.
Local Open Scope list_scope.

(** ** JavaScript string operations used by the program *)

Module JS.

(** [s.startsWith(p)] *)
Fixpoint startsWith (p s : string) : bool :=
  match p, s with
  | EmptyString, _ => true
  | String a p', String b s' => if Ascii.eqb a b then startsWith p' s' else false
  | String _ _, EmptyString => false
  end.

(** [s.substring(n)] for [0 <= n]: the characters from index [n] on. *)
Fixpoint substring_from (n : nat) (s : string) : string :=
  match n, s with
  | O, _ => s
  | S n', String _ s' => substring_from n' s'
  | S _, EmptyString => EmptyString
  end.

(** [s.endsWith(e)] *)
Definition endsWith (e s : string) : bool :=
  (String.length e <=? String.length s)%nat
  && String.eqb (substring_from (String.length s - String.length e) s) e.

(** [s.includes(sub)] *)
Fixpoint includes (sub s : string) : bool :=
  startsWith sub s ||
  match s with
  | EmptyString => false
  | String _ s' => includes sub s'
  end.

Definition is_upper (c : ascii) : bool :=
  let n := nat_of_ascii c in (65 <=? n)%nat && (n <=? 90)%nat.
Definition is_lower (c : ascii) : bool :=
  let n := nat_of_ascii c in (97 <=? n)%nat && (n <=? 122)%nat.
Definition is_digit (c : ascii) : bool :=
  let n := nat_of_ascii c in (48 <=? n)%nat && (n <=? 57)%nat.

(** The capital letters of the Latin-1 Supplement: U+00C0 to U+00DE
    without the multiplication sign U+00D7. *)
Definition is_upper_latin1 (c : ascii) : bool :=
  let n := nat_of_ascii c in
  (192 <=? n)%nat && (n <=? 222)%nat && negb (n =? 215)%nat.

Definition lower_char (c : ascii) : ascii :=
  if is_upper c || is_upper_latin1 c
  then ascii_of_nat (nat_of_ascii c + 32) else c.

(** [s.toLowerCase()]: below 256 the capital letters are A to Z and those
    of the Latin-1 Supplement, each 32 below its small letter. *)
Fixpoint toLowerCase (s : string) : string :=
  match s with
  | EmptyString => EmptyString
  | String c s' => String (lower_char c) (toLowerCase s')
  end.

(** The white space of [trim] and of the class [\s]: below 256 these are
    tab, line feed, vertical tab, form feed, carriage return, space and
    the no-break space U+00A0. *)
Definition is_space (c : ascii) : bool :=
  let n := nat_of_ascii c in
  ((9 <=? n)%nat && (n <=? 13)%nat) || (n =? 32)%nat || (n =? 160)%nat.

Fixpoint trimStart (s : string) : string :=
  match s with
  | EmptyString => EmptyString
  | String c s' => if is_space c then trimStart s' else s
  end.

(** Drops trailing white space: a character is kept when something that
    is kept follows it or when it is not white space. *)
Fixpoint trimEnd (s : string) : string :=
  match s with
  | EmptyString => EmptyString
  | String c s' =>
      match trimEnd s' with
      | EmptyString => if is_space c then EmptyString else String c EmptyString
      | r => String c r
      end
  end.

(** [s.trim()] *)
Definition trim (s : string) : string := trimEnd (trimStart s).

(** Splits at the first character satisfying [p]: the part before it and
    the part from it on (empty when there is none). *)
Fixpoint break (p : ascii -> bool) (s : string) : string * string :=
  match s with
  | EmptyString => (EmptyString, EmptyString)
  | String c s' =>
      if p c then (EmptyString, s)
      else let '(a, b) := break p s' in (String c a, b)
  end.

(** [s.split(sep)] for a one-character separator. *)
Fixpoint split (sep : ascii) (s : string) : list string :=
  match s with
  | EmptyString => [EmptyString]
  | String c s' =>
      if Ascii.eqb c sep then EmptyString :: split sep s'
      else match split sep s' with
           | [] => [String c EmptyString]
           | x :: xs => String c x :: xs
           end
  end.

Fixpoint all_chars (p : ascii -> bool) (s : string) : bool :=
  match s with
  | EmptyString => true
  | String c s' => p c && all_chars p s'
  end.

(** [xs.join(sep)] *)
Fixpoint join (sep : string) (xs : list string) : string :=
  match xs with
  | [] => EmptyString
  | [x] => x
  | x :: rest => x +:+ sep +:+ join sep rest
  end.

(** Code-unit order of [Array.prototype.sort] without a comparator. *)
Definition str_leb (a b : string) : bool :=
  match String.compare a b with
  | Gt => false
  | _ => true
  end.

Fixpoint insert_sorted (x : string) (l : list string) : list string :=
  match l with
  | [] => [x]
  | y :: l' => if str_leb x y then x :: l else y :: insert_sorted x l'
  end.

(** [xs.sort()] on strings. *)
Definition sort (l : list string) : list string :=
  fold_right insert_sorted [] l.

(** [[...new Set(xs)]]: first occurrences, in insertion order. *)
Fixpoint unique_from (seen l : list string) : list string :=
  match l with
  | [] => []
  | x :: l' =>
      if existsb (String.eqb x) seen then unique_from seen l'
      else x :: unique_from (x :: seen) l'
  end.
Definition unique (l : list string) : list string := unique_from [] l.

(** The order as a relation. *)
Definition str_le (a b : string) : Prop := str_leb a b = true.

(** The complement of a character class. *)
Definition non (p : ascii -> bool) (c : ascii) : bool := negb (p c).

End JS.

(** ** A URL parser for the examples

    The URL class belongs to the JavaScript runtime; the program is
    written against its interface, [Platform.t] below.  To run the program
    on concrete URLs, this module gives a parser and a printer for the
    hierarchical URLs [scheme://host/path?query#fragment] that are already
    in the form the runtime prints them in: a lower-case scheme, a
    lower-case host name of letters, digits, dots and hyphens without a
    port, a path of unreserved characters and sub-delimiters without dot
    segments or percent escapes, and a query of [name=value] pairs over the
    characters that form encoding leaves alone.  On these the runtime
    neither re-encodes nor rewrites anything, and this parser answers as
    the runtime does.  Every other string it refuses, whether the runtime
    accepts it or not: it stands for the runtime on the concrete inputs of
    the examples only. *)

Module URL.
Import JS.

Record t := mk {
  scheme : string;            (* without the colon *)
  host : string;
  pathname : string;
  query : option string;      (* without the question mark; None is null *)
  fragment : option string    (* without the hash sign; None is null *)
}.

Definition one_of (cs : string) (c : ascii) : bool :=
  existsb (Ascii.eqb c) (list_ascii_of_string cs).

Definition is_alnum (c : ascii) : bool := is_lower c || is_upper c || is_digit c.
Definition scheme_char (c : ascii) : bool := is_lower c || is_digit c || one_of "+-." c.
Definition host_char (c : ascii) : bool := is_lower c || is_digit c || one_of ".-" c.
Definition path_char (c : ascii) : bool := is_alnum c || one_of "-._~!$&'()*+,;=:@/" c.
Definition form_char (c : ascii) : bool := is_alnum c || one_of "*-._" c.

Definition special_schemes : list string := ["http"; "https"; "ws"; "wss"; "ftp"].
Definition is_special (s : string) : bool := existsb (String.eqb s) special_schemes.

Definition is_empty (s : string) : bool :=
  match s with EmptyString => true | _ => false end.

Definition head_is (p : ascii -> bool) (s : string) : bool :=
  match s with String c _ => p c | EmptyString => false end.

(** A host is a domain name whose last label starts with a letter, so
    that it is not read as an IPv4 numeral. *)
Definition host_ok (h : string) : bool :=
  negb (is_empty h) && all_chars host_char h
  && head_is is_lower (List.last (split "." h) EmptyString).

Definition dot_segment (seg : string) : bool :=
  String.eqb seg "." || String.eqb seg "..".

Definition path_ok (p : string) : bool :=
  all_chars path_char p && negb (existsb dot_segment (split "/" p)).

(** URLSearchParams: the list of name-value pairs of a query. *)
Definition parse_pair (seq : string) : string * string :=
  let '(n, r) := break (Ascii.eqb "=") seq in
  (n, match r with String _ v => v | EmptyString => EmptyString end).

Definition parse_query (q : string) : list (string * string) :=
  map parse_pair (List.filter (fun s => negb (is_empty s)) (split "&" q)).

Definition serialize_pair (nv : string * string) : string :=
  fst nv +:+ "=" +:+ snd nv.

Definition serialize_query (ps : list (string * string)) : string :=
  join "&" (map serialize_pair ps).

Definition pair_ok (nv : string * string) : bool :=
  all_chars form_char (fst nv) && all_chars form_char (snd nv).

Definition query_ok (q : option string) : bool :=
  match q with
  | None => true
  | Some q => forallb pair_ok (parse_query q)
  end.

Definition is_colon (c : ascii) : bool := Ascii.eqb c ":".
Definition is_hash (c : ascii) : bool := Ascii.eqb c "#".
Definition ends_host (c : ascii) : bool := one_of "/?#" c.
Definition ends_path (c : ascii) : bool := one_of "?#" c.

(** The parser: the URL of a string of the class above, [None] for every
    other string. *)
Definition parse (s : string) : option t :=
  let '(sch, rest) := break is_colon s in
  if startsWith "://" rest then
    let '(h, rest3) := break ends_host (substring_from 3 rest) in
    let '(p, rest4) := break ends_path rest3 in
    let '(q, rest5) :=
      if startsWith "?" rest4
      then let '(q, f) := break is_hash (substring_from 1 rest4) in (Some q, f)
      else (None, rest4) in
    let f := match rest5 with String _ r => Some r | EmptyString => None end in
    if head_is is_lower sch && all_chars scheme_char sch
       && host_ok h && path_ok p && query_ok q
    then Some {| scheme := sch; host := h;
                 pathname := if is_empty p && is_special sch then "/" else p;
                 query := q; fragment := f |}
    else None
  else None.

(** The printer, which gives [u.href]. *)
Definition toString (u : t) : string :=
  scheme u +:+ "://" +:+ host u +:+ pathname u
  +:+ match query u with Some q => "?" +:+ q | None => "" end
  +:+ match fragment u with Some f => "#" +:+ f | None => "" end.

(** [u.searchParams.delete(name)] on these URLs: removes every pair of
    that name, then writes the serialized list back; an empty
    serialization makes the query null. *)
Definition searchParams_delete (name : string) (u : t) : t :=
  let ps := parse_query (match query u with Some q => q | None => "" end) in
  let ps' := List.filter (fun nv => negb (String.eqb (fst nv) name)) ps in
  let s := serialize_query ps' in
  {| scheme := scheme u; host := host u; pathname := pathname u;
     query := if is_empty s then None else Some s;
     fragment := fragment u |}.

(** [u.pathname = p] for a path [p] of the class, which the setter stores
    as it is. *)
Definition set_pathname (p : string) (u : t) : t :=
  {| scheme := scheme u; host := host u; pathname := p;
     query := query u; fragment := fragment u |}.

(** [u.hash = h] *)
Definition set_hash (h : string) : t -> t :=
  fun u =>
  {| scheme := scheme u; host := host u; pathname := pathname u;
     query := query u;
     fragment := match h with
                 | EmptyString => None
                 | String c r => Some (if Ascii.eqb c "#" then r else h)
                 end |}.

(** The characters of a query that [query_ok] accepts. *)
Definition query_char (c : ascii) : bool :=
  form_char c || Ascii.eqb c "=" || Ascii.eqb c "&".

(** The effect of [searchParams.delete(name)] on the query. *)
Definition delete_query (name : string) (q : option string) : option string :=
  let ps := parse_query (match q with Some q => q | None => "" end) in
  let s := serialize_query
             (List.filter (fun nv => negb (String.eqb (fst nv) name)) ps) in
  if is_empty s then None else Some s.

(** The query that holds exactly the pairs [ps]. *)
Definition query_of (ps : list (string * string)) : option string :=
  if is_empty (serialize_query ps) then None else Some (serialize_query ps).

(** Whether a pair survives the deletion of the parameters named. *)
Definition kept (params : list string) (nv : string * string) : bool :=
  negb (existsb (String.eqb (fst nv)) params).

(** Whether a scheme is http or https. *)
Definition is_http (scheme : string) : bool :=
  String.eqb scheme "http" || String.eqb scheme "https".

(** The characters of a fragment that the runtime prints as they are. *)
Definition fragment_char (c : ascii) : bool :=
  path_char c || Ascii.eqb c "?".

Definition fragment_ok (f : option string) : bool :=
  match f with
  | None => true
  | Some f => all_chars fragment_char f
  end.

(** A URL of the class, with a path that is not empty. *)
Definition wf (u : t) : bool :=
  head_is is_lower (scheme u) && all_chars scheme_char (scheme u)
  && host_ok (host u)
  && path_ok (pathname u) && startsWith "/" (pathname u)
  && query_ok (query u) && fragment_ok (fragment u).

(** What holds of every parsed URL. *)
Record parsed (u : t) : Prop := {
  parsed_scheme_head : head_is is_lower (scheme u) = true;
  parsed_scheme : all_chars scheme_char (scheme u) = true;
  parsed_host : host_ok (host u) = true;
  parsed_path : path_ok (pathname u) = true;
  parsed_path_head : pathname u = "" \/ startsWith "/" (pathname u) = true;
  parsed_query : query_ok (query u) = true;
  parsed_query_hash :
    forall q, query u = Some q -> all_chars (non is_hash) q = true
}.

(** A URL as [cleanSingleUrl] leaves it. *)
Record canonical (u : t) : Prop := {
  canonical_parsed : parsed u;
  canonical_path : startsWith "/" (pathname u) = true;
  canonical_fragment : fragment u = None
}.

End URL.

(** ** The URL class of the runtime

    [new URL(s)] and the properties of the object it builds are taken as
    given: an implementation is a value of [Platform.t].  [Platform.Laws]
    states what the properties of the program rely on; these are facts of
    the URL Standard about every URL object [u]:
    - [u.href] parses, and to a URL in the state of [u]; it is not empty
      and has no white space at either end;
    - deleting search parameters, assigning the path and clearing the
      fragment act on separate components: they commute, the first and the
      last are idempotent, and none changes the scheme;
    - assigning a URL its own path changes nothing; a URL with an opaque
      path ignores the assignment of a path; any other URL has a path that
      begins with a slash once one that does has been assigned to it. *)

Module Platform.
Import JS.

Record t := mk {
  obj : Type;                                   (* URL objects, by their state *)
  newURL : string -> option obj;                (* new URL(s); None when it throws *)
  href : obj -> string;                         (* u.href, u.toString() *)
  scheme : obj -> string;                       (* u.protocol without its colon *)
  hostname : obj -> string;                     (* u.hostname *)
  pathname : obj -> string;                     (* u.pathname *)
  opaque : obj -> bool;                         (* an opaque path, as of mailto:a@b.c *)
  searchParams_delete : string -> obj -> obj;   (* u.searchParams.delete(name) *)
  set_pathname : string -> obj -> obj;          (* u.pathname = p *)
  clear_hash : obj -> obj                       (* u.hash = '' *)
}.
Arguments href {_} _.
Arguments scheme {_} _.
Arguments hostname {_} _.
Arguments pathname {_} _.
Arguments opaque {_} _.
Arguments searchParams_delete {_} _ _.
Arguments set_pathname {_} _ _.
Arguments clear_hash {_} _.

Record Laws (P : t) : Prop := mkLaws {
  newURL_href :
    forall u : obj P, newURL P (href u) = Some u;
  newURL_empty :
    newURL P "" = None;
  href_trim :
    forall u : obj P, trim (href u) = href u;
  delete_delete :
    forall name (u : obj P),
      searchParams_delete name (searchParams_delete name u)
      = searchParams_delete name u;
  delete_comm :
    forall name name' (u : obj P),
      searchParams_delete name (searchParams_delete name' u)
      = searchParams_delete name' (searchParams_delete name u);
  delete_set_pathname :
    forall name p (u : obj P),
      searchParams_delete name (set_pathname p u)
      = set_pathname p (searchParams_delete name u);
  delete_clear_hash :
    forall name (u : obj P),
      searchParams_delete name (clear_hash u)
      = clear_hash (searchParams_delete name u);
  clear_hash_clear_hash :
    forall u : obj P, clear_hash (clear_hash u) = clear_hash u;
  set_pathname_own :
    forall u : obj P, set_pathname (pathname u) u = u;
  set_pathname_opaque :
    forall p (u : obj P), opaque u = true -> set_pathname p u = u;
  set_pathname_slash :
    forall p (u : obj P),
      opaque u = false -> startsWith "/" p = true ->
      startsWith "/" (pathname (set_pathname p u)) = true;
  opaque_set_pathname :
    forall p (u : obj P), opaque (set_pathname p u) = opaque u;
  opaque_clear_hash :
    forall u : obj P, opaque (clear_hash u) = opaque u;
  pathname_clear_hash :
    forall u : obj P, opaque u = false -> pathname (clear_hash u) = pathname u;
  scheme_delete :
    forall name (u : obj P), scheme (searchParams_delete name u) = scheme u;
  scheme_set_pathname :
    forall p (u : obj P), scheme (set_pathname p u) = scheme u;
  scheme_clear_hash :
    forall u : obj P, scheme (clear_hash u) = scheme u
}.

(** The implementation on the URLs of [URL.wf], for the examples: an
    operation whose result would leave the class leaves the URL as it
    is. *)
Definition reference_obj : Type := { u : URL.t | URL.wf u = true }.

Definition check (u : URL.t) : option reference_obj :=
  match Bool.bool_dec (URL.wf u) true with
  | left H => Some (exist _ u H)
  | right _ => None
  end.

Definition update (f : URL.t -> URL.t) (o : reference_obj) : reference_obj :=
  match check (f (proj1_sig o)) with
  | Some o' => o'
  | None => o
  end.

Definition reference : t :=
  {| obj := reference_obj;
     newURL := fun s => match URL.parse s with
                        | Some u => check u
                        | None => None
                        end;
     href := fun o => URL.toString (proj1_sig o);
     scheme := fun o => URL.scheme (proj1_sig o);
     hostname := fun o => URL.host (proj1_sig o);
     pathname := fun o => URL.pathname (proj1_sig o);
     opaque := fun _ => false;
     searchParams_delete := fun name => update (URL.searchParams_delete name);
     set_pathname := fun p => update (URL.set_pathname p);
     clear_hash := update (URL.set_hash "") |}.

End Platform.

(** ** SitemapFetcher: validation of the URLs read from the sitemap *)

Module SitemapFetcher.
Import JS.

(** The last step of [fetchSitemap]:
    [urls.filter(url => url && typeof url === 'string')
         .filter(url => url.startsWith('http')).map(url => url.trim())] *)
Definition validUrls (urls : list string) : list string :=
  map trim
    (List.filter (startsWith "http")
       (List.filter (fun url => negb (URL.is_empty url)) urls)).

(** What xml2js makes of a [loc] element: its text, or, when the element
    carries attributes, an object holding the text under the key [_]. *)
Inductive Loc :=
| LocText (text : string)
| LocObject (underscore : option string).

(** An entry of [urlset.url]: a string, or an object that may have a
    [loc]. *)
Inductive UrlEntry :=
| EntryText (text : string)
| EntryObject (loc : option Loc).

(** The parsed document as far as [fetchSitemap] reads it: the entries of
    [urlset.url], or the [loc] of each entry of [sitemapindex.sitemap]
    (a single entry is wrapped into an array by the code), or neither. *)
Inductive Parsed :=
| Urlset (url : list UrlEntry)
| SitemapIndex (sitemap : list (option Loc))
| Neither.

(** [typeof loc === 'string' ? loc : loc._]; [None] is [undefined]. *)
Definition locText (l : Loc) : option string :=
  match l with
  | LocText s => Some s
  | LocObject t => t
  end.

(** The function mapped over the entries of a standard sitemap. *)
Definition entryUrl (e : UrlEntry) : option string :=
  match e with
  | EntryText s => Some s
  | EntryObject (Some (LocText s)) => if URL.is_empty s then None else Some s
  | EntryObject (Some (LocObject t)) => t
  | EntryObject None => None
  end.

(** [.filter(Boolean)] on strings, [null] and [undefined]. *)
Definition filterBoolean (l : list (option string)) : list string :=
  omap (fun o => match o with
                 | Some s => if URL.is_empty s then None else Some s
                 | None => None
                 end) l.

(** The message of the error [fetchSitemap] throws; ["233"] is the code
    unit of the e with an acute accent.  The cause is not part of it: the
    template has a space between [$] and the brace. *)
Definition failure (sitemapUrl : option string) : string :=
  "Impossible de r" +:+ String "233" ("cup" +:+ String "233" "rer le sitemap depuis ")
  +:+ match sitemapUrl with Some u => u | None => "undefined" end
  +:+ ":  $ {error.message}".

(** The state of the loop over the sub-sitemaps of an index. *)
Inductive Loop :=
| Pending                          (* a sub-sitemap has not returned *)
| Thrown                           (* reading a [loc] threw *)
| Collected (urls : list string).

(** [for (const sitemap of sitemaps) { ... }]: a sub-sitemap that
    throws is logged and skipped. *)
Fixpoint subSitemaps (fetch : option string -> option (list string + string))
    (sitemaps : list (option Loc)) (urls : list string) : Loop :=
  match sitemaps with
  | [] => Collected urls
  | None :: _ => Thrown
  | Some loc :: rest =>
      match fetch (locText loc) with
      | None => Pending
      | Some (inl subUrls) => subSitemaps fetch rest (urls ++ subUrls)
      | Some (inr _) => subSitemaps fetch rest urls
      end
  end.

Section World.
(** [axios.get(url)]: the text of the answer; [None] when it rejects. *)
Variable download : option string -> option string.
(** [parser.parseStringPromise(data)]; [None] when it rejects or yields
    nothing to read a root element from. *)
Variable parseXml : string -> option Parsed.

(** [fetchSitemap(sitemapUrl)]: the URLs, or the message of the error
    thrown; [None]: not returned within [fuel] nested sitemaps. *)
Fixpoint fetchSitemap (fuel : nat) (sitemapUrl : option string)
  : option (list string + string) :=
  match fuel with
  | O => None
  | S fuel =>
      match download sitemapUrl with
      | None => Some (inr (failure sitemapUrl))
      | Some data =>
          match parseXml data with
          | None => Some (inr (failure sitemapUrl))
          | Some (Urlset entries) =>
              Some (inl (validUrls (filterBoolean (map entryUrl entries))))
          | Some (SitemapIndex sitemaps) =>
              match subSitemaps (fetchSitemap fuel) sitemaps [] with
              | Pending => None
              | Thrown => Some (inr (failure sitemapUrl))
              | Collected urls => Some (inl (validUrls urls))
              end
          | Some Neither => Some (inl (validUrls []))
          end
      end
  end.
End World.
End SitemapFetcher.

(** ** SitemapCleaner *)

Module SitemapCleaner.
Import JS.

Record t := mk {
  excludedExtensions : list string;
  excludedParams : list string;
  languagePrefixes : list string
}.

Definition excludedExtensions_default : list string :=
  [ ".pdf"; ".doc"; ".docx"; ".xls"; ".xlsx"; ".ppt"; ".pptx";
    ".txt"; ".rtf"; ".odt"; ".ods"; ".odp";
    ".jpg"; ".jpeg"; ".png"; ".gif"; ".svg"; ".webp"; ".ico"; ".bmp";
    ".mp4"; ".avi"; ".mov"; ".mp3"; ".wav";
    ".zip"; ".rar"; ".tar"; ".gz" ].

Definition excludedParams_default : list string :=
  [ "lang"; "locale"; "language"; "l";
    "utm_source"; "utm_medium"; "utm_campaign"; "utm_content"; "utm_term";
    "gclid"; "fbclid"; "_ga"; "_gac" ].

(** The table of the variant with bare language codes. *)
Definition languagePrefixes_language : list string :=
  [ "/en/"; "/fr/"; "/de/"; "/es/"; "/it/"; "/ja/"; "/zh/"; "/ko/" ].

(** The table of the variant with language-region codes. *)
Definition languagePrefixes_region : list string :=
  [ "/en-fr/";
    "/en-us/"; "/en-gb/"; "/en-ca/"; "/en-au/"; "/en-in/";
    "/en-at/"; "/en-be/"; "/en-cy/"; "/en-cz/"; "/en-dk/"; "/en-ee/";
    "/en-fi/"; "/en-fr/"; "/en-de/"; "/en-gr/"; "/en-hu/"; "/en-ie/";
    "/en-it/"; "/en-lt/"; "/en-lu/"; "/en-lv/"; "/en-mt/"; "/en-nl/";
    "/en-no/"; "/en-pl/"; "/en-pt/"; "/en-ro/"; "/en-sk/"; "/en-si/";
    "/en-es/"; "/en-se/"; "/en-ch/";
    "/en-ar/"; "/en-br/"; "/en-cl/"; "/en-mx/"; "/en-pe/"; "/en-uy/";
    "/en-cn/"; "/en-hk/"; "/en-id/"; "/en-il/"; "/en-jp/"; "/en-kz/";
    "/en-kr/"; "/en-my/"; "/en-nz/"; "/en-ph/"; "/en-sg/"; "/en-tw/";
    "/en-th/"; "/en-tr/"; "/en-vn/";
    "/en-eg/"; "/en-il/"; "/en-lb/"; "/en-ma/"; "/en-qa/"; "/en-sa/";
    "/en-ae/"; "/en-za/" ].

(** The two constructors found in the repository. *)
Definition new_language : t :=
  mk excludedExtensions_default excludedParams_default languagePrefixes_language.
Definition new_region : t :=
  mk excludedExtensions_default excludedParams_default languagePrefixes_region.

(** The loop over [languagePrefixes]: the first prefix the path starts
    with is cut off, keeping its final slash; then the loop breaks. *)
Fixpoint stripPrefix (prefixes : list string) (pathname : string) : string :=
  match prefixes with
  | [] => pathname
  | prefix :: rest =>
      if startsWith prefix pathname
      then substring_from (String.length prefix - 1) pathname
      else stripPrefix rest pathname
  end.

Section Runtime.
(** The URL class of the runtime. *)
Variable P : Platform.t.

(** [cleanSingleUrl(url)]; [None] is [null]. *)
Definition cleanSingleUrl (c : t) (url : string) : option string :=
  if URL.is_empty url then None
  else
    match Platform.newURL P (trim url) with
    | None => None
    | Some urlObj =>
        let urlObj :=
          fold_left (fun u param => Platform.searchParams_delete param u)
                    (excludedParams c) urlObj in
        let pathname :=
          stripPrefix (languagePrefixes c) (Platform.pathname urlObj) in
        let pathname :=
          if startsWith "/" pathname then pathname else "/" +:+ pathname in
        let urlObj := Platform.set_pathname pathname urlObj in
        let urlObj := Platform.clear_hash urlObj in
        Some (Platform.href urlObj)
    end.

(** [isExcludedFile(url)]; [None] when [new URL(url)] throws. *)
Definition isExcludedFile (c : t) (url : string) : option bool :=
  match Platform.newURL P url with
  | None => None
  | Some u =>
      let pathname := toLowerCase (Platform.pathname u) in
      Some (existsb (fun ext => endsWith ext pathname) (excludedExtensions c))
  end.

Definition excludedPaths : list string :=
  [ "/admin"; "/wp-admin"; "/api/"; "/assets/"; "/static/";
    "/downloads/"; "/files/"; "/uploads/"; "/media/";
    "/.well-known/"; "/robots.txt"; "/sitemap" ].

(** [isExcludedPath(url)]; [None] when [new URL(url)] throws. *)
Definition isExcludedPath (url : string) : option bool :=
  match Platform.newURL P url with
  | None => None
  | Some u =>
      let pathname := toLowerCase (Platform.pathname u) in
      Some (existsb (fun path => startsWith path pathname) excludedPaths)
  end.

(** [xs.filter(x => !pred(x))] for a predicate that may throw. *)
Fixpoint filter_not (pred : string -> option bool) (xs : list string)
  : option (list string) :=
  match xs with
  | [] => Some []
  | x :: rest =>
      match pred x with
      | None => None
      | Some b =>
          match filter_not pred rest with
          | None => None
          | Some r => Some (if b then r else x :: r)
          end
      end
  end.

(** [.map(cleanSingleUrl).filter(url => url !== null)] *)
Definition cleanAll (c : t) (urls : list string) : list string :=
  omap (cleanSingleUrl c) urls.

(** [process(urls)]; [None] when an exception escapes. *)
Definition process (c : t) (urls : list string) : option (list string) :=
  match filter_not (isExcludedFile c) (cleanAll c urls) with
  | None => None
  | Some noFiles =>
      match filter_not isExcludedPath noFiles with
      | None => None
      | Some cleanedUrls => Some (sort (unique cleanedUrls))
      end
  end.

(** Whether the path of [url] begins with one of the locale prefixes. *)
Definition beginsWithLanguagePrefix (c : t) (url : string) : bool :=
  match Platform.newURL P url with
  | Some u =>
      existsb (fun prefix => startsWith prefix (Platform.pathname u))
              (languagePrefixes c)
  | None => false
  end.
End Runtime.

(** The path after the locale prefix is cut and a leading slash is
    ensured. *)
Definition cleanPath (prefixes : list string) (p : string) : string :=
  let p' := stripPrefix prefixes p in
  if startsWith "/" p' then p' else "/" +:+ p'.

(** The loop [excludedParams.forEach(param => urlObj.searchParams.delete(param))]. *)
Definition deleteParams (P : Platform.t) (params : list string)
    (urlObj : Platform.obj P) : Platform.obj P :=
  fold_left (fun u param => Platform.searchParams_delete param u) params urlObj.

(** The URL object [cleanSingleUrl] serialises, from the parsed one. *)
Definition cleanedObj (P : Platform.t) (c : t) (urlObj : Platform.obj P)
  : Platform.obj P :=
  let urlObj := deleteParams P (excludedParams c) urlObj in
  Platform.clear_hash
    (Platform.set_pathname
       (cleanPath (languagePrefixes c) (Platform.pathname urlObj)) urlObj).

End SitemapCleaner.

(** ** utils.js *)

Module Utils.
Import JS.

(** [s.substring(0, n)] *)
Fixpoint substring_to (n : nat) (s : string) : string :=
  match n, s with
  | O, _ => EmptyString
  | S _, EmptyString => EmptyString
  | S n', String c s' => String c (substring_to n' s')
  end.

(** [s.replace(/\s+/g, ' ')]: every run of white space becomes one space. *)
Fixpoint collapseSpaces (s : string) : string :=
  match s with
  | EmptyString => EmptyString
  | String c s' =>
      if is_space c
      then if URL.head_is is_space s' then collapseSpaces s'
           else String " " (collapseSpaces s')
      else String c (collapseSpaces s')
  end.

Section Platform.
(** [new URL(href, base)], the two-argument constructor that resolves a
    reference against a base; [None] when it throws. *)
Context {P : Platform.t}.
Variable newURL2 : string -> string -> option (Platform.obj P).

(** [isInternalUrl(url, baseUrl)] *)
Definition isInternalUrl (url baseUrl : string) : bool :=
  match newURL2 url baseUrl, Platform.newURL P baseUrl with
  | Some urlObj, Some baseObj =>
      String.eqb (Platform.hostname urlObj) (Platform.hostname baseObj)
  | _, _ => false
  end.

(** [resolveUrl(href, baseUrl)]; [None] is [null]. *)
Definition resolveUrl (href baseUrl : string) : option string :=
  if URL.is_empty href || startsWith "#" href || startsWith "javascript:" href
     || startsWith "mailto:" href || startsWith "tel:" href
  then None
  else match newURL2 href baseUrl with
       | Some u => Some (Platform.href u)
       | None => None
       end.
End Platform.

(** The loop of [findLineNumber] over the lines from index [i] on. *)
Fixpoint findLine (cleanElement : string) (lines : list string) (i : nat) : nat :=
  match lines with
  | [] => 0
  | line :: rest =>
      if includes cleanElement line
         || includes cleanElement (collapseSpaces line)
      then i + 1
      else findLine cleanElement rest (i + 1)
  end.

(** [findLineNumber(html, element)] *)
Definition findLineNumber (html element : string) : nat :=
  let lines := split "010" html in
  let cleanElement := trim (collapseSpaces element) in
  findLine cleanElement lines 0.

(** One entry of the array [processConcurrent] returns. *)
Record Settled (A R E : Type) := mkSettled {
  item : A;
  success : bool;
  result : R + E      (* the value when fulfilled, the reason when rejected *)
}.
Arguments mkSettled {A R E}.
Arguments item {A R E}.
Arguments success {A R E}.
Arguments result {A R E}.

(** [items.slice(from, to)] with JavaScript's reading of negative and
    out-of-range indices. *)
Definition clamp_index (len i : Z) : Z :=
  if (i <? 0)%Z then Z.max (len + i) 0 else Z.min i len.

Definition slice {A} (items : list A) (from to : Z) : list A :=
  let len := Z.of_nat (length items) in
  let s := clamp_index len from in
  let e := clamp_index len to in
  firstn (Z.to_nat (e - s)) (skipn (Z.to_nat s) items).

Section Concurrent.
Context {A R E St : Type}.
(** A processor call is a promise: when it completes it yields a value
    or a reason and may have changed the state shared by the calls. *)
Variable processor : A -> St -> (R + E) * St.
(** The order in which the promises of a batch complete, as indices into
    the batch. *)
Variable completion : list A -> list nat.

(** [Promise.allSettled(batch.map(processor))]: each promise, when it
    completes, stores its outcome at the index of its own item. *)
Definition settle (batch : list A)
    (acc : list (option (R + E)) * St) (i : nat) : list (option (R + E)) * St :=
  match batch !! i with
  | Some x =>
      let '(r, s') := processor x (snd acc) in
      (<[i := Some r]> (fst acc), s')
  | None => acc
  end.

Definition allSettled (batch : list A) (s : St) : list (option (R + E)) * St :=
  fold_left (settle batch) (completion batch)
            (replicate (length batch) None, s).

(** [batchResults.map((result, index) => ({item: batch[index], ...}))];
    a slot that no promise filled would keep the loop from going on. *)
Fixpoint tag (batch : list A) (slots : list (option (R + E)))
  : option (list (Settled A R E)) :=
  match batch, slots with
  | x :: batch', Some r :: slots' =>
      match tag batch' slots' with
      | Some rest =>
          Some (mkSettled x (if r is inl _ then true else false) r :: rest)
      | None => None
      end
  | [], [] => Some []
  | _, _ => None
  end.

(** The [for] loop of [processConcurrent] from index [i]; the pause
    between batches changes nothing.  [None]: the loop has not ended
    within [fuel] rounds. *)
Fixpoint batches (fuel : nat) (items : list A) (concurrency : Z) (i : Z)
    (results : list (Settled A R E)) (s : St)
  : option (list (Settled A R E) * St) :=
  match fuel with
  | O => None
  | S fuel' =>
      if (i <? Z.of_nat (length items))%Z then
        let batch := slice items i (i + concurrency) in
        let '(slots, s') := allSettled batch s in
        match tag batch slots with
        | Some batchResults =>
            batches fuel' items concurrency (i + concurrency)
                    (results ++ batchResults) s'
        | None => None
        end
      else Some (results, s)
  end.

(** [processConcurrent(items, processor, concurrency)] *)
Definition processConcurrent (fuel : nat) (items : list A) (concurrency : Z)
    (s : St) : option (list (Settled A R E) * St) :=
  batches fuel items concurrency 0 [] s.
End Concurrent.

(** The entry of an item whose call yields [f x]. *)
Definition settled {A R E : Type} (f : A -> R + E) (x : A) : Settled A R E :=
  mkSettled x (if f x is inl _ then true else false) (f x).

End Utils.

(** ** LinkExtractor *)

Module LinkExtractor.
Import JS.

(** An element of the document cheerio parsed, with what the program
    reads from it. *)
Record Element := mkElement {
  name : string;                      (* element.name *)
  attrs : list (string * string);     (* $(element).attr(...) *)
  text : string;                      (* $(element).text() *)
  outerHtml : string                  (* $.html(element) *)
}.

Fixpoint attr (a : string) (l : list (string * string)) : option string :=
  match l with
  | [] => None
  | (k, v) :: rest => if String.eqb k a then Some v else attr a rest
  end.

Definition hasAttr (a : string) (e : Element) : bool :=
  if attr a (attrs e) is Some _ then true else false.

Record Position := mkPosition { line : nat; html : string }.

Record Link := mkLink {
  url : string;
  originalHref : string;
  linkText : string;
  element : string;
  isInternal : bool;
  position : Position;
  foundOn : string;
  type : option string;
  duplicateCount : option nat
}.

(** The object built by the constructor. *)
Record t := mk {
  linkSelectors : list string;
  urlAttributes : list (string * string);
  excludeImages : bool
}.

Definition new : t :=
  {| linkSelectors :=
       [ "a[href]"; "link[href]"; "img[src]"; "script[src]";
         "iframe[src]"; "source[src]"; "video[src]"; "audio[src]" ];
     urlAttributes :=
       [ ("a", "href"); ("link", "href"); ("img", "src"); ("script", "src");
         ("iframe", "src"); ("source", "src"); ("video", "src"); ("audio", "src") ];
     excludeImages := true |}.

(** [categorizeLink(tagName)] *)
Definition categorizeLink (tagName : string) : string :=
  match attr tagName
          [ ("a", "navigation"); ("img", "image"); ("script", "script");
            ("link", "resource"); ("iframe", "embed"); ("video", "media");
            ("audio", "media"); ("source", "media") ] with
  | Some c => c
  | None => "other"
  end.

Definition set_type (ty : string) (l : Link) : Link :=
  {| url := url l; originalHref := originalHref l; linkText := linkText l;
     element := element l; isInternal := isInternal l; position := position l;
     foundOn := foundOn l; type := Some ty; duplicateCount := duplicateCount l |}.

(** [existing.duplicateCount = (existing.duplicateCount || 1) + 1] *)
Definition bump (l : Link) : Link :=
  {| url := url l; originalHref := originalHref l; linkText := linkText l;
     element := element l; isInternal := isInternal l; position := position l;
     foundOn := foundOn l; type := type l;
     duplicateCount :=
       Some (match duplicateCount l with
             | Some (S n) => S n
             | _ => 1
             end + 1) |}.

(** The entry of key [key] in the map, counted once more. *)
Fixpoint bumpKey (key : string) (entries : list Link) : list Link :=
  match entries with
  | [] => []
  | l :: rest =>
      if String.eqb (url l) key then bump l :: rest else l :: bumpKey key rest
  end.

(** [deduplicateLinks(links)]: a [Map] from URL to link, in insertion
    order. *)
Definition deduplicateLinks (links : list Link) : list Link :=
  fold_left
    (fun uniqueMap link =>
       if existsb (fun l => String.eqb (url l) (url link)) uniqueMap
       then bumpKey (url link) uniqueMap
       else uniqueMap ++ [link])
    links [].

Section Platform.
Context {P : Platform.t}.
Variable newURL2 : string -> string -> option (Platform.obj P).
(** [cheerio.load(html)]: the elements of the document, in document
    order. *)
Variable load : string -> list Element.

(** [extractSingleLink($, element, attribute, baseUrl, html)] *)
Definition extractSingleLink (e : Element) (attribute baseUrl html : string)
  : option Link :=
  match attr attribute (attrs e) with
  | None => None
  | Some href =>
      if URL.is_empty href then None
      else
        match Utils.resolveUrl newURL2 href baseUrl with
        | None => None
        | Some absoluteUrl =>
            let linkText :=
              if String.eqb (name e) "a"
              then Utils.substring_to 100 (trim (text e))
              else match attr "alt" (attrs e) with
                   | Some (String c r) => String c r
                   | _ => match attr "title" (attrs e) with
                          | Some (String c r) => String c r
                          | _ => ""
                          end
                   end in
            let elementHtml := outerHtml e in
            let lineNumber := Utils.findLineNumber html elementHtml in
            Some {| url := absoluteUrl;
                    originalHref := href;
                    linkText := linkText;
                    element := name e;
                    isInternal := Utils.isInternalUrl newURL2 absoluteUrl baseUrl;
                    position :=
                      {| line := lineNumber;
                         html := Utils.substring_to 200 elementHtml
                                 +:+ (if (200 <? String.length elementHtml)%nat
                                      then "..." else "") |};
                    foundOn := baseUrl;
                    type := None;
                    duplicateCount := None |}
        end
  end.

(** What [extractSingleLink] establishes of a link and de-duplication
    keeps. *)
Definition wellExtracted (baseUrl : string) (l : Link) : Prop :=
  foundOn l = baseUrl
  /\ Utils.resolveUrl newURL2 (originalHref l) baseUrl = Some (url l)
  /\ isInternal l = Utils.isInternalUrl newURL2 (url l) baseUrl.

(** [$('a[href]')] *)
Definition isAnchor (e : Element) : bool :=
  String.eqb (name e) "a" && hasAttr "href" e.

(** [$('img[src], script[src], link[href]')] *)
Definition isResource (e : Element) : bool :=
  (String.eqb (name e) "img" && hasAttr "src" e)
  || (String.eqb (name e) "script" && hasAttr "src" e)
  || (String.eqb (name e) "link" && hasAttr "href" e).

(** [extractLinks(html, baseUrl)] *)
Definition extractLinks (x : t) (html baseUrl : string) : list Link :=
  let doc := load html in
  let links :=
    omap (fun e => extractSingleLink e "href" baseUrl html)
         (List.filter isAnchor doc) in
  let links :=
    if negb (excludeImages x) then
      links ++
      omap (fun e =>
              let attribute :=
                match attr (name e) (urlAttributes x) with
                | Some (String c r) => String c r
                | _ => "src"
                end in
              match extractSingleLink e attribute baseUrl html with
              | Some link => Some (set_type (categorizeLink (name e)) link)
              | None => None
              end)
           (List.filter isResource doc)
    else links in
  deduplicateLinks links.
End Platform.

(** The [filters] argument of [filterLinks]. *)
Record Filters := mkFilters {
  f_internal : bool;                        (* filters.internal === true *)
  f_external : bool;                        (* filters.external === true *)
  f_elements : option (list string);        (* filters.elements, when given *)
  f_excludeDomains : option (list string)   (* filters.excludeDomains, when given *)
}.

Section Filter.
(** [new URL(url).hostname]; [None] when the constructor throws. *)
Variable hostname : string -> option string.

(** [filterLinks(links, filters)] *)
Definition filterLinks (links : list Link) (filters : Filters) : list Link :=
  let filteredLinks := links in
  let filteredLinks :=
    if f_internal filters then List.filter isInternal filteredLinks
    else filteredLinks in
  let filteredLinks :=
    if f_external filters
    then List.filter (fun link => negb (isInternal link)) filteredLinks
    else filteredLinks in
  let filteredLinks :=
    match f_elements filters with
    | Some (e :: es) =>
        List.filter (fun link => existsb (String.eqb (element link)) (e :: es))
                    filteredLinks
    | _ => filteredLinks
    end in
  match f_excludeDomains filters with
  | Some domains =>
      List.filter (fun link =>
                     match hostname (url link) with
                     | Some domain => negb (existsb (String.eqb domain) domains)
                     | None => true
                     end) filteredLinks
  | None => filteredLinks
  end.
End Filter.

(** How many links of [ls] have the URL [k]. *)
Definition occurrences (k : string) (ls : list Link) : nat :=
  length (List.filter (fun l => String.eqb (url l) k) ls).

(** The first link of [ls] that has the URL [k]. *)
Definition firstWith (k : string) (ls : list Link) : option Link :=
  List.find (fun l => String.eqb (url l) k) ls.

(** A link with its duplicate count set to the number of occurrences [n]:
    absent for a single occurrence. *)
Definition counted (n : nat) (l : Link) : Link :=
  {| url := url l; originalHref := originalHref l; linkText := linkText l;
     element := element l; isInternal := isInternal l; position := position l;
     foundOn := foundOn l; type := type l;
     duplicateCount := if (n <=? 1)%nat then None else Some n |}.

(** The entry the map holds for the URL [k] after the links [p]: the first
    link with that URL, counted as often as the URL occurs. *)
Definition entryOf (p : list Link) (k : string) : option Link :=
  counted (occurrences k p) <$> firstWith k p.

End LinkExtractor.

(** ** LinkChecker *)

Module LinkChecker.
Import JS.
Import LinkExtractor.

(** What [axios.get] answers.  With [validateStatus: () => true] every
    status code is a response; a rejection carries an error. *)
Record Response := mkResponse {
  status : Z;
  data : string;
  contentType : option string;     (* headers['content-type'] *)
  lastModified : option string;    (* headers['last-modified'] *)
  responseUrl : option string;     (* request.res?.responseUrl *)
  elapsed : nat                    (* Date.now() - startTime *)
}.

Record AxiosError := mkError {
  code : option string;
  response : option Z;             (* error.response.status, when present *)
  message : string;
  elapsedE : nat
}.

Inductive GetOutcome :=
| Resolved (r : Response)
| Rejected (e : AxiosError).

Inductive Category := ok | broken | warning | timeout | error.

Definition Category_eqb (a b : Category) : bool :=
  match a, b with
  | ok, ok | broken, broken | warning, warning
  | timeout, timeout | error, error => true
  | _, _ => false
  end.

Record Stats := mkStats {
  pagesScanned : nat;
  linksChecked : nat;
  errors404 : nat;
  errorsOther : nat;
  timeouts : nat
}.

(** [resetStats()] *)
Definition resetStats : Stats := mkStats 0 0 0 0 0.

Definition incr_errors404 (s : Stats) : Stats :=
  mkStats (pagesScanned s) (linksChecked s) (errors404 s + 1) (errorsOther s) (timeouts s).
Definition incr_errorsOther (s : Stats) : Stats :=
  mkStats (pagesScanned s) (linksChecked s) (errors404 s) (errorsOther s + 1) (timeouts s).
Definition incr_timeouts (s : Stats) : Stats :=
  mkStats (pagesScanned s) (linksChecked s) (errors404 s) (errorsOther s) (timeouts s + 1).

(** A link with its verification outcome ([{...link, status, ...}]). *)
Record CheckedLink := mkChecked {
  link : Link;
  category : Category;             (* the field named status *)
  statusCode : Z;
  responseTime : nat;
  c_contentType : option string;
  c_lastModified : option string;
  redirected : option bool;
  finalUrl : option string;
  c_error : option string;
  errorCode : option string
}.

Definition is_timeout_code (c : option string) : bool :=
  match c with
  | Some c => String.eqb c "ECONNABORTED" || String.eqb c "ETIMEDOUT"
  | None => false
  end.

Section World.
(** The network: what a GET of a URL answers. *)
Variable get : string -> GetOutcome.
Context {P : Platform.t}.
Variable newURL2 : string -> string -> option (Platform.obj P).
Variable load : string -> list Element.
(** The order in which the checks of a batch complete. *)
Variable completion : list Link -> list nat.

(** [checkSingleLink(link)] on the shared counters.  The response is one
    axios built, so reading its headers and its request does not throw. *)
Definition checkSingleLink (l : Link) (s : Stats) : CheckedLink * Stats :=
  match get (url l) with
  | Resolved r =>
      let '(st, s) :=
        if (status r =? 404)%Z then (broken, incr_errors404 s)
        else if (400 <=? status r)%Z then (warning, incr_errorsOther s)
        else (ok, s) in
      ({| link := l; category := st; statusCode := status r;
          responseTime := elapsed r;
          c_contentType := contentType r;
          c_lastModified := lastModified r;
          redirected :=
            Some (negb (match responseUrl r with
                        | Some u => String.eqb u (url l)
                        | None => false
                        end));
          finalUrl :=
            Some (match responseUrl r with
                  | Some (String c u) => String c u
                  | _ => url l
                  end);
          c_error := None; errorCode := None |}, s)
  | Rejected e =>
      let '(st, sc, s) :=
        if is_timeout_code (code e) then (timeout, 0%Z, incr_timeouts s)
        else match response e with
             | Some sc =>
                 if (sc =? 404)%Z then (broken, sc, incr_errors404 s)
                 else if (400 <=? sc)%Z then (warning, sc, incr_errorsOther s)
                 else (error, sc, s)
             | None => (error, 0%Z, incr_errorsOther s)
             end in
      ({| link := l; category := st; statusCode := sc;
          responseTime := elapsedE e;
          c_contentType := None; c_lastModified := None;
          redirected := None; finalUrl := None;
          c_error := Some (message e); errorCode := code e |}, s)
  end.

(** The verdict on a link, which the counters do not influence. *)
Definition verdict (l : Link) : CheckedLink :=
  fst (checkSingleLink l resetStats).

(** The processor handed to [processConcurrent]: the promise of
    [checkSingleLink] always fulfils, its body being one try/catch. *)
Definition processor (l : Link) (s : Stats) : (CheckedLink + string) * Stats :=
  let '(r, s') := checkSingleLink l s in (inl r, s').

(** The entry [checkLinksInBatch] builds for a rejected promise. *)
Definition failedCheck (l : Link) (reason : string) : CheckedLink :=
  {| link := l; category := error; statusCode := 0; responseTime := 0;
     c_contentType := None; c_lastModified := None;
     redirected := None; finalUrl := None;
     c_error := Some (if URL.is_empty reason then "Erreur inconnue" else reason);
     errorCode := None |}.

(** [checkLinksInBatch(links)] *)
Definition checkLinksInBatch (fuel : nat) (maxConcurrent : Z)
    (links : list Link) (s : Stats) : option (list CheckedLink * Stats) :=
  match links with
  | [] => Some ([], s)
  | _ =>
      match Utils.processConcurrent processor completion fuel links maxConcurrent s with
      | Some (results, s') =>
          Some (map (fun r =>
                       match Utils.result r with
                       | inl checked => checked
                       | inr reason => failedCheck (Utils.item r) reason
                       end) results, s')
      | None => None
      end
  end.

(** The filter of [scanSinglePage] that selects the links to verify. *)
Definition toCheck (l : Link) : bool :=
  startsWith "http" (url l)
  && negb (includes "#" (url l))
  && negb (startsWith "mailto:" (originalHref l))
  && negb (startsWith "tel:" (originalHref l)).

Record PageStats := mkPageStats {
  totalLinksFound : nat;
  ps_linksChecked : nat;
  internal : nat;
  external : nat;
  ps_ok : nat;
  ps_broken : nat;
  warnings : nat;
  errors : nat;
  ps_timeouts : nat
}.

Definition count {A} (p : A -> bool) (l : list A) : nat :=
  length (List.filter p l).

(** [generatePageStats(allLinks, checkedLinks)], without the success
    rate, which is a formatted floating-point number. *)
Definition generatePageStats (allLinks : list Link)
    (checkedLinks : list CheckedLink) : PageStats :=
  {| totalLinksFound := length allLinks;
     ps_linksChecked := length checkedLinks;
     internal := count (fun l => isInternal (link l)) checkedLinks;
     external := count (fun l => negb (isInternal (link l))) checkedLinks;
     ps_ok := count (fun l => Category_eqb (category l) ok) checkedLinks;
     ps_broken := count (fun l => Category_eqb (category l) broken) checkedLinks;
     warnings := count (fun l => Category_eqb (category l) warning) checkedLinks;
     errors := count (fun l => Category_eqb (category l) error) checkedLinks;
     ps_timeouts := count (fun l => Category_eqb (category l) timeout) checkedLinks |}.

Record PageResult := mkPage {
  pageUrl : string;
  accessible : bool;
  pageStatus : option Z;
  pageError : option string;
  links : list Link;
  checkedLinks : list CheckedLink;
  stats : option PageStats
}.

Definition add_page (n : nat) (s : Stats) : Stats :=
  mkStats (pagesScanned s + 1) (linksChecked s + n) (errors404 s) (errorsOther s) (timeouts s).

(** [scanSinglePage(pageUrl)] *)
Definition scanSinglePage (x : LinkExtractor.t) (fuel : nat) (maxConcurrent : Z)
    (pageUrl : string) (s : Stats) : option (PageResult * Stats) :=
  match get pageUrl with
  | Resolved pageResponse =>
      if negb (status pageResponse =? 200)%Z then
        Some ({| pageUrl := pageUrl; accessible := false;
                 pageStatus := Some (status pageResponse);
                 pageError := Some "Page returned status";
                 links := []; checkedLinks := []; stats := None |}, s)
      else
        let links := extractLinks newURL2 load x (data pageResponse) pageUrl in
        let linksToCheck := List.filter toCheck links in
        match checkLinksInBatch fuel maxConcurrent linksToCheck s with
        | Some (checkedLinks, s') =>
            let pageStats := generatePageStats links checkedLinks in
            Some ({| pageUrl := pageUrl; accessible := true;
                     pageStatus := Some (status pageResponse);
                     pageError := None;
                     links := links; checkedLinks := checkedLinks;
                     stats := Some pageStats |},
                  add_page (length checkedLinks) s')
        | None => None
        end
  | Rejected e =>
      Some ({| pageUrl := pageUrl; accessible := false;
               pageStatus := None; pageError := Some (message e);
               links := []; checkedLinks := []; stats := None |}, s)
  end.

(** An entry of the 404 list. *)
Record Error404 := mkError404 {
  e_url : string;
  e_foundOn : string;
  e_linkText : string;
  e_position : Position;
  e_isInternal : bool
}.

Definition entry404 (l : CheckedLink) : Error404 :=
  {| e_url := url (link l); e_foundOn := foundOn (link l);
     e_linkText := linkText (link l); e_position := position (link l);
     e_isInternal := isInternal (link l) |}.

Record Summary := mkSummary {
  totalLinks : nat;
  s_errors404 : list Error404;
  s_errorsOther : list CheckedLink;
  s_timeouts : list CheckedLink
}.

Record ScanResults := mkScan {
  totalPages : nat;
  pages : list PageResult;
  summary : Summary;
  scanStats : Stats
}.

(** The condition under which [scanWebsite] records a link as a 404. *)
Definition is404 (l : CheckedLink) : bool :=
  Category_eqb (category l) broken && (statusCode l =? 404)%Z.

(** The body of [pageResult.checkedLinks.forEach]. *)
Definition compile (sm : Summary) (l : CheckedLink) : Summary :=
  {| totalLinks := totalLinks sm + 1;
     s_errors404 :=
       if Category_eqb (category l) broken && (statusCode l =? 404)%Z
       then s_errors404 sm ++ [entry404 l]
       else s_errors404 sm;
     s_errorsOther := s_errorsOther sm;
     s_timeouts := s_timeouts sm |}.

(** The loop of [scanWebsite] over the pages; the pause between pages
    changes nothing. *)
Fixpoint scanPages (x : LinkExtractor.t) (fuel : nat) (maxConcurrent : Z)
    (urls : list string) (acc : list PageResult) (sm : Summary) (s : Stats)
  : option (list PageResult * Summary * Stats) :=
  match urls with
  | [] => Some (acc, sm, s)
  | u :: rest =>
      match scanSinglePage x fuel maxConcurrent u s with
      | Some (pageResult, s') =>
          scanPages x fuel maxConcurrent rest (acc ++ [pageResult])
                    (fold_left compile (checkedLinks pageResult) sm) s'
      | None => None
      end
  end.

(** [scanWebsite(urls)] *)
Definition scanWebsite (x : LinkExtractor.t) (fuel : nat) (maxConcurrent : Z)
    (urls : list string) : option ScanResults :=
  match scanPages x fuel maxConcurrent urls []
                  (mkSummary 0 [] [] []) resetStats with
  | Some (pages, sm, s) =>
      Some {| totalPages := length urls; pages := pages;
              summary := sm; scanStats := s |}
  | None => None
  end.
End World.

(** The values the properties of a 404 entry hold. *)
Inductive Value :=
| VString (s : string)
| VBool (b : bool)
| VNumber (n : Z)
| VPosition (p : Position).

(** A 404 entry as the object literal [scanWebsite] builds: its own
    properties. *)
Definition properties (e : Error404) : list (string * Value) :=
  [ ("url", VString (e_url e)); ("foundOn", VString (e_foundOn e));
    ("linkText", VString (e_linkText e)); ("position", VPosition (e_position e));
    ("isInternal", VBool (e_isInternal e)) ].

(** [object.key]; [None] is [undefined]. *)
Definition property (key : string) (object : list (string * Value))
  : option Value :=
  match List.find (fun kv => String.eqb (fst kv) key) object with
  | Some kv => Some (snd kv)
  | None => None
  end.

(** [extractErrors404Only(scanResults)] *)
Definition extractErrors404Only (scanResults : ScanResults) : list Error404 :=
  List.filter (fun error =>
                 match property "statusCode" (properties error) with
                 | Some (VNumber n) => (n =? 404)%Z
                 | _ => false
                 end)
              (s_errors404 (summary scanResults)).

End LinkChecker.

(** ** SitemapCleaner.generateReport *)

Module CleaningReport.
Import JS SitemapCleaner.

Record t := mk {
  original : nat;
  cleaned : nat;
  removed : Z;
  filesRemoved : nat;
  languageNormalized : nat;
  duplicatesRemoved : nat
}.

(** The [forEach] over the original URLs: [isExcludedFile] is called on
    each of them as it is, and throws on one that [new URL] rejects. *)
Section Runtime.
Variable P : Platform.t.

Fixpoint countCategories (c : SitemapCleaner.t) (urls : list string)
    (files lang : nat) : option (nat * nat) :=
  match urls with
  | [] => Some (files, lang)
  | url :: rest =>
      match isExcludedFile P c url with
      | None => None
      | Some b =>
          countCategories c rest
            (if b then files + 1 else files)
            (if existsb (fun prefix => includes prefix url) (languagePrefixes c)
             then lang + 1 else lang)
      end
  end.

(** [generateReport(originalUrls, cleanedUrls)], without the reduction
    rate, which is a formatted floating-point number; [None] when it
    throws. *)
Definition generateReport (c : SitemapCleaner.t)
    (originalUrls cleanedUrls : list string) : option t :=
  match countCategories c originalUrls 0 0 with
  | None => None
  | Some (files, lang) =>
      let uniqueOriginal :=
        unique (map (fun url => match cleanSingleUrl P c url with
                                | Some (String a r) => String a r
                                | _ => url
                                end) originalUrls) in
      Some {| original := length originalUrls;
              cleaned := length cleanedUrls;
              removed := Z.of_nat (length originalUrls) - Z.of_nat (length cleanedUrls);
              filesRemoved := files;
              languageNormalized := lang;
              duplicatesRemoved := length originalUrls - length uniqueOriginal |}
  end.
End Runtime.
End CleaningReport.

(** ** SlackNotifier *)

Module SlackNotifier.
Import LinkChecker.

(** What reaches the outside: a call of the notifier by the handler, and
    a message posted to the webhook. *)
Inductive Event :=
| Invoked (errors : list Error404)       (* notifier.notifyErrors404(...) *)
| Posted (webhook : string) (count : nat).

Definition truthy (o : option string) : option string :=
  match o with
  | Some (String c r) => Some (String c r)
  | _ => None
  end.

(** [notifyErrors404(errors404, scanStats)]: whether the message was
    sent, and what was posted.  [post] tells whether the request to the
    webhook succeeds. *)
Definition notifyErrors404 (post : string -> bool) (webhookUrl : option string)
    (errors404 : list Error404) : bool * list Event :=
  match truthy webhookUrl with
  | None => (false, [])
  | Some w =>
      match errors404 with
      | [] => (false, [])
      | _ => (post w, [Posted w (length errors404)])
      end
  end.

(** [truncateUrl(url, maxLength = 60)]; [None] when [new URL(url)]
    throws. *)
Definition truncateUrl (P : Platform.t) (url : string) (maxLength : Z)
  : option string :=
  if (Z.of_nat (String.length url) <=? maxLength)%Z then Some url
  else
    match Platform.newURL P url with
    | None => None
    | Some urlObj =>
        Some (Platform.hostname urlObj
              +:+ Utils.substring_to
                    (Z.to_nat (maxLength
                               - Z.of_nat (String.length (Platform.hostname urlObj))
                               - 3))
                    (Platform.pathname urlObj)
              +:+ "...")
    end.

(** [getPageTitle(url)]; [pathnameOf url] is [new URL(url).pathname],
    [None] when the constructor throws. *)
Definition getPageTitle (pathnameOf : string -> option string) (url : string)
  : string :=
  match pathnameOf url with
  | None => "page inconnue"
  | Some pathname =>
      match last (List.filter (fun segment => negb (URL.is_empty segment))
                              (JS.split "/" pathname)) with
      | Some (String c r) => String c r
      | _ => "accueil"
      end
  end.
End SlackNotifier.

(** ** The check-links handler *)

Module CheckLinks.
Import JS LinkChecker SlackNotifier.

Record Request := mkRequest {
  method : string;
  q_sitemap : option string;     (* request.query.sitemap *)
  q_notify : option string;      (* request.query.notify *)
  q_maxPages : option Z          (* parseInt(request.query.maxPages), when a number *)
}.

Record Env := mkEnv {
  SITEMAP_URL : option string;
  SLACK_WEBHOOK_URL : option string;
  MAX_CONCURRENT_CHECKS : option Z   (* parseInt of the variable, when a number *)
}.

Record Notification := mkNotification {
  enabled : bool;
  sent : bool;
  errors404Count : nat
}.

Inductive Body :=
| Final (originalUrls cleanedUrls scannedUrls : nat)
        (cleaningReport : CleaningReport.t)
        (totalLinksChecked : nat) (errors404 : list Error404)
        (stats : Stats) (notification : Notification)
| Failure (error : string)
| Empty.

Record Reply := mkReply {
  httpStatus : Z;
  success : option bool;           (* the success field of the JSON body *)
  body : Body
}.

Record Outcome := mkOutcome {
  reply : Reply;
  events : list Event;
  scan : option ScanResults        (* None: scanWebsite was not reached *)
}.

(** [parseInt(process.env.MAX_CONCURRENT_CHECKS) || 10] *)
Definition maxConcurrent (e : Env) : Z :=
  match MAX_CONCURRENT_CHECKS e with
  | Some n => if (n =? 0)%Z then 10%Z else n
  | None => 10%Z
  end.

(** [request.query.notify !== 'true'] *)
Definition notifySlack (r : Request) : bool :=
  match q_notify r with
  | Some v => negb (String.eqb v "true")
  | None => true
  end.

(** [request.query.sitemap || process.env.SITEMAP_URL || '...'] *)
Definition sitemapUrl (r : Request) (e : Env) : string :=
  match truthy (q_sitemap r), truthy (SITEMAP_URL e) with
  | Some u, _ => u
  | None, Some u => u
  | None, None => "https://www.stereolabs.com/sitemap.xml"
  end.

(** [maxPages ? cleanUrls.slice(0, maxPages) : cleanUrls] *)
Definition urlsToScan (maxPages : option Z) (cleanUrls : list string) : list string :=
  match maxPages with
  | Some n => if (n =? 0)%Z then cleanUrls else Utils.slice cleanUrls 0 n
  | None => cleanUrls
  end.

Section World.
Variable cleaner : SitemapCleaner.t.
(** [fetcher.fetchSitemap(url)]: the URLs found, or the message of the
    error it throws. *)
Variable fetchSitemap : string -> list string + string.
Variable get : string -> GetOutcome.
Context {P : Platform.t}.
Variable newURL2 : string -> string -> option (Platform.obj P).
Variable load : string -> list LinkExtractor.Element.
Variable completion : list LinkExtractor.Link -> list nat.
Variable post : string -> bool.

(** The [catch] branch.  SlackNotifier has no [notifyTechnicalError]
    method: the call throws, the inner [catch] logs it, and nothing is
    sent. *)
Definition failed (msg : string) (sc : option ScanResults) : Outcome :=
  {| reply := {| httpStatus := 500; success := Some false; body := Failure msg |};
     events := [];
     scan := sc |}.

(** [handler(request, response)]; [None]: the scan has not ended within
    [fuel] rounds per page. *)
Definition handler (fuel : nat) (request : Request) (env : Env) : option Outcome :=
  if String.eqb (method request) "OPTIONS" then
    Some {| reply := {| httpStatus := 200; success := None; body := Empty |};
            events := []; scan := None |}
  else
    match fetchSitemap (sitemapUrl request env) with
    | inr msg => Some (failed msg None)
    | inl rawUrls =>
        match rawUrls with
        | [] =>
          (* 'Aucune URL trouvee dans le sitemap', with an acute accent on
             the first e of the participle: code unit 233 *)
          Some (failed ("Aucune URL trouv" +:+ String "233" "e dans le sitemap")
                       None)
        | _ =>
          match SitemapCleaner.process P cleaner rawUrls with
          | None => Some (failed "Invalid URL" None)
          | Some cleanUrls =>
            match CleaningReport.generateReport P cleaner rawUrls cleanUrls with
            | None => Some (failed "Invalid URL" None)
            | Some cleaningReport =>
              let toScan := urlsToScan (q_maxPages request) cleanUrls in
              match scanWebsite get newURL2 load completion LinkExtractor.new
                                fuel (maxConcurrent env) toScan with
              | None => None
              | Some scanResults =>
                let errors404 := s_errors404 (summary scanResults) in
                let '(notificationSent, evs) :=
                  if notifySlack request && negb (Nat.eqb (length errors404) 0)
                  then
                    let '(b, posted) :=
                      notifyErrors404 post (SLACK_WEBHOOK_URL env) errors404 in
                    (b, Invoked errors404 :: posted)
                  else (false, []) in
                Some {| reply :=
                          {| httpStatus := 200; success := Some true;
                             body := Final (length rawUrls) (length cleanUrls)
                                       (length toScan) cleaningReport
                                       (totalLinks (summary scanResults))
                                       errors404 (scanStats scanResults)
                                       {| enabled := notifySlack request;
                                          sent := notificationSent;
                                          errors404Count := length errors404 |} |};
                        events := evs;
                        scan := Some scanResults |}
              end
            end
          end
        end
    end.
End World.

(** The 404 list of the scan, empty when no scan was made. *)
Definition reported404 (o : Outcome) : list Error404 :=
  match scan o with
  | Some r => s_errors404 (summary r)
  | None => []
  end.

(** The pages the scan attempted. *)
Definition attempted (o : Outcome) : list PageResult :=
  match scan o with
  | Some r => pages r
  | None => []
  end.

(** How many times the handler called the notifier. *)
Definition invocations (evs : list Event) : nat :=
  length (List.filter (fun e => if e is Invoked _ then true else false) evs).

End CheckLinks.

(** ** The cron handler *)

Module Cron.
Import JS LinkChecker SlackNotifier.

(** The array-valued own properties of [scanResults.summary], as
    [scanWebsite] builds it, each by its length. *)
Definition summaryArrays (sm : Summary) : list (string * nat) :=
  [ ("errors404", length (s_errors404 sm));
    ("errorsOther", length (s_errorsOther sm));
    ("timeouts", length (s_timeouts sm)) ].

(** [scanResults.summary[key].length] for a key that is not the number
    [totalLinks]; [None] when the property is undefined, so that reading
    its length throws a TypeError. *)
Definition arrayLength (key : string) (sm : Summary) : option nat :=
  match List.find (fun kv => String.eqb (fst kv) key) (summaryArrays sm) with
  | Some kv => Some (snd kv)
  | None => None
  end.

(** The numbers of the analysis; the rates and averages are formatted
    floating-point numbers and are left out. *)
Record Analysis := mkAnalysis {
  originalSize : nat;
  cleanedSize : nat;
  scannedSize : nat;
  pagesTotal : nat;
  linksTotal : nat;
  a_errors404 : nat;
  a_errorsOther : nat;
  a_warnings : nat;
  a_timeouts : nat;
  healthy : bool;
  criticalIssues : nat;
  minorIssues : nat
}.

(** [generateCronAnalysis(scanResults, metadata)]; [None] when it
    throws. *)
Definition generateCronAnalysis (scanResults : ScanResults)
    (originalSitemapSize cleanedSitemapSize scannedPages : nat)
  : option Analysis :=
  let sm := summary scanResults in
  match arrayLength "errors404" sm, arrayLength "errorsOther" sm,
        arrayLength "warnings" sm with
  | Some e404, Some other, Some warn =>
      Some {| originalSize := originalSitemapSize;
              cleanedSize := cleanedSitemapSize;
              scannedSize := scannedPages;
              pagesTotal := pagesScanned (scanStats scanResults);
              linksTotal := linksChecked (scanStats scanResults);
              a_errors404 := e404;
              a_errorsOther := other;
              a_warnings := warn;
              a_timeouts := timeouts (scanStats scanResults);
              healthy := Nat.eqb e404 0;
              criticalIssues := e404;
              minorIssues := warn |}
  | _, _, _ => None
  end.

(** What the handler answers, and what it has done by then. *)
Record Outcome := mkOutcome {
  httpStatus : Z;
  success : bool;
  posted : list Event;              (* what reached Slack *)
  scan : option ScanResults         (* None: scanWebsite was not reached *)
}.

(** [authHeader !== `Bearer ${process.env.CRON_SECRET}`], negated. *)
Definition authorized (authorization cronSecret : option string) : bool :=
  match authorization with
  | Some h =>
      String.eqb h ("Bearer " +:+ match cronSecret with
                                  | Some s => s
                                  | None => "undefined"
                                  end)
  | None => false
  end.

(** [process.env.SITEMAP_URL || '...'] *)
Definition sitemapUrl (e : CheckLinks.Env) : string :=
  match truthy (CheckLinks.SITEMAP_URL e) with
  | Some u => u
  | None => "https://www.stereolabs.com/sitemap.xml"
  end.

Section World.
Variable cleaner : SitemapCleaner.t.
Variable fetchSitemap : string -> list string + string.
Variable get : string -> GetOutcome.
Context {P : Platform.t}.
Variable newURL2 : string -> string -> option (Platform.obj P).
Variable load : string -> list LinkExtractor.Element.
Variable completion : list LinkExtractor.Link -> list nat.

(** The [catch] branch.  SlackNotifier has no [notifyCronError] method:
    the call throws, the inner [catch] logs it, and nothing is sent. *)
Definition failed (sc : option ScanResults) : Outcome :=
  {| httpStatus := 500; success := false; posted := []; scan := sc |}.

(** [handler(request, response)].  The options handed to
    [new LinkChecker] are ignored by its constructor, which takes none; so
    the batch size is the one of the environment.  [None]: the scan has
    not ended within [fuel] rounds per page. *)
Definition handler (fuel : nat) (authorization cronSecret : option string)
    (env : CheckLinks.Env) : option Outcome :=
  if negb (authorized authorization cronSecret) then
    Some {| httpStatus := 401; success := false; posted := []; scan := None |}
  else
    match fetchSitemap (sitemapUrl env) with
    | inr _ => Some (failed None)
    | inl rawUrls =>
        match rawUrls with
        | [] => Some (failed None)
        | _ =>
          match SitemapCleaner.process P cleaner rawUrls with
          | None => Some (failed None)
          | Some cleanUrls =>
            let urlsToScan := Utils.slice cleanUrls 0 50 in
            match scanWebsite get newURL2 load completion LinkExtractor.new
                              fuel (CheckLinks.maxConcurrent env) urlsToScan with
            | None => None
            | Some scanResults =>
              match generateCronAnalysis scanResults (length rawUrls)
                      (length cleanUrls) (length urlsToScan) with
              | None => Some (failed (Some scanResults))
              | Some analysis =>
                let errors404 := s_errors404 (summary scanResults) in
                if negb (Nat.eqb (length errors404) 0)
                   && (if truthy (CheckLinks.SLACK_WEBHOOK_URL env) is Some _
                       then true else false)
                then
                  (* notifier.notifyCronResults is not a function *)
                  Some (failed (Some scanResults))
                else
                  (* cronResult reads the same lengths again *)
                  match arrayLength "errorsOther" (summary scanResults),
                        arrayLength "warnings" (summary scanResults) with
                  | Some _, Some _ =>
                      Some {| httpStatus := 200; success := true;
                              posted := []; scan := Some scanResults |}
                  | _, _ => Some (failed (Some scanResults))
                  end
              end
            end
          end
        end
    end.
End World.
End Cron.

(** The exclusion rule in the words of the specification: the target has
    no http or https scheme, or differs from a checked URL only by a
    fragment, or the reference used mailto: or tel:. *)
Module AsWorded.
Import LinkExtractor.

Definition lacksHttpScheme (u : string) : bool :=
  match URL.parse u with
  | Some p => negb (String.eqb (URL.scheme p) "http"
                    || String.eqb (URL.scheme p) "https")
  | None => true
  end.

Definition withoutFragment (u : string) : string :=
  fst (JS.break URL.is_hash u).

Definition fragmentOnlyDifference (u : string) (checked : list string) : bool :=
  existsb (fun c => negb (String.eqb u c)
                    && String.eqb (withoutFragment u) (withoutFragment c))
          checked.

Definition excluded (l : Link) (checked : list Link) : bool :=
  lacksHttpScheme (url l)
  || fragmentOnlyDifference (url l) (map url checked)
  || JS.startsWith "mailto:" (originalHref l)
  || JS.startsWith "tel:" (originalHref l).
End AsWorded.

(** ** A small world for running the program

    One site, [https://example.com/], whose front page has a single anchor
    to [/missing], which answers 404. *)

Module Fixture.
Import JS LinkExtractor LinkChecker.

Definition front : string := "https://example.com/".
Definition frontHtml : string := "<a href=/missing>x</a>".

Definition anchor : Element :=
  {| name := "a"; attrs := [("href", "/missing")]; text := "x";
     outerHtml := frontHtml |}.

Definition load (html : string) : list Element :=
  if String.eqb html frontHtml then [anchor] else [].

(** Resolution of an absolute reference, or of a path against the origin
    of the base. *)
Definition newURL2 (href base : string) : option (Platform.obj Platform.reference) :=
  if startsWith "/" href then
    match Platform.newURL Platform.reference base with
    | Some b =>
        Platform.newURL Platform.reference
          (Platform.scheme b +:+ "://" +:+ Platform.hostname b +:+ href)
    | None => None
    end
  else Platform.newURL Platform.reference href.

Definition answer (code : Z) (html : string) : GetOutcome :=
  Resolved {| status := code; data := html; contentType := Some "text/html";
              lastModified := None; responseUrl := None; elapsed := 12 |}.

Definition get (u : string) : GetOutcome :=
  if String.eqb u front then answer 200 frontHtml
  else if String.eqb u "https://example.com/missing" then answer 404 ""
  else answer 200 "".

(** The checks of a batch complete last to first. *)
Definition completion (batch : list Link) : list nat :=
  rev (seq 0 (length batch)).

Definition fetchSitemap (_ : string) : list string + string := inl [front].
Definition post (_ : string) : bool := true.

Definition env : CheckLinks.Env :=
  {| CheckLinks.SITEMAP_URL := None;
     CheckLinks.SLACK_WEBHOOK_URL := Some "https://hooks.slack.com/services/T/B/X";
     CheckLinks.MAX_CONCURRENT_CHECKS := None |}.

Definition request (notify : option string) : CheckLinks.Request :=
  {| CheckLinks.method := "GET"; CheckLinks.q_sitemap := None;
     CheckLinks.q_notify := notify; CheckLinks.q_maxPages := None |}.

Definition run (fetch : string -> list string + string) (notify : option string)
  : option CheckLinks.Outcome :=
  CheckLinks.handler SitemapCleaner.new_language fetch get newURL2 load
                     completion post 5 (request notify) env.

(** A link to a section of another page: the only link of its page, so no
    checked URL differs from it by a fragment. *)
Definition sectionLink : Link :=
  {| url := "https://example.com/docs#install";
     originalHref := "/docs#install";
     linkText := "Install"; element := "a";
     isInternal := true;
     position := mkPosition 1 "";
     foundOn := front;
     type := None; duplicateCount := None |}.

(** A link whose scheme merely begins with the letters http. *)
Definition httpxLink : Link :=
  {| url := "httpx://example.com/a";
     originalHref := "httpx://example.com/a";
     linkText := "a"; element := "a";
     isInternal := false;
     position := mkPosition 1 "";
     foundOn := front;
     type := None; duplicateCount := None |}.


(** A sitemap index with two sub-sitemaps: one that cannot be downloaded
    and one that lists three entries. *)
Definition download (u : option string) : option string :=
  match u with
  | Some u =>
      if String.eqb u "https://example.com/sitemap.xml" then Some "index"
      else if String.eqb u "https://example.com/pages.xml" then Some "pages"
      else None
  | None => None
  end.

Definition parseXml (data : string) : option SitemapFetcher.Parsed :=
  if String.eqb data "index" then
    Some (SitemapFetcher.SitemapIndex
            [Some (SitemapFetcher.LocText "https://example.com/gone.xml");
             Some (SitemapFetcher.LocObject (Some "https://example.com/pages.xml"))])
  else if String.eqb data "pages" then
    Some (SitemapFetcher.Urlset
            [SitemapFetcher.EntryObject
               (Some (SitemapFetcher.LocText "https://example.com/"));
             SitemapFetcher.EntryText "ftp://example.com/a";
             SitemapFetcher.EntryObject None])
  else None.
End Fixture.

(** Decides a fact about character classes by enumeration of the 256
    characters. *)
Ltac by_ascii c :=
  destruct c as [[] [] [] [] [] [] [] []]; vm_compute; congruence.

(** * Properties *)

(** ** Link verification *)

Section Verifier.
Import LinkExtractor LinkChecker.
Variable get : string -> GetOutcome.

Lemma checkSingleLink_link (l : Link) (s : Stats) :
  link (fst (checkSingleLink get l s)) = l.
Proof.
  unfold checkSingleLink.
  destruct (get (url l)) as [r|e].
  - destruct (status r =? 404)%Z; [reflexivity|].
    destruct (400 <=? status r)%Z; reflexivity.
  - destruct (is_timeout_code (code e)); [reflexivity|].
    destruct (response e) as [sc|]; [|reflexivity].
    destruct (sc =? 404)%Z; [reflexivity|].
    destruct (400 <=? sc)%Z; reflexivity.
Qed.

(** The counters do not influence the verdict on a link. *)
Lemma checkSingleLink_stateless (l : Link) (s s' : Stats) :
  fst (checkSingleLink get l s) = fst (checkSingleLink get l s').
Proof.
  unfold checkSingleLink.
  destruct (get (url l)) as [r|e].
  - destruct (status r =? 404)%Z; [reflexivity|].
    destruct (400 <=? status r)%Z; reflexivity.
  - destruct (is_timeout_code (code e)); [reflexivity|].
    destruct (response e) as [sc|]; [|reflexivity].
    destruct (sc =? 404)%Z; [reflexivity|].
    destruct (400 <=? sc)%Z; reflexivity.
Qed.

(** C1. A response is classified by its status alone: 404 is [broken],
    any other status from 400 on is [warning], a status below 400 is
    [ok], and the status is recorded.  A rejection with code
    ECONNABORTED or ETIMEDOUT is [timeout] with status code 0; any other
    rejection that carries no response is [error] with status code 0. *)
Theorem checkSingleLink_classification (l : Link) (s : Stats) :
  (forall r, get (url l) = Resolved r ->
     let c := fst (checkSingleLink get l s) in
     statusCode c = status r /\
     (status r = 404 -> category c = broken)%Z /\
     (400 <= status r -> status r <> 404 -> category c = warning)%Z /\
     (status r < 400 -> category c = ok)%Z) /\
  (forall e, get (url l) = Rejected e ->
     let c := fst (checkSingleLink get l s) in
     (code e = Some "ECONNABORTED" \/ code e = Some "ETIMEDOUT" ->
      category c = timeout /\ statusCode c = 0%Z) /\
     (is_timeout_code (code e) = false -> response e = None ->
      category c = error /\ statusCode c = 0%Z)).
Proof.
  split.
  - intros r Hget. unfold checkSingleLink. rewrite Hget.
    destruct (Z.eqb_spec (status r) 404) as [E|N].
    + cbn. repeat split; try reflexivity; intros; lia.
    + destruct (Z.leb_spec 400 (status r)) as [G|L].
      * cbn. repeat split; try reflexivity; intros; lia.
      * cbn. repeat split; try reflexivity; intros; lia.
  - intros e Hget. unfold checkSingleLink. rewrite Hget. split.
    + intros Hc.
      assert (is_timeout_code (code e) = true) as ->.
      { destruct Hc as [-> | ->]; reflexivity. }
      cbn. split; reflexivity.
    + intros -> ->. cbn. split; reflexivity.
Qed.
End Verifier.

Lemma checkSingleLink_classification_witness :
  let l := {| LinkExtractor.url := "https://example.com/missing";
              LinkExtractor.originalHref := "/missing";
              LinkExtractor.linkText := "x"; LinkExtractor.element := "a";
              LinkExtractor.isInternal := true;
              LinkExtractor.position := LinkExtractor.mkPosition 1 "";
              LinkExtractor.foundOn := Fixture.front;
              LinkExtractor.type := None;
              LinkExtractor.duplicateCount := None |} in
  let c := fst (LinkChecker.checkSingleLink Fixture.get l LinkChecker.resetStats) in
  LinkChecker.statusCode c = 404%Z /\ LinkChecker.category c = LinkChecker.broken.
Proof.
  intros l c.
  destruct (checkSingleLink_classification Fixture.get l LinkChecker.resetStats)
    as [Hres _].
  destruct (Hres _ eq_refl) as (Hcode & H404 & _).
  split.
  - exact Hcode.
  - apply H404. reflexivity.
Defined.

(** ** Bounded concurrency *)

Section ConcurrentProofs.
Context {A R E St : Type}.
Variable processor : A -> St -> (R + E) * St.
Variable completion : list A -> list nat.
(** What a call yields does not depend on the shared state. *)
Variable f : A -> R + E.
Hypothesis processor_result : forall x s, fst (processor x s) = f x.
(** Every promise of a batch completes, once. *)
Hypothesis completion_perm :
  forall batch, completion batch ≡ₚ seq 0 (length batch).

Lemma settle_slots (batch : list A) (order : list nat) :
  forall (slots : list (option (R + E))) (s : St),
    length slots = length batch ->
    let r := fold_left (Utils.settle processor batch) order (slots, s) in
    length (fst r) = length batch /\
    forall i x, batch !! i = Some x ->
      fst r !! i = if decide (i ∈ order) then Some (Some (f x)) else slots !! i.
Proof.
  induction order as [|j order IH]; intros slots s Hlen; cbn.
  - split; [exact Hlen|]. intros i x _.
    destruct (decide (i ∈ [])) as [Hin|_]; [|reflexivity].
    by apply elem_of_nil in Hin.
  - destruct (batch !! j) as [y|] eqn:Hj.
    + assert (exists s', Utils.settle processor batch (slots, s) j
                         = (<[j:=Some (f y)]> slots, s')) as [s' Hstep].
      { unfold Utils.settle. rewrite Hj. cbn.
        pose proof (processor_result y s) as Hr.
        destruct (processor y s) as [r s']. cbn in Hr. subst r. by exists s'. }
      rewrite Hstep.
      destruct (IH (<[j:=Some (f y)]> slots) s') as [Hl Hs].
      { by rewrite length_insert. }
      split; [exact Hl|]. intros i x Hi.
      rewrite (Hs i x Hi).
      destruct (decide (i ∈ order)) as [Hin|Hnin].
      * rewrite decide_True; [reflexivity|]. apply elem_of_cons; by right.
      * destruct (decide (i = j)) as [->|Hne].
        -- rewrite decide_True; [|apply elem_of_cons; by left].
           rewrite list_lookup_insert_eq.
           ++ congruence.
           ++ rewrite Hlen. by eapply lookup_lt_Some.
        -- rewrite decide_False.
           ++ by apply list_lookup_insert_ne.
           ++ intros Hin. apply elem_of_cons in Hin as [?|?]; done.
    + assert (Utils.settle processor batch (slots, s) j = (slots, s)) as Hstep.
      { unfold Utils.settle. by rewrite Hj. }
      rewrite Hstep.
      destruct (IH slots s Hlen) as [Hl Hs].
      split; [exact Hl|]. intros i x Hi.
      rewrite (Hs i x Hi).
      destruct (decide (i ∈ order)) as [Hin|Hnin].
      * rewrite decide_True; [reflexivity|]. apply elem_of_cons; by right.
      * rewrite decide_False; [reflexivity|].
        intros Hin. apply elem_of_cons in Hin as [->|?]; [congruence|done].
Qed.

(** The slots hold the outcomes in the order of the items, whatever the
    order of completion. *)
Lemma allSettled_slots (batch : list A) (s : St) :
  fst (Utils.allSettled processor completion batch s)
  = (fun x => Some (f x)) <$> batch.
Proof.
  unfold Utils.allSettled.
  destruct (settle_slots batch (completion batch)
              (replicate (length batch) None) s) as [Hl Hs].
  { apply length_replicate. }
  apply list_eq. intros i. rewrite list_lookup_fmap.
  destruct (batch !! i) as [x|] eqn:Hi; cbn.
  - rewrite (Hs i x Hi). rewrite decide_True; [reflexivity|].
    rewrite completion_perm. apply elem_of_seq.
    apply lookup_lt_Some in Hi. lia.
  - apply lookup_ge_None. rewrite Hl. by apply lookup_ge_None.
Qed.

Lemma tag_settled (batch : list A) :
  Utils.tag batch ((fun x => Some (f x)) <$> batch) = Some (map (Utils.settled f) batch).
Proof.
  induction batch as [|x batch IH]; [reflexivity|].
  cbn. rewrite IH. reflexivity.
Qed.

Lemma slice_step (items : list A) (c : Z) (i : nat) :
  (1 <= c)%Z -> i < length items ->
  Utils.slice items (Z.of_nat i) (Z.of_nat i + c)
  ++ skipn (i + Z.to_nat c) items = skipn i items.
Proof.
  intros Hc Hi. unfold Utils.slice, Utils.clamp_index.
  destruct (Z.ltb_spec (Z.of_nat i) 0) as [?|_]; [lia|].
  destruct (Z.ltb_spec (Z.of_nat i + c) 0) as [?|_]; [lia|].
  rewrite (Z.min_l (Z.of_nat i)) by lia.
  rewrite Nat2Z.id.
  destruct (Z.le_ge_cases (Z.of_nat i + c) (Z.of_nat (length items))) as [Hle|Hge].
  - rewrite Z.min_l by lia.
    replace (Z.to_nat (Z.of_nat i + c - Z.of_nat i)) with (Z.to_nat c) by lia.
    rewrite Nat.add_comm, <- skipn_skipn. apply firstn_skipn.
  - rewrite Z.min_r by lia.
    rewrite (skipn_all2 (n := i + Z.to_nat c)) by lia.
    rewrite app_nil_r. apply firstn_all2.
    rewrite length_skipn. lia.
Qed.

Lemma batches_run (items : list A) (c : Z) :
  (1 <= c)%Z ->
  forall fuel i results s,
    0 < fuel -> length items < fuel + i ->
    exists s',
      Utils.batches processor completion fuel items c (Z.of_nat i) results s
      = Some (results ++ map (Utils.settled f) (skipn i items), s').
Proof.
  intros Hc. induction fuel as [|fuel IH]; intros i results s Hpos Hfuel; [lia|].
  cbn [Utils.batches].
    destruct (Z.ltb_spec (Z.of_nat i) (Z.of_nat (length items))) as [Hlt|Hge].
  - pose proof (allSettled_slots
                    (Utils.slice items (Z.of_nat i) (Z.of_nat i + c)) s) as Hslots.
      destruct (Utils.allSettled processor completion
                  (Utils.slice items (Z.of_nat i) (Z.of_nat i + c)) s)
        as [slots s1].
      cbn in Hslots. subst slots. rewrite tag_settled.
      assert (Z.of_nat (i + Z.to_nat c) = Z.of_nat i + c)%Z as Hnext by lia.
      destruct (IH (i + Z.to_nat c)
                   (results ++ map (Utils.settled f)
                      (Utils.slice items (Z.of_nat i) (Z.of_nat i + c))) s1)
        as [s' Hs']; [lia|lia|].
      rewrite Hnext in Hs'.
      exists s'. rewrite Hs'. f_equal. f_equal.
      rewrite <- app_assoc, <- map_app. do 2 f_equal.
      apply slice_step; lia.
  - exists s. rewrite skipn_all2 by lia. by rewrite app_nil_r.
Qed.

(** Whenever the loop ends, it has added one entry per remaining item,
    in the order of the items. *)
Lemma batches_result (items : list A) (c : Z) :
  (1 <= c)%Z ->
  forall fuel i results s r s',
    Utils.batches processor completion fuel items c (Z.of_nat i) results s
    = Some (r, s') ->
    r = results ++ map (Utils.settled f) (skipn i items).
Proof.
  intros Hc. induction fuel as [|fuel IH]; intros i results s r s' H;
    [discriminate|].
  cbn [Utils.batches] in H.
  destruct (Z.ltb_spec (Z.of_nat i) (Z.of_nat (length items))) as [Hlt|Hge].
  - pose proof (allSettled_slots
                  (Utils.slice items (Z.of_nat i) (Z.of_nat i + c)) s) as Hslots.
    destruct (Utils.allSettled processor completion
                (Utils.slice items (Z.of_nat i) (Z.of_nat i + c)) s)
      as [slots s1].
    cbn in Hslots. subst slots. rewrite tag_settled in H.
    assert (Z.of_nat i + c = Z.of_nat (i + Z.to_nat c))%Z as Hnext by lia.
    rewrite Hnext in H. apply IH in H. rewrite <- Hnext in H.
    rewrite H, <- app_assoc, <- map_app. do 2 f_equal.
    apply slice_step; lia.
  - injection H as <- <-. rewrite skipn_all2 by lia. by rewrite app_nil_r.
Qed.

Lemma batches_stuck (items : list A) (c : Z) :
  (c <= 0)%Z -> items <> [] ->
  forall fuel i results s,
    (i <= 0)%Z ->
    Utils.batches processor completion fuel items c i results s = None.
Proof.
  intros Hc Hne. induction fuel as [|fuel IH]; intros i results s Hi;
    [reflexivity|].
  cbn [Utils.batches].
  destruct (Z.ltb_spec i (Z.of_nat (length items))) as [_|Hge].
  - destruct (Utils.allSettled processor completion
                (Utils.slice items i (i + c)) s) as [slots s1].
    destruct (Utils.tag _ slots); [|reflexivity].
    apply IH. lia.
  - destruct items; [done|]. cbn in Hge. lia.
Qed.

(** Whatever the batch size, a list that [processConcurrent] returns has
    one entry per item, in the order of the items. *)
Lemma processConcurrent_result (items : list A) (c : Z) (fuel : nat) (s : St)
    (r : list (Utils.Settled A R E)) (s' : St) :
  Utils.processConcurrent processor completion fuel items c s = Some (r, s') ->
  r = map (Utils.settled f) items.
Proof.
  unfold Utils.processConcurrent. intros H.
  destruct (Z.le_gt_cases 1 c) as [Hc|Hc].
  - exact (batches_result items c Hc fuel 0 [] s r s' H).
  - destruct items as [|x items].
    + destruct fuel; [discriminate|]. cbn in H. by injection H as <- <-.
    + rewrite batches_stuck in H; [discriminate|lia|done|lia].
Qed.

(** With a batch size of at least one, [processConcurrent] ends and
    returns one entry per item, in the order of the items. *)
Lemma processConcurrent_order (items : list A) (c : Z) (fuel : nat) (s : St) :
  (1 <= c)%Z -> length items < fuel ->
  exists s',
    Utils.processConcurrent processor completion fuel items c s
    = Some (map (Utils.settled f) items, s').
Proof.
  intros Hc Hfuel. unfold Utils.processConcurrent.
  destruct (batches_run items c Hc fuel 0 [] s) as [s' Hs']; [lia|lia|].
  exists s'. exact Hs'.
Qed.
End ConcurrentProofs.

(** ** Checking the links of a page *)

Section Checker.
Import LinkExtractor LinkChecker.
Variable get : string -> GetOutcome.
Context {P : Platform.t}.
Variable newURL2 : string -> string -> option (Platform.obj P).
Variable load : string -> list Element.
Variable completion : list Link -> list nat.

Lemma processor_verdict (l : Link) (s : Stats) :
  fst (processor get l s) = inl (verdict get l).
Proof.
  unfold processor, verdict.
  rewrite (checkSingleLink_stateless get l resetStats s).
  destruct (checkSingleLink get l s). reflexivity.
Qed.

Lemma checkLinksInBatch_run (fuel : nat) (maxConcurrent : Z)
    (links : list Link) (s : Stats) :
  (1 <= maxConcurrent)%Z ->
  length links < fuel ->
  (forall batch, completion batch ≡ₚ seq 0 (length batch)) ->
  exists s',
    checkLinksInBatch get completion fuel maxConcurrent links s
    = Some (map (verdict get) links, s').
Proof.
  intros Hc Hfuel Hperm. unfold checkLinksInBatch.
  destruct links as [|l links]; [by exists s|].
  destruct (processConcurrent_order (processor get) completion
              (fun l => inl (verdict get l)) processor_verdict Hperm
              (l :: links) maxConcurrent fuel s Hc Hfuel) as [s' Hs'].
  rewrite Hs'. exists s'. f_equal. f_equal.
  rewrite map_map. reflexivity.
Qed.

Lemma checkLinksInBatch_result (fuel : nat) (maxConcurrent : Z)
    (links : list Link) (s : Stats) (r : list CheckedLink) (s' : Stats) :
  (forall batch, completion batch ≡ₚ seq 0 (length batch)) ->
  checkLinksInBatch get completion fuel maxConcurrent links s = Some (r, s') ->
  r = map (verdict get) links.
Proof.
  intros Hperm. unfold checkLinksInBatch.
  destruct links as [|l links]; [by intros [= <- <-]|].
  destruct (Utils.processConcurrent (processor get) completion fuel
              (l :: links) maxConcurrent s) as [[results s1]|] eqn:Hrun;
    [|discriminate].
  apply (processConcurrent_result (processor get) completion
           (fun l => inl (verdict get l)) processor_verdict Hperm) in Hrun.
  intros [= <- <-]. subst results. by rewrite map_map.
Qed.

(** C8. Every check of a batch completing once, in whatever order, the
    list [checkLinksInBatch] returns holds the verdicts in the order of
    its input, for every input and every batch size: the i-th output is
    the verdict on the i-th link.  With a batch size of at least one the
    list is returned. *)
Theorem checkLinksInBatch_preserves_order (fuel : nat) (maxConcurrent : Z)
    (links : list Link) (s : Stats) :
  (forall batch, completion batch ≡ₚ seq 0 (length batch)) ->
  (forall r s',
     checkLinksInBatch get completion fuel maxConcurrent links s = Some (r, s') ->
     length r = length links
     /\ forall i l, links !! i = Some l ->
          r !! i = Some (verdict get l) /\ link (verdict get l) = l)
  /\ ((1 <= maxConcurrent)%Z -> length links < fuel ->
      exists s',
        checkLinksInBatch get completion fuel maxConcurrent links s
        = Some (map (verdict get) links, s')).
Proof.
  intros Hperm. split.
  - intros r s' Hrun.
    apply (checkLinksInBatch_result _ _ _ _ _ _ Hperm) in Hrun. subst r.
    split; [apply length_map|].
    intros i l Hi. split; [|apply checkSingleLink_link].
    change (map (verdict get) links) with (verdict get <$> links).
    by rewrite list_lookup_fmap, Hi.
  - intros Hc Hfuel.
    exact (checkLinksInBatch_run fuel maxConcurrent links s Hc Hfuel Hperm).
Qed.

Lemma compile_errors404 (checked : list CheckedLink) :
  forall sm,
    s_errors404 (fold_left compile checked sm)
    = s_errors404 sm ++ map entry404 (List.filter is404 checked).
Proof.
  induction checked as [|l checked IH]; intros sm.
  - cbn. by rewrite app_nil_r.
  - cbn [fold_left List.filter]. rewrite IH.
    unfold compile. cbn [s_errors404]. fold (is404 l).
    destruct (is404 l); cbn [map]; [|reflexivity].
    by rewrite <- app_assoc.
Qed.

Lemma scanPages_errors404 (x : LinkExtractor.t) (fuel : nat) (mc : Z)
    (urls : list string) :
  forall acc sm s pages' sm' s',
    scanPages get newURL2 load completion x fuel mc urls acc sm s
    = Some (pages', sm', s') ->
    exists new,
      pages' = acc ++ new /\
      s_errors404 sm'
      = s_errors404 sm
        ++ map entry404 (List.filter is404 (concat (map checkedLinks new))).
Proof.
  induction urls as [|u urls IH]; intros acc sm s pages' sm' s' H; cbn in H.
  - inversion H; subst. exists []. cbn. by rewrite !app_nil_r.
  - destruct (scanSinglePage get newURL2 load completion x fuel mc u s)
      as [[p s1]|]; [|discriminate].
    destruct (IH _ _ _ _ _ _ H) as (new & -> & Herr).
    exists (p :: new). split.
    + by rewrite <- app_assoc.
    + rewrite Herr, compile_errors404. cbn.
      rewrite List.filter_app, map_app. by rewrite <- app_assoc.
Qed.

(** The links that are not handed to verification. *)
Lemma toCheck_false (l : Link) :
  toCheck l = false <->
  JS.startsWith "http" (url l) = false
  \/ JS.includes "#" (url l) = true
  \/ JS.startsWith "mailto:" (originalHref l) = true
  \/ JS.startsWith "tel:" (originalHref l) = true.
Proof.
  unfold toCheck.
  destruct (JS.startsWith "http" (url l)), (JS.includes "#" (url l)),
    (JS.startsWith "mailto:" (originalHref l)),
    (JS.startsWith "tel:" (originalHref l)); cbn; intuition congruence.
Qed.
End Checker.

Section PageFilter.
Import LinkExtractor LinkChecker.
Variable get : string -> GetOutcome.
Context {P : Platform.t}.
Variable newURL2 : string -> string -> option (Platform.obj P).
Variable load : string -> list Element.
Variable completion : list Link -> list nat.

(** C6, as the code has it.  On a page that answers 200 the links handed
    to verification are, in order, the extracted links that pass the
    filter, and each of them is verified; an extracted link is left out
    exactly when its resolved target does not begin with "http", or
    contains a "#", or its original reference begins with "mailto:" or
    "tel:". *)
Theorem linksToCheck_rule (x : LinkExtractor.t) (fuel : nat) (mc : Z)
    (pageUrl : string) (s : Stats) (r : Response) :
  (1 <= mc)%Z ->
  (forall batch, completion batch ≡ₚ seq 0 (length batch)) ->
  get pageUrl = Resolved r ->
  status r = 200%Z ->
  length (extractLinks newURL2 load x (data r) pageUrl) < fuel ->
  exists p s',
    scanSinglePage get newURL2 load completion x fuel mc pageUrl s = Some (p, s')
    /\ accessible p = true
    /\ links p = extractLinks newURL2 load x (data r) pageUrl
    /\ checkedLinks p = map (verdict get) (List.filter toCheck (links p))
    /\ map link (checkedLinks p) = List.filter toCheck (links p)
    /\ forall l, In l (links p) ->
         (~ In l (map link (checkedLinks p)) <->
          JS.startsWith "http" (url l) = false
          \/ JS.includes "#" (url l) = true
          \/ JS.startsWith "mailto:" (originalHref l) = true
          \/ JS.startsWith "tel:" (originalHref l) = true).
Proof.
  intros Hc Hperm Hget H200 Hfuel.
  unfold scanSinglePage. rewrite Hget, H200. cbn [Z.eqb negb Pos.eqb].
  set (ls := extractLinks newURL2 load x (data r) pageUrl) in *.
  destruct (checkLinksInBatch_run get completion fuel mc
              (List.filter toCheck ls) s Hc) as [s' Hs']; [|exact Hperm|].
  { pose proof (List.filter_length_le toCheck ls). lia. }
  change (Z.eqb 200 200) with true. cbn [negb].
  rewrite Hs'. eexists _, _. split; [reflexivity|]. cbn.
  assert (map link (map (verdict get) (List.filter toCheck ls))
          = List.filter toCheck ls) as Hlinks.
  { rewrite map_map. rewrite <- (map_id (List.filter toCheck ls)) at 2.
    apply map_ext. intros l. apply checkSingleLink_link. }
  repeat split; try reflexivity; try exact Hlinks.
  - intros Hnot. apply toCheck_false.
    destruct (toCheck l) eqn:Ht; [|reflexivity].
    exfalso. apply Hnot. rewrite Hlinks. apply List.filter_In. by split.
  - intros Hex Hin. rewrite Hlinks in Hin.
    apply List.filter_In in Hin as [_ Ht].
    apply toCheck_false in Hex. congruence.
Qed.
End PageFilter.

Lemma Fixture_completion_perm (batch : list LinkExtractor.Link) :
  Fixture.completion batch ≡ₚ seq 0 (length batch).
Proof. unfold Fixture.completion. symmetry. apply Permutation_rev. Qed.

Lemma linksToCheck_rule_witness :
  exists p s',
    LinkChecker.scanSinglePage Fixture.get Fixture.newURL2 Fixture.load
      Fixture.completion LinkExtractor.new 5 10 Fixture.front
      LinkChecker.resetStats = Some (p, s')
    /\ map LinkChecker.link (LinkChecker.checkedLinks p)
       = List.filter LinkChecker.toCheck (LinkChecker.links p).
Proof.
  destruct (linksToCheck_rule Fixture.get Fixture.newURL2 Fixture.load
              Fixture.completion LinkExtractor.new 5 10 Fixture.front
              LinkChecker.resetStats
              {| LinkChecker.status := 200; LinkChecker.data := Fixture.frontHtml;
                 LinkChecker.contentType := Some "text/html";
                 LinkChecker.lastModified := None;
                 LinkChecker.responseUrl := None; LinkChecker.elapsed := 12 |})
    as (p & s' & Hrun & _ & _ & _ & Hlinks & _).
  - lia.
  - exact Fixture_completion_perm.
  - reflexivity.
  - reflexivity.
  - vm_compute. lia.
  - exists p, s'. split; [exact Hrun | exact Hlinks].
Defined.

(** C6 as worded fails in both directions: the section link is left out
    although none of the three worded conditions holds of it, and the
    httpx link is verified although it has no http or https scheme. *)
Lemma exclusion_as_worded_fails :
  (List.filter LinkChecker.toCheck [Fixture.sectionLink] = []
   /\ AsWorded.excluded Fixture.sectionLink (List.filter LinkChecker.toCheck [Fixture.sectionLink])
      = false)
  /\ (List.filter LinkChecker.toCheck [Fixture.httpxLink] = [Fixture.httpxLink]
      /\ AsWorded.excluded Fixture.httpxLink (List.filter LinkChecker.toCheck [Fixture.httpxLink])
         = true).
Proof. vm_compute. repeat split. Qed.

(** ** Link extraction *)

Section Extractor.
Import LinkExtractor.
Context {P : Platform.t}.
Variable newURL2 : string -> string -> option (Platform.obj P).
Variable load : string -> list Element.

Lemma bumpKey_elements (Q : Link -> Prop) (key : string) (entries : list Link) :
  (forall l, Q l -> Q (bump l)) ->
  Forall Q entries -> Forall Q (bumpKey key entries).
Proof.
  intros HQ. induction 1 as [|l entries Hl Hrest IH]; cbn; [constructor|].
  destruct (String.eqb (url l) key); constructor; auto.
Qed.

Lemma deduplicate_fold_Forall (Q : Link -> Prop) :
  (forall l, Q l -> Q (bump l)) ->
  forall ls acc,
    Forall Q ls -> Forall Q acc ->
    Forall Q
      (fold_left
         (fun uniqueMap link =>
            if existsb (fun l => String.eqb (url l) (url link)) uniqueMap
            then bumpKey (url link) uniqueMap
            else uniqueMap ++ [link])
         ls acc).
Proof.
  intros HQ. induction ls as [|l ls IH]; intros acc Hls Hacc; cbn; [exact Hacc|].
  inversion Hls as [|? ? Hl Hrest]; subst.
  apply IH; [exact Hrest|].
  destruct (existsb _ acc).
  - by apply bumpKey_elements.
  - apply Forall_app. split; [exact Hacc|]. by constructor.
Qed.

Lemma deduplicateLinks_Forall (Q : Link -> Prop) (ls : list Link) :
  (forall l, Q l -> Q (bump l)) ->
  Forall Q ls -> Forall Q (deduplicateLinks ls).
Proof.
  intros HQ Hls. unfold deduplicateLinks.
  apply deduplicate_fold_Forall; [exact HQ | exact Hls | constructor].
Qed.

Lemma extractSingleLink_element (e : Element) (a base html : string) (l : Link) :
  extractSingleLink newURL2 e a base html = Some l ->
  element l = name e /\ type l = None.
Proof.
  unfold extractSingleLink. intros H.
  destruct (attr a (attrs e)) as [href|]; [|discriminate].
  destruct (URL.is_empty href); [discriminate|].
  destruct (Utils.resolveUrl newURL2 href base); [|discriminate].
  inversion H; subst. by split.
Qed.

(** C10. The extractor the constructor builds has [excludeImages] set,
    so [extractLinks] returns the de-duplicated links of the [a[href]]
    elements only: every link it returns comes from an [a] element and
    carries no resource type. *)
Theorem extractLinks_anchors_only (html baseUrl : string) :
  excludeImages LinkExtractor.new = true
  /\ extractLinks newURL2 load LinkExtractor.new html baseUrl
     = deduplicateLinks
         (omap (fun e => extractSingleLink newURL2 e "href" baseUrl html)
               (List.filter isAnchor (load html)))
  /\ Forall (fun l => element l = "a" /\ type l = None)
            (extractLinks newURL2 load LinkExtractor.new html baseUrl).
Proof.
  split; [reflexivity|]. split; [reflexivity|].
  unfold extractLinks. cbn [excludeImages LinkExtractor.new negb].
  apply deduplicateLinks_Forall.
  - intros l [? ?]. by split.
  - apply Forall_forall. intros l Hin.
    apply list_elem_of_omap in Hin as (e & He & Hl).
    rewrite list_elem_of_In in He. apply List.filter_In in He as [_ Ha].
    apply extractSingleLink_element in Hl as [-> ->].
    split; [|reflexivity].
    unfold isAnchor in Ha. apply andb_true_iff in Ha as [Hn _].
    by apply String.eqb_eq in Hn.
Qed.
End Extractor.

(** ** The handler: notification *)

Section Handler.
Import LinkChecker SlackNotifier CheckLinks.
Variable cleaner : SitemapCleaner.t.
Variable fetchSitemap : string -> list string + string.
Variable get : string -> GetOutcome.
Context {P : Platform.t}.
Variable newURL2 : string -> string -> option (Platform.obj P).
Variable load : string -> list LinkExtractor.Element.
Variable completion : list LinkExtractor.Link -> list nat.
Variable post : string -> bool.


Lemma notifyErrors404_posts (w : option string) (errs : list Error404) :
  invocations (snd (notifyErrors404 post w errs)) = 0.
Proof.
  unfold notifyErrors404.
  destruct (truthy w); [|reflexivity].
  destruct errs; reflexivity.
Qed.

(** C3, as the code has it.  The handler calls the notifier exactly once
    when the 404 list of the scan is not empty and its notification flag
    is on, and never otherwise. *)
Theorem notifier_invoked_once (fuel : nat) (request : Request) (env : Env)
    (o : Outcome) :
  handler cleaner fetchSitemap get newURL2 load completion post
    fuel request env = Some o ->
  invocations (events o)
  = if notifySlack request && negb (Nat.eqb (length (reported404 o)) 0)
    then 1 else 0.
Proof.
  unfold handler. intros H.
  destruct (String.eqb (method request) "OPTIONS").
  { inversion H; subst. cbn. by rewrite andb_false_r. }
  destruct (fetchSitemap (sitemapUrl request env)) as [rawUrls|msg].
  2: { inversion H; subst. cbn. by rewrite andb_false_r. }
  destruct rawUrls as [|u rawUrls].
  { inversion H; subst. cbn. by rewrite andb_false_r. }
  destruct (SitemapCleaner.process P cleaner (u :: rawUrls)) as [cleanUrls|].
  2: { inversion H; subst. cbn. by rewrite andb_false_r. }
  destruct (CleaningReport.generateReport P cleaner (u :: rawUrls) cleanUrls).
  2: { inversion H; subst. cbn. by rewrite andb_false_r. }
  destruct (scanWebsite _ _ _ _ _ _ _ _) as [scanResults|]; [|discriminate].
  unfold reported404.
  destruct (notifySlack request
            && negb (Nat.eqb (length (s_errors404 (summary scanResults))) 0))
    eqn:Hflag.
  - pose proof (notifyErrors404_posts (SLACK_WEBHOOK_URL env)
                  (s_errors404 (summary scanResults))) as Hposts.
    destruct (notifyErrors404 post (SLACK_WEBHOOK_URL env)
                (s_errors404 (summary scanResults))) as [b posted].
    inversion H; subst. cbn in *. rewrite Hflag.
    unfold invocations in *. cbn. by rewrite Hposts.
  - inversion H; subst. cbn. by rewrite Hflag.
Qed.


End Handler.

Lemma notifier_invoked_once_witness :
  exists o, Fixture.run Fixture.fetchSitemap None = Some o
            /\ CheckLinks.invocations (CheckLinks.events o) = 1.
Proof.
  destruct (Fixture.run Fixture.fetchSitemap None) as [o|] eqn:Hrun;
    [|vm_compute in Hrun; discriminate].
  exists o. split; [reflexivity|].
  rewrite (notifier_invoked_once _ _ _ _ _ _ _ _ _ _ _ Hrun).
  vm_compute in Hrun. injection Hrun as <-. reflexivity.
Defined.

(** C3 as worded fails: with [notify=true] in the query the flag is off,
    and a scan that found a 404 calls the notifier zero times. *)
Lemma notifier_silent_with_404 :
  exists o, Fixture.run Fixture.fetchSitemap (Some "true") = Some o
            /\ CheckLinks.reported404 o <> []
            /\ CheckLinks.success (CheckLinks.reply o) = Some true
            /\ CheckLinks.invocations (CheckLinks.events o) = 0.
Proof.
  eexists. split; [vm_compute; reflexivity|].
  repeat split; try reflexivity. discriminate.
Qed.

(** ** Strings *)

Section Strings.
Import JS.

Lemma append_cons (c : ascii) (a b : string) :
  String c a +:+ b = String c (a +:+ b).
Proof. reflexivity. Qed.

Lemma append_nil_l (b : string) : "" +:+ b = b.
Proof. reflexivity. Qed.

Lemma append_nil_r (s : string) : s +:+ "" = s.
Proof.
  induction s as [|c s IH]; [reflexivity|].
  by rewrite append_cons, IH.
Qed.

Lemma append_assoc (a b c : string) : (a +:+ b) +:+ c = a +:+ b +:+ c.
Proof.
  induction a as [|x a IH]; [reflexivity|].
  by rewrite !append_cons, IH.
Qed.

Lemma all_chars_app (p : ascii -> bool) (a b : string) :
  all_chars p (a +:+ b) = all_chars p a && all_chars p b.
Proof.
  induction a as [|x a IH]; [reflexivity|].
  rewrite append_cons. cbn. by rewrite IH, andb_assoc.
Qed.

Lemma all_chars_impl (p q : ascii -> bool) (s : string) :
  (forall c, p c = true -> q c = true) ->
  all_chars p s = true -> all_chars q s = true.
Proof.
  intros Hpq. induction s as [|c s IH]; cbn; [done|].
  intros [Hc Hs]%andb_true_iff. by rewrite (Hpq c Hc), IH.
Qed.

Lemma break_app (p : ascii -> bool) (a b : string) (c : ascii) :
  all_chars (non p) a = true -> p c = true ->
  break p (a +:+ String c b) = (a, String c b).
Proof.
  intros Ha Hc. induction a as [|x a IH]; rewrite ?append_cons, ?append_nil_l; cbn.
  - by rewrite Hc.
  - cbn in Ha. apply andb_true_iff in Ha as [Hx Ha].
    unfold non in Hx. apply negb_true_iff in Hx. rewrite Hx.
    by rewrite (IH Ha).
Qed.

Lemma break_all (p : ascii -> bool) (a : string) :
  all_chars (non p) a = true -> break p a = (a, "").
Proof.
  induction a as [|x a IH]; cbn; [done|].
  intros [Hx Ha]%andb_true_iff.
  unfold non in Hx. apply negb_true_iff in Hx. rewrite Hx.
  by rewrite (IH Ha).
Qed.

Lemma break_parts (p : ascii -> bool) (s a b : string) :
  break p s = (a, b) ->
  s = a +:+ b /\ all_chars (non p) a = true
  /\ (b = "" \/ URL.head_is p b = true).
Proof.
  revert a b. induction s as [|x s IH]; intros a b; cbn.
  - intros [= <- <-]. repeat split. by left.
  - destruct (p x) eqn:Hx.
    + intros [= <- <-]. repeat split. right. exact Hx.
    + destruct (break p s) as [a' b'] eqn:Hs.
      intros [= <- <-].
      destruct (IH a' b' eq_refl) as (-> & Ha & Hb).
      repeat split; [|exact Hb].
      cbn. unfold non at 1. by rewrite Hx, Ha.
Qed.

Lemma startsWith_append (p r : string) : startsWith p (p +:+ r) = true.
Proof.
  induction p as [|a p IH]; [reflexivity|].
  rewrite append_cons. cbn. by rewrite Ascii.eqb_refl.
Qed.

Lemma substring_from_app (a b : string) :
  substring_from (String.length a) (a +:+ b) = b.
Proof.
  induction a as [|x a IH]; [by destruct b|].
  rewrite append_cons. exact IH.
Qed.

Lemma length_app (a b : string) :
  String.length (a +:+ b) = String.length a + String.length b.
Proof.
  induction a as [|x a IH]; [reflexivity|].
  rewrite append_cons. cbn. by rewrite IH.
Qed.

Lemma split_not_nil (sep : ascii) (s : string) : split sep s <> [].
Proof.
  induction s as [|x s IH]; cbn; [done|].
  destruct (Ascii.eqb x sep); [done|].
  destruct (split sep s); done.
Qed.

Lemma split_sep (sep : ascii) (a b : string) :
  split sep (a +:+ String sep b) = split sep a ++ split sep b.
Proof.
  induction a as [|x a IH]; rewrite ?append_cons, ?append_nil_l; cbn.
  - by rewrite Ascii.eqb_refl.
  - destruct (Ascii.eqb x sep); [by rewrite IH|].
    rewrite IH. pose proof (split_not_nil sep a).
    destruct (split sep a); [done | reflexivity].
Qed.

Lemma take_drop (n : nat) (s : string) :
  s = Utils.substring_to n s +:+ substring_from n s.
Proof.
  revert s. induction n as [|n IH]; intros s; [reflexivity|].
  destruct s as [|c s]; [reflexivity|]. cbn.
  by rewrite append_cons, <- IH.
Qed.

Lemma trimStart_id (s : string) :
  all_chars (non is_space) s = true -> trimStart s = s.
Proof.
  destruct s as [|c s]; cbn; [done|].
  intros [Hc _]%andb_true_iff. unfold non in Hc.
  apply negb_true_iff in Hc. by rewrite Hc.
Qed.

Lemma trimEnd_id (s : string) :
  all_chars (non is_space) s = true -> trimEnd s = s.
Proof.
  induction s as [|c s IH]; cbn; [done|].
  intros [Hc Hs]%andb_true_iff. rewrite (IH Hs).
  unfold non in Hc. apply negb_true_iff in Hc.
  destruct s; [by rewrite Hc | reflexivity].
Qed.

Lemma trim_id (s : string) :
  all_chars (non is_space) s = true -> trim s = s.
Proof.
  intros H. unfold trim. rewrite (trimStart_id s H). by apply trimEnd_id.
Qed.
End Strings.

Lemma scheme_char_plain (c : ascii) :
  URL.scheme_char c = true ->
  JS.non URL.is_colon c = true /\ JS.non JS.is_space c = true.
Proof. intros H. split; revert H; by_ascii c. Qed.

Lemma host_char_plain (c : ascii) :
  URL.host_char c = true ->
  JS.non URL.ends_host c = true /\ JS.non JS.is_space c = true.
Proof. intros H. split; revert H; by_ascii c. Qed.

Lemma path_char_plain (c : ascii) :
  URL.path_char c = true ->
  JS.non URL.ends_path c = true /\ JS.non JS.is_space c = true.
Proof. intros H. split; revert H; by_ascii c. Qed.

Lemma form_char_plain (c : ascii) :
  URL.form_char c = true ->
  JS.non URL.is_hash c = true /\ JS.non JS.is_space c = true
  /\ JS.non (Ascii.eqb "=") c = true /\ JS.non (Ascii.eqb "&") c = true.
Proof. intros H. repeat split; revert H; by_ascii c. Qed.

(** ** Queries: URLSearchParams round trip *)

Section Queries.
Import JS URL.

Lemma query_char_plain (c : ascii) :
  query_char c = true -> non is_hash c = true /\ non is_space c = true.
Proof. intros H. split; revert H; by_ascii c. Qed.

Lemma form_char_query (c : ascii) : form_char c = true -> query_char c = true.
Proof. unfold query_char. by intros ->. Qed.

Lemma split_none (sep : ascii) (s : string) :
  all_chars (fun c => negb (Ascii.eqb c sep)) s = true -> split sep s = [s].
Proof.
  induction s as [|c s IH]; cbn; [done|].
  intros [Hc Hs]%andb_true_iff. apply negb_true_iff in Hc.
  by rewrite Hc, (IH Hs).
Qed.

Lemma split_join (sep : ascii) (xs : list string) :
  xs <> [] ->
  Forall (fun x => all_chars (fun c => negb (Ascii.eqb c sep)) x = true) xs ->
  split sep (join (String sep "") xs) = xs.
Proof.
  intros Hne Hxs. induction Hxs as [|x xs Hx Hrest IH]; [done|].
  destruct xs as [|y xs].
  - cbn. by apply split_none.
  - change (join (String sep "") (x :: y :: xs))
      with (x +:+ String sep "" +:+ join (String sep "") (y :: xs)).
    change (String sep "" +:+ join (String sep "") (y :: xs))
      with (String sep (join (String sep "") (y :: xs))).
    rewrite split_sep, (split_none sep x Hx), IH; [reflexivity | done].
Qed.

Lemma serialize_pair_chars (nv : string * string) :
  pair_ok nv = true ->
  all_chars (fun c => negb (Ascii.eqb c "&")) (serialize_pair nv) = true
  /\ all_chars query_char (serialize_pair nv) = true
  /\ is_empty (serialize_pair nv) = false
  /\ parse_pair (serialize_pair nv) = nv.
Proof.
  destruct nv as [n v]. unfold pair_ok, serialize_pair. cbn [fst snd].
  intros [Hn Hv]%andb_true_iff.
  change ("=" +:+ v) with (String "=" v).
  repeat split.
  - rewrite all_chars_app. cbn.
    rewrite (all_chars_impl form_char _ n), (all_chars_impl form_char _ v);
      try done; intros c Hc; revert Hc; by_ascii c.
  - rewrite all_chars_app. cbn.
    by rewrite (all_chars_impl _ _ n form_char_query Hn),
               (all_chars_impl _ _ v form_char_query Hv).
  - by destruct n.
  - unfold parse_pair. rewrite break_app; [reflexivity| |reflexivity].
    apply (all_chars_impl form_char); [|exact Hn].
    intros c Hc. by apply form_char_plain in Hc as (_ & _ & ? & _).
Qed.

Lemma parse_serialize_query (ps : list (string * string)) :
  forallb pair_ok ps = true -> parse_query (serialize_query ps) = ps.
Proof.
  intros Hps. unfold parse_query, serialize_query.
  destruct ps as [|nv ps]; [reflexivity|].
  pose proof (proj1 (forallb_forall _ _) Hps) as Hall. clear Hps.
  rename Hall into Hps.
  rewrite split_join.
  - induction (nv :: ps) as [|x xs IH]; [reflexivity|].
    cbn [map List.filter].
    destruct (serialize_pair_chars x) as (_ & _ & -> & Hx).
    { apply Hps. by left. }
    cbn [negb map]. rewrite Hx, IH; [reflexivity|].
    intros y Hy. apply Hps. by right.
  - done.
  - apply Forall_forall. intros x Hx.
    rewrite list_elem_of_In in Hx. apply in_map_iff in Hx as (y & <- & Hy).
    by destruct (serialize_pair_chars y (Hps y Hy)) as (? & _).
Qed.

Lemma serialize_query_chars (ps : list (string * string)) :
  forallb pair_ok ps = true -> all_chars query_char (serialize_query ps) = true.
Proof.
  unfold serialize_query. induction ps as [|nv ps IH]; [reflexivity|].
  intros [Hnv Hps]%andb_true_iff.
  destruct (serialize_pair_chars nv Hnv) as (_ & Hc & _).
  destruct ps as [|nv' ps]; [exact Hc|].
  change (join "&" (map serialize_pair (nv :: nv' :: ps)))
    with (serialize_pair nv +:+ String "&" (join "&" (map serialize_pair (nv' :: ps)))).
  rewrite all_chars_app, Hc. cbn. exact (IH Hps).
Qed.

Lemma serialize_query_empty (ps : list (string * string)) :
  is_empty (serialize_query ps) = true -> ps = [].
Proof.
  destruct ps as [|[n v] ps]; [done|].
  unfold serialize_query. intros H. exfalso.
  destruct ps as [|nv' ps].
  - cbn in H. unfold serialize_pair in H. cbn in H. by destruct n.
  - change (join "&" (map serialize_pair ((n, v) :: nv' :: ps)))
      with (serialize_pair (n, v) +:+ String "&" (join "&" (map serialize_pair (nv' :: ps))))
      in H.
    unfold serialize_pair in H. cbn [fst snd] in H. by destruct n.
Qed.
End Queries.

Section RawQueries.
Import JS URL.

Lemma all_chars_split (P : ascii -> bool) (sep : ascii) (s : string) :
  P sep = true ->
  (forall seq, In seq (split sep s) -> all_chars P seq = true) ->
  all_chars P s = true.
Proof.
  intros Hsep. induction s as [|c s IH]; [done|]. cbn.
  destruct (Ascii.eqb_spec c sep) as [->|Hne].
  - intros H. rewrite Hsep. apply IH. intros seq Hin. apply H. by right.
  - pose proof (split_not_nil sep s) as Hnil.
    destruct (split sep s) as [|x xs]; [done|].
    intros H. pose proof (H (String c x) (or_introl eq_refl)) as Hcx.
    cbn in Hcx. apply andb_true_iff in Hcx as [-> Hx]. apply IH.
    intros seq [<-|Hin]; [exact Hx|]. apply H. by right.
Qed.

Lemma parse_pair_chars (seq : string) :
  pair_ok (parse_pair seq) = true -> all_chars query_char seq = true.
Proof.
  unfold parse_pair, pair_ok.
  destruct (break (Ascii.eqb "=") seq) as [n r] eqn:Hb. cbn [fst snd].
  apply break_parts in Hb as (-> & _ & Hr).
  intros [Hn Hv]%andb_true_iff.
  rewrite all_chars_app, (all_chars_impl _ _ n form_char_query Hn).
  destruct r as [|c v]; [reflexivity|].
  destruct Hr as [?|Hc]; [done|]. unfold head_is in Hc.
  apply Ascii.eqb_eq in Hc as <-. cbn [all_chars].
  change (query_char "=") with true. cbn [andb].
  exact (all_chars_impl _ _ v form_char_query Hv).
Qed.

Lemma query_ok_chars (q : string) :
  query_ok (Some q) = true -> all_chars query_char q = true.
Proof.
  unfold query_ok, parse_query. intros H.
  pose proof (proj1 (forallb_forall _ _) H) as Hall. clear H.
  apply (all_chars_split query_char "&"); [reflexivity|].
  intros seq Hin. destruct seq as [|c seq]; [reflexivity|].
  apply parse_pair_chars, Hall, in_map, List.filter_In. by split.
Qed.
End RawQueries.

(** ** The parser of the examples: the round trip *)

Section UrlRoundTrip.
Import JS URL.

(** Printing a canonical URL and parsing it again gives it back. *)
Lemma parse_toString (u : URL.t) :
  canonical u -> URL.parse (toString u) = Some u.
Proof.
  intros [[Hs1 Hs2 Hh Hp _ Hq Hqh] Hslash Hf].
  destruct u as [sch h p q f].
  cbn [scheme host pathname query fragment] in *. subst f.
  destruct p as [|c p]; [done|].
  cbn [startsWith] in Hslash. destruct (Ascii.eqb_spec "/" c) as [<-|]; [|done].
  clear Hslash.
  assert (all_chars (non is_colon) sch = true) as Hsc.
  { apply (all_chars_impl scheme_char); [|exact Hs2].
    by intros c [? _]%scheme_char_plain. }
  assert (all_chars (non ends_host) h = true) as Hhc.
  { unfold host_ok in Hh. apply andb_true_iff in Hh as [Hh' _].
    apply andb_true_iff in Hh' as [_ Hh'].
    apply (all_chars_impl host_char); [|exact Hh'].
    by intros c [? _]%host_char_plain. }
  assert (all_chars (non ends_path) (String "/" p) = true) as Hpc.
  { unfold path_ok in Hp. apply andb_true_iff in Hp as [Hp' _].
    apply (all_chars_impl path_char); [|exact Hp'].
    by intros c [? _]%path_char_plain. }
  unfold toString, URL.parse. cbn [scheme host pathname query fragment].
  set (qs := match q with Some q0 => "?" +:+ q0 | None => "" end).
  rewrite (append_nil_r qs).
  change (sch +:+ "://" +:+ h +:+ String "/" p +:+ qs)
    with (sch +:+ String ":" ("//" +:+ h +:+ String "/" p +:+ qs)).
  rewrite (break_app is_colon sch _ ":" Hsc eq_refl).
  cbv beta iota zeta.
  change (String ":" ("//" +:+ h +:+ String "/" p +:+ qs))
    with ("://" +:+ h +:+ String "/" p +:+ qs).
  rewrite startsWith_append.
  change 3 with (String.length "://"). rewrite substring_from_app.
  rewrite (append_cons "/" p qs).
  rewrite (break_app ends_host h _ "/" Hhc eq_refl).
  cbv beta iota zeta.
  rewrite <- (append_cons "/" p qs).
  subst qs. destruct q as [q|].
  - change ("?" +:+ q) with (String "?" q).
    rewrite (break_app ends_path _ q "?" Hpc eq_refl).
    cbv beta iota zeta.
    change (String "?" q) with ("?" +:+ q).
    rewrite startsWith_append.
    change 1 with (String.length "?"). rewrite substring_from_app.
    rewrite (break_all is_hash q (Hqh q eq_refl)).
    cbv beta iota zeta.
    rewrite Hs1, Hs2, Hh, Hp, Hq. reflexivity.
  - rewrite append_nil_r, (break_all ends_path _ Hpc).
    cbv beta iota zeta.
    change (startsWith "?" "") with false. cbv beta iota zeta.
    rewrite Hs1, Hs2, Hh, Hp. reflexivity.
Qed.
End UrlRoundTrip.

(** ** The parser of the examples obeys the laws of the URL class *)

Section ReferenceQueries.
Import JS URL.

Lemma parse_query_ok (q : option string) :
  query_ok q = true ->
  forallb pair_ok (parse_query (match q with Some q => q | None => "" end)) = true.
Proof. destruct q; [done | reflexivity]. Qed.

Lemma forallb_filter {A} (f g : A -> bool) (l : list A) :
  forallb f l = true -> forallb f (List.filter g l) = true.
Proof.
  induction l as [|x l IH]; cbn; [done|].
  intros [Hx Hl]%andb_true_iff.
  destruct (g x); cbn; [by rewrite Hx, IH | by apply IH].
Qed.

Lemma parse_query_of (ps : list (string * string)) :
  forallb pair_ok ps = true ->
  parse_query (match query_of ps with Some q => q | None => "" end) = ps.
Proof.
  intros Hps. unfold query_of.
  destruct (is_empty (serialize_query ps)) eqn:He.
  - by rewrite (serialize_query_empty ps He).
  - by apply parse_serialize_query.
Qed.

Lemma query_of_good (ps : list (string * string)) :
  forallb pair_ok ps = true ->
  query_ok (query_of ps) = true
  /\ forall q, query_of ps = Some q -> all_chars (non is_hash) q = true.
Proof.
  intros Hps. unfold query_of.
  destruct (is_empty (serialize_query ps)); [done|]. split.
  - cbn. by rewrite parse_serialize_query.
  - intros q [= <-].
    apply (all_chars_impl query_char); [|by apply serialize_query_chars].
    by intros c [? _]%query_char_plain.
Qed.

Lemma delete_query_of (name : string) (ps : list (string * string)) :
  forallb pair_ok ps = true ->
  delete_query name (query_of ps)
  = query_of (List.filter (fun nv => negb (String.eqb (fst nv) name)) ps).
Proof.
  intros Hps. unfold delete_query. by rewrite (parse_query_of ps Hps).
Qed.

Lemma filter_filter_same {A} (f : A -> bool) (l : list A) :
  List.filter f (List.filter f l) = List.filter f l.
Proof.
  induction l as [|x l IH]; cbn; [done|].
  destruct (f x) eqn:Hx; cbn; [|done]. by rewrite Hx, IH.
Qed.

Lemma filter_filter_comm {A} (f g : A -> bool) (l : list A) :
  List.filter f (List.filter g l) = List.filter g (List.filter f l).
Proof.
  induction l as [|x l IH]; cbn; [done|].
  destruct (f x) eqn:Hf, (g x) eqn:Hg; cbn; rewrite ?Hf, ?Hg, IH; done.
Qed.

(** Deleting a parameter leaves the pairs without that name. *)
Lemma delete_query_pairs (name : string) (q : option string) :
  delete_query name q
  = query_of (List.filter (fun nv => negb (String.eqb (fst nv) name))
                (parse_query (match q with Some q => q | None => "" end))).
Proof. reflexivity. Qed.

Lemma delete_query_ok (name : string) (q : option string) :
  query_ok q = true -> query_ok (delete_query name q) = true.
Proof.
  intros Hq. rewrite delete_query_pairs.
  apply query_of_good, forallb_filter, parse_query_ok, Hq.
Qed.

Lemma delete_query_twice (name : string) (q : option string) :
  query_ok q = true ->
  delete_query name (delete_query name q) = delete_query name q.
Proof.
  intros Hq. rewrite (delete_query_pairs name q).
  rewrite delete_query_of by (apply forallb_filter, parse_query_ok, Hq).
  by rewrite filter_filter_same.
Qed.

Lemma delete_query_comm (name name' : string) (q : option string) :
  query_ok q = true ->
  delete_query name (delete_query name' q)
  = delete_query name' (delete_query name q).
Proof.
  intros Hq. rewrite (delete_query_pairs name' q), (delete_query_pairs name q).
  rewrite !delete_query_of by (apply forallb_filter, parse_query_ok, Hq).
  by rewrite filter_filter_comm.
Qed.
End ReferenceQueries.

Section ReferenceLaws.
Import JS URL.

Lemma fragment_char_plain (c : ascii) :
  fragment_char c = true -> non is_space c = true.
Proof. by_ascii c. Qed.

(** The checks of [wf], one by one. *)
Lemma wf_checks (u : URL.t) :
  wf u = true ->
  head_is is_lower (scheme u) = true
  /\ all_chars scheme_char (scheme u) = true
  /\ host_ok (host u) = true
  /\ path_ok (pathname u) = true
  /\ startsWith "/" (pathname u) = true
  /\ query_ok (query u) = true
  /\ fragment_ok (fragment u) = true.
Proof.
  unfold wf. intros H.
  repeat (apply andb_true_iff in H as [H ?]). by repeat split.
Qed.

Lemma wf_of_checks (u : URL.t) :
  head_is is_lower (scheme u) = true ->
  all_chars scheme_char (scheme u) = true ->
  host_ok (host u) = true ->
  path_ok (pathname u) = true ->
  startsWith "/" (pathname u) = true ->
  query_ok (query u) = true ->
  fragment_ok (fragment u) = true ->
  wf u = true.
Proof. unfold wf. by intros -> -> -> -> -> -> ->. Qed.

Lemma wf_canonical (u : URL.t) :
  wf u = true -> fragment u = None -> canonical u.
Proof.
  intros (Hs1 & Hs2 & Hh & Hp & Hslash & Hq & _)%wf_checks Hf.
  split; [split|..]; try done.
  - by right.
  - intros q Hq'. rewrite Hq' in Hq.
    apply (all_chars_impl query_char); [|by apply query_ok_chars].
    by intros c [? _]%query_char_plain.
Qed.

(** Printing a URL of the class and parsing it again gives it back. *)
Lemma parse_toString_wf (u : URL.t) :
  wf u = true -> URL.parse (toString u) = Some u.
Proof.
  intros Hwf. destruct (fragment u) as [f|] eqn:Hf;
    [|by apply parse_toString, wf_canonical].
  destruct (wf_checks u Hwf) as (Hs1 & Hs2 & Hh & Hp & Hslash & Hq & _).
  destruct u as [sch h p q f']. cbn [scheme host pathname query fragment] in *.
  subst f'.
  destruct p as [|c p]; [done|].
  cbn [startsWith] in Hslash. destruct (Ascii.eqb_spec "/" c) as [<-|]; [|done].
  clear Hslash.
  assert (all_chars (non is_colon) sch = true) as Hsc.
  { apply (all_chars_impl scheme_char); [|exact Hs2].
    by intros c [? _]%scheme_char_plain. }
  assert (all_chars (non ends_host) h = true) as Hhc.
  { unfold host_ok in Hh. apply andb_true_iff in Hh as [Hh' _].
    apply andb_true_iff in Hh' as [_ Hh'].
    apply (all_chars_impl host_char); [|exact Hh'].
    by intros c [? _]%host_char_plain. }
  assert (all_chars (non ends_path) (String "/" p) = true) as Hpc.
  { unfold path_ok in Hp. apply andb_true_iff in Hp as [Hp' _].
    apply (all_chars_impl path_char); [|exact Hp'].
    by intros c [? _]%path_char_plain. }
  unfold toString, URL.parse. cbn [scheme host pathname query fragment].
  set (qs := match q with Some q0 => "?" +:+ q0 | None => "" end).
  change (sch +:+ "://" +:+ h +:+ String "/" p +:+ qs +:+ "#" +:+ f)
    with (sch +:+ String ":" ("//" +:+ h +:+ String "/" p +:+ qs +:+ "#" +:+ f)).
  rewrite (break_app is_colon sch _ ":" Hsc eq_refl).
  cbv beta iota zeta.
  change (String ":" ("//" +:+ h +:+ String "/" p +:+ qs +:+ "#" +:+ f))
    with ("://" +:+ h +:+ String "/" p +:+ qs +:+ "#" +:+ f).
  rewrite startsWith_append.
  change 3 with (String.length "://"). rewrite substring_from_app.
  rewrite (append_cons "/" p (qs +:+ "#" +:+ f)).
  rewrite (break_app ends_host h _ "/" Hhc eq_refl).
  cbv beta iota zeta.
  rewrite <- (append_cons "/" p (qs +:+ "#" +:+ f)).
  subst qs. destruct q as [q|].
  - assert (all_chars (non is_hash) q = true) as Hqh.
    { apply (all_chars_impl query_char); [|by apply query_ok_chars].
      by intros c [? _]%query_char_plain. }
    rewrite append_assoc.
    change ("?" +:+ q +:+ "#" +:+ f) with (String "?" (q +:+ "#" +:+ f)).
    rewrite (break_app ends_path _ _ "?" Hpc eq_refl).
    cbv beta iota zeta.
    change (String "?" (q +:+ "#" +:+ f)) with ("?" +:+ q +:+ "#" +:+ f).
    rewrite startsWith_append.
    change 1 with (String.length "?"). rewrite substring_from_app.
    change (q +:+ "#" +:+ f) with (q +:+ String "#" f).
    rewrite (break_app is_hash q f "#" Hqh eq_refl).
    cbv beta iota zeta.
    rewrite Hs1, Hs2, Hh, Hp, Hq. reflexivity.
  - change ("" +:+ "#" +:+ f) with (String "#" f).
    rewrite (break_app ends_path _ f "#" Hpc eq_refl).
    cbv beta iota zeta.
    change (startsWith "?" (String "#" f)) with false. cbv beta iota zeta.
    rewrite Hs1, Hs2, Hh, Hp. reflexivity.
Qed.

Lemma toString_plain_wf (u : URL.t) :
  wf u = true -> all_chars (non is_space) (toString u) = true.
Proof.
  intros (_ & Hs & Hh & Hp & _ & Hq & Hf)%wf_checks. unfold toString.
  rewrite !all_chars_app.
  unfold host_ok in Hh. apply andb_true_iff in Hh as [Hh _].
  apply andb_true_iff in Hh as [_ Hh].
  unfold path_ok in Hp. apply andb_true_iff in Hp as [Hp _].
  rewrite (all_chars_impl scheme_char _ (scheme u)); [|by intros c [_ ?]%scheme_char_plain|done].
  rewrite (all_chars_impl host_char _ (host u)); [|by intros c [_ ?]%host_char_plain|done].
  rewrite (all_chars_impl path_char _ (pathname u)); [|by intros c [_ ?]%path_char_plain|done].
  assert (all_chars (non is_space)
            match query u with Some q => "?" +:+ q | None => "" end = true) as ->.
  { destruct (query u) as [q|]; [|reflexivity].
    rewrite all_chars_app.
    rewrite (all_chars_impl query_char _ q);
      [reflexivity | by intros c [_ ?]%query_char_plain | by apply query_ok_chars]. }
  destruct (fragment u) as [f|]; [|reflexivity].
  rewrite all_chars_app. cbn in Hf.
  by rewrite (all_chars_impl fragment_char _ f fragment_char_plain Hf).
Qed.

(** The operations on the URLs of the class. *)
Lemma searchParams_delete_query (name : string) (u : URL.t) :
  searchParams_delete name u
  = {| scheme := scheme u; host := host u; pathname := pathname u;
       query := delete_query name (query u); fragment := fragment u |}.
Proof. reflexivity. Qed.

Lemma wf_delete (name : string) (u : URL.t) :
  wf u = true -> wf (searchParams_delete name u) = true.
Proof.
  intros (Hs1 & Hs2 & Hh & Hp & Hslash & Hq & Hf)%wf_checks.
  apply wf_of_checks; try done.
  exact (delete_query_ok name (query u) Hq).
Qed.

Lemma wf_set_hash (u : URL.t) : wf u = true -> wf (set_hash "" u) = true.
Proof.
  intros (Hs1 & Hs2 & Hh & Hp & Hslash & Hq & Hf)%wf_checks.
  by apply wf_of_checks.
Qed.

Lemma wf_set_pathname (p : string) (u : URL.t) :
  wf u = true ->
  wf (set_pathname p u) = path_ok p && startsWith "/" p.
Proof.
  intros (Hs1 & Hs2 & Hh & Hp & Hslash & Hq & Hf)%wf_checks.
  unfold wf. cbn [set_pathname scheme host pathname query fragment].
  rewrite Hs1, Hs2, Hh, Hq, Hf. cbn [andb]. by rewrite !andb_true_r.
Qed.

(** URL objects of the parser: equal when their records are. *)
Lemma obj_eq (o o' : Platform.reference_obj) :
  proj1_sig o = proj1_sig o' -> o = o'.
Proof.
  destruct o as [u H], o' as [u' H']. cbn. intros <-. f_equal.
  apply Eqdep_dec.UIP_dec, Bool.bool_dec.
Qed.

Lemma check_wf (u : URL.t) :
  wf u = true -> exists o, Platform.check u = Some o /\ proj1_sig o = u.
Proof.
  intros H. unfold Platform.check.
  destruct (Bool.bool_dec (wf u) true) as [H'|]; [|done]. by eexists.
Qed.

Lemma check_not (u : URL.t) : wf u = false -> Platform.check u = None.
Proof.
  intros H. unfold Platform.check.
  destruct (Bool.bool_dec (wf u) true) as [H'|]; [congruence|done].
Qed.

Lemma update_proj (f : URL.t -> URL.t) (o : Platform.reference_obj) :
  proj1_sig (Platform.update f o)
  = if wf (f (proj1_sig o)) then f (proj1_sig o) else proj1_sig o.
Proof.
  unfold Platform.update. destruct (wf (f (proj1_sig o))) eqn:H.
  - by destruct (check_wf _ H) as (o' & -> & ->).
  - by rewrite (check_not _ H).
Qed.

Lemma update_wf (f : URL.t -> URL.t) (o : Platform.reference_obj) :
  (forall u, wf u = true -> wf (f u) = true) ->
  proj1_sig (Platform.update f o) = f (proj1_sig o).
Proof.
  intros Hf. rewrite update_proj. by rewrite (Hf _ (proj2_sig o)).
Qed.

Lemma reference_laws : Platform.Laws Platform.reference.
Proof.
  split; cbn [Platform.reference Platform.obj Platform.newURL Platform.href
              Platform.scheme Platform.hostname Platform.pathname
              Platform.opaque Platform.searchParams_delete
              Platform.set_pathname Platform.clear_hash].
  - intros [u H]. cbn [proj1_sig]. rewrite (parse_toString_wf u H).
    destruct (check_wf u H) as (o & -> & Ho). f_equal. by apply obj_eq.
  - reflexivity.
  - intros [u H]. cbn [proj1_sig]. apply trim_id, toString_plain_wf, H.
  - intros name o. apply obj_eq.
    rewrite !(update_wf _ _ (wf_delete name)).
    destruct o as [u H]. cbn [proj1_sig].
    destruct (wf_checks u H) as (_ & _ & _ & _ & _ & Hq & _).
    rewrite !searchParams_delete_query.
    cbn [scheme host pathname query fragment].
    by rewrite (delete_query_twice name (query u) Hq).
  - intros name name' o. apply obj_eq.
    repeat (rewrite (update_wf _ _ (wf_delete name))
            || rewrite (update_wf _ _ (wf_delete name'))).
    destruct o as [u H]. cbn [proj1_sig].
    destruct (wf_checks u H) as (_ & _ & _ & _ & _ & Hq & _).
    rewrite !searchParams_delete_query.
    cbn [scheme host pathname query fragment].
    by rewrite (delete_query_comm name name' (query u) Hq).
  - intros name p o. apply obj_eq.
    rewrite (update_wf _ _ (wf_delete name)).
    rewrite !(update_proj (set_pathname p)).
    rewrite !(update_wf _ _ (wf_delete name)).
    rewrite (wf_set_pathname p _ (proj2_sig o)).
    rewrite (wf_set_pathname p _ (wf_delete name _ (proj2_sig o))).
    by destruct (path_ok p && startsWith "/" p).
  - intros name o. apply obj_eq.
    repeat (rewrite (update_wf _ _ (wf_delete name))
            || rewrite (update_wf _ _ wf_set_hash)).
    reflexivity.
  - intros o. apply obj_eq. by rewrite !(update_wf _ _ wf_set_hash).
  - intros o. apply obj_eq. rewrite update_proj.
    assert (set_pathname (pathname (proj1_sig o)) (proj1_sig o) = proj1_sig o)
      as -> by (by destruct (proj1_sig o)).
    by destruct (wf (proj1_sig o)).
  - done.
  - intros p o _ Hp. rewrite update_proj.
    rewrite (wf_set_pathname p _ (proj2_sig o)), Hp, andb_true_r.
    destruct (path_ok p); [exact Hp|].
    by destruct (wf_checks _ (proj2_sig o)) as (_ & _ & _ & _ & ? & _).
  - done.
  - done.
  - intros o _. by rewrite (update_wf _ _ wf_set_hash).
  - intros name o. by rewrite (update_wf _ _ (wf_delete name)).
  - intros p o. rewrite update_proj. by destruct (wf _).
  - intros o. by rewrite (update_wf _ _ wf_set_hash).
Qed.
End ReferenceLaws.

(** ** SitemapCleaner: idempotence and schemes *)

Section CleanerLists.
Import JS SitemapCleaner.

Lemma stripPrefix_none (prefixes : list string) (p : string) :
  existsb (fun prefix => startsWith prefix p) prefixes = false ->
  stripPrefix prefixes p = p.
Proof.
  induction prefixes as [|prefix prefixes IH]; cbn; [done|].
  intros [-> H]%orb_false_iff. by apply IH.
Qed.

Lemma cleanPath_slash (prefixes : list string) (p : string) :
  startsWith "/" (cleanPath prefixes p) = true.
Proof.
  unfold cleanPath.
  by destruct (startsWith "/" (stripPrefix prefixes p)) eqn:H.
Qed.

Lemma filter_not_incl (pred : string -> option bool) (xs r : list string) :
  filter_not pred xs = Some r -> forall x, In x r -> In x xs.
Proof.
  revert r. induction xs as [|y xs IH]; intros r; cbn.
  - by intros [= <-].
  - destruct (pred y) as [b|]; [|discriminate].
    destruct (filter_not pred xs) as [r'|]; [|discriminate].
    intros [= <-] x Hx. destruct b.
    + right. by apply (IH r').
    + destruct Hx as [<-|Hx]; [by left|]. right. by apply (IH r').
Qed.

Lemma filter_not_total (pred : string -> option bool) (xs : list string) :
  (forall x, In x xs -> pred x <> None) ->
  exists r, filter_not pred xs = Some r.
Proof.
  induction xs as [|y xs IH]; intros H; cbn; [by eexists|].
  destruct (pred y) as [b|] eqn:Hy; [|by destruct (H y (or_introl eq_refl))].
  destruct IH as [r ->]; [intros x Hx; apply H; by right|].
  by eexists.
Qed.

Lemma insert_sorted_In (x y : string) (l : list string) :
  In y (insert_sorted x l) -> y = x \/ In y l.
Proof.
  induction l as [|z l IH]; cbn.
  - intros [<-|[]]. by left.
  - destruct (str_leb x z); cbn.
    + intros [<-|H]; [by left | by right].
    + intros [<-|H]; [right; by left|].
      destruct (IH H) as [->|?]; [by left | right; by right].
Qed.

Lemma sort_In (y : string) (l : list string) : In y (sort l) -> In y l.
Proof.
  induction l as [|x l IH]; cbn; [done|].
  intros [->|H]%insert_sorted_In; [by left | right; by apply IH].
Qed.

Lemma unique_from_In (y : string) (l seen : list string) :
  In y (unique_from seen l) -> In y l.
Proof.
  revert seen. induction l as [|x l IH]; intros seen; cbn; [done|].
  destruct (existsb (String.eqb x) seen).
  - intros H. right. by apply (IH seen).
  - intros [<-|H]; [by left | right; by apply (IH (x :: seen))].
Qed.

End CleanerLists.

(** What follows holds for every URL class whose serialisation parses
    back to the object it came from. *)
Section CleanerRoundTrip.
Import JS SitemapCleaner.
Variable P : Platform.t.
Hypothesis newURL_href :
  forall u : Platform.obj P, Platform.newURL P (Platform.href u) = Some u.
Variable c : SitemapCleaner.t.

Lemma cleanSingleUrl_cleaned (url v : string) :
  cleanSingleUrl P c url = Some v ->
  exists u,
    Platform.newURL P (trim url) = Some u /\ v = Platform.href (cleanedObj P c u).
Proof.
  unfold cleanSingleUrl.
  destruct (URL.is_empty url); [discriminate|].
  destruct (Platform.newURL P (trim url)) as [u|]; [|discriminate].
  intros [= <-]. by exists u.
Qed.

(** A cleaned URL parses again, to the object it was serialised from. *)
Lemma cleanSingleUrl_reparses (url v : string) :
  cleanSingleUrl P c url = Some v ->
  exists u,
    Platform.newURL P (trim url) = Some u
    /\ Platform.newURL P v = Some (cleanedObj P c u).
Proof.
  intros (u & Hu & ->)%cleanSingleUrl_cleaned. exists u. by split.
Qed.

Lemma cleanAll_In (urls : list string) (v : string) :
  In v (cleanAll P c urls) ->
  exists url, In url urls /\ cleanSingleUrl P c url = Some v.
Proof.
  unfold cleanAll. rewrite <- list_elem_of_In, list_elem_of_omap.
  intros (url & Hin & Hc). exists url. by rewrite <- list_elem_of_In.
Qed.

(** [process] does not throw: every cleaned URL parses again. *)
Lemma process_total (urls : list string) :
  exists out, process P c urls = Some out.
Proof.
  unfold process.
  destruct (filter_not_total (isExcludedFile P c) (cleanAll P c urls))
    as [r Hr].
  { intros v (url & _ & Hc)%cleanAll_In.
    apply cleanSingleUrl_reparses in Hc as (u & _ & Hv).
    unfold isExcludedFile. by rewrite Hv. }
  rewrite Hr.
  destruct (filter_not_total (isExcludedPath P) r) as [r' Hr'].
  { intros v Hv. apply (filter_not_incl _ _ _ Hr) in Hv.
    apply cleanAll_In in Hv as (url & _ & Hc).
    apply cleanSingleUrl_reparses in Hc as (u & _ & Hv).
    unfold isExcludedPath. by rewrite Hv. }
  rewrite Hr'. by eexists.
Qed.

Lemma process_In (urls out : list string) (v : string) :
  process P c urls = Some out -> In v out ->
  exists url, In url urls /\ cleanSingleUrl P c url = Some v.
Proof.
  unfold process.
  destruct (filter_not (isExcludedFile P c) (cleanAll P c urls)) as [r|] eqn:Hr;
    [|discriminate].
  destruct (filter_not (isExcludedPath P) r) as [r'|] eqn:Hr'; [|discriminate].
  intros [= <-] Hv.
  apply sort_In, unique_from_In in Hv.
  apply (filter_not_incl _ _ _ Hr'), (filter_not_incl _ _ _ Hr) in Hv.
  by apply cleanAll_In.
Qed.
End CleanerRoundTrip.

(** What follows holds for every URL class that obeys the laws. *)
Section CleanerLaws.
Import JS SitemapCleaner.
Variable P : Platform.t.
Hypothesis laws : Platform.Laws P.
Variable c : SitemapCleaner.t.

Lemma deleteParams_cons (name : string) (params : list string)
    (u : Platform.obj P) :
  deleteParams P (name :: params) u
  = deleteParams P params (Platform.searchParams_delete name u).
Proof. reflexivity. Qed.

Lemma deletes_set_pathname (params : list string) (p : string)
    (u : Platform.obj P) :
  deleteParams P params (Platform.set_pathname p u)
  = Platform.set_pathname p (deleteParams P params u).
Proof.
  revert u. induction params as [|name params IH]; intros u; [done|].
  rewrite !deleteParams_cons.
  by rewrite (Platform.delete_set_pathname P laws), IH.
Qed.

Lemma deletes_clear_hash (params : list string) (u : Platform.obj P) :
  deleteParams P params (Platform.clear_hash u)
  = Platform.clear_hash (deleteParams P params u).
Proof.
  revert u. induction params as [|name params IH]; intros u; [done|].
  rewrite !deleteParams_cons.
  by rewrite (Platform.delete_clear_hash P laws), IH.
Qed.

Lemma delete_deletes (params : list string) (name : string)
    (u : Platform.obj P) :
  Platform.searchParams_delete name (deleteParams P params u)
  = deleteParams P params (Platform.searchParams_delete name u).
Proof.
  revert u. induction params as [|name' params IH]; intros u; [done|].
  rewrite !deleteParams_cons.
  by rewrite IH, (Platform.delete_comm P laws).
Qed.

Lemma deletes_deletes (params : list string) (u : Platform.obj P) :
  deleteParams P params (deleteParams P params u) = deleteParams P params u.
Proof.
  revert u. induction params as [|name params IH]; intros u; [done|].
  rewrite !deleteParams_cons.
  by rewrite delete_deletes, (Platform.delete_delete P laws), IH.
Qed.

Lemma scheme_deletes (params : list string) (u : Platform.obj P) :
  Platform.scheme (deleteParams P params u) = Platform.scheme u.
Proof.
  revert u. induction params as [|name params IH]; intros u; [done|].
  rewrite !deleteParams_cons.
  by rewrite IH, (Platform.scheme_delete P laws).
Qed.

Lemma scheme_cleanedObj (u : Platform.obj P) :
  Platform.scheme (cleanedObj P c u) = Platform.scheme u.
Proof.
  unfold cleanedObj.
  by rewrite (Platform.scheme_clear_hash P laws),
    (Platform.scheme_set_pathname P laws), scheme_deletes.
Qed.

(** The cleaned object is a fixed point of the cleaning steps, as soon
    as its path begins with no locale prefix. *)
Lemma cleanedObj_fixed (u : Platform.obj P) :
  existsb (fun prefix => startsWith prefix (Platform.pathname (cleanedObj P c u)))
          (languagePrefixes c) = false ->
  cleanedObj P c (cleanedObj P c u) = cleanedObj P c u.
Proof.
  intros Hpre. unfold cleanedObj at 1.
  assert (deleteParams P (excludedParams c) (cleanedObj P c u) = cleanedObj P c u) as ->.
  { unfold cleanedObj.
    by rewrite deletes_clear_hash, deletes_set_pathname, deletes_deletes. }
  unfold cleanPath. rewrite (stripPrefix_none _ _ Hpre). clear Hpre.
  unfold cleanedObj.
  set (u1 := deleteParams P (excludedParams c) u).
  set (p1 := cleanPath (languagePrefixes c) (Platform.pathname u1)).
  set (u2 := Platform.set_pathname p1 u1).
  assert (Platform.opaque u2 = Platform.opaque u1) as Hop2
    by apply (Platform.opaque_set_pathname P laws).
  assert (Platform.opaque (Platform.clear_hash u2) = Platform.opaque u1) as Hop3
    by (by rewrite (Platform.opaque_clear_hash P laws)).
  destruct (Platform.opaque u1) eqn:Hop.
  - rewrite (Platform.set_pathname_opaque P laws _ _ Hop3).
    apply (Platform.clear_hash_clear_hash P laws).
  - rewrite (Platform.pathname_clear_hash P laws _ Hop2).
    assert (startsWith "/" (Platform.pathname u2) = true) as ->
      by (apply (Platform.set_pathname_slash P laws _ _ Hop);
          apply cleanPath_slash).
    rewrite <- (Platform.pathname_clear_hash P laws u2 Hop2).
    rewrite (Platform.set_pathname_own P laws).
    apply (Platform.clear_hash_clear_hash P laws).
Qed.

Lemma cleanSingleUrl_again (url v : string) :
  cleanSingleUrl P c url = Some v ->
  beginsWithLanguagePrefix P c v = false ->
  cleanSingleUrl P c v = Some v.
Proof.
  intros Hclean Hpre.
  apply cleanSingleUrl_cleaned in Hclean as (u & Hparse & ->).
  unfold beginsWithLanguagePrefix in Hpre.
  rewrite (Platform.newURL_href P laws) in Hpre.
  unfold cleanSingleUrl.
  destruct (URL.is_empty (Platform.href (cleanedObj P c u))) eqn:Hempty.
  { assert (Platform.href (cleanedObj P c u) = "") as Hempty'
      by (by destruct (Platform.href (cleanedObj P c u))).
    clear Hempty. rename Hempty' into Hempty.
    pose proof (Platform.newURL_href P laws (cleanedObj P c u)) as H.
    rewrite Hempty, (Platform.newURL_empty P laws) in H. discriminate. }
  rewrite (Platform.href_trim P laws), (Platform.newURL_href P laws).
  f_equal. f_equal. apply (cleanedObj_fixed u Hpre).
Qed.

(** A cleaned URL parses again, with the scheme it came with. *)
Lemma cleanSingleUrl_scheme (url v : string) :
  cleanSingleUrl P c url = Some v ->
  exists u u',
    Platform.newURL P (trim url) = Some u /\ Platform.newURL P v = Some u'
    /\ Platform.scheme u' = Platform.scheme u.
Proof.
  intros (u & Hu & Hv)%(cleanSingleUrl_reparses P (Platform.newURL_href P laws)).
  exists u, (cleanedObj P c u). split; [exact Hu|]. split; [exact Hv|].
  apply scheme_cleanedObj.
Qed.
End CleanerLaws.

(** C5, as the code has it.  Only the first matching locale prefix is cut
    off, so cleaning is idempotent on the URLs whose cleaned form no longer
    begins with a locale prefix: for such a URL, cleaning the output again
    returns it unchanged.  This holds for every URL string and every URL
    class that obeys the laws. *)
Theorem cleanSingleUrl_idempotent (P : Platform.t) (c : SitemapCleaner.t)
    (url v : string) :
  Platform.Laws P ->
  SitemapCleaner.cleanSingleUrl P c url = Some v ->
  SitemapCleaner.beginsWithLanguagePrefix P c v = false ->
  SitemapCleaner.cleanSingleUrl P c v = Some v.
Proof. intros laws. by apply cleanSingleUrl_again. Qed.

Lemma cleanSingleUrl_idempotent_witness :
  SitemapCleaner.cleanSingleUrl Platform.reference SitemapCleaner.new_language
    "https://example.com/a?page=2"
  = Some "https://example.com/a?page=2".
Proof.
  apply (cleanSingleUrl_idempotent Platform.reference
           SitemapCleaner.new_language
           " https://example.com/en/a?lang=fr&page=2#top ").
  - exact reference_laws.
  - reflexivity.
  - reflexivity.
Defined.

(** C5 as worded fails: a path with two locale prefixes loses one of them
    at each cleaning, with either table. *)
Lemma cleanSingleUrl_not_idempotent :
  (SitemapCleaner.cleanSingleUrl Platform.reference SitemapCleaner.new_language
     "https://example.com/en/fr/a" = Some "https://example.com/fr/a"
   /\ SitemapCleaner.cleanSingleUrl Platform.reference
        SitemapCleaner.new_language
        "https://example.com/fr/a" = Some "https://example.com/a")
  /\ (SitemapCleaner.cleanSingleUrl Platform.reference SitemapCleaner.new_region
        "https://example.com/en-us/en-gb/a" = Some "https://example.com/en-gb/a"
      /\ SitemapCleaner.cleanSingleUrl Platform.reference
           SitemapCleaner.new_region
           "https://example.com/en-gb/a" = Some "https://example.com/a").
Proof. repeat split; reflexivity. Qed.

(** C4, as the code has it.  With the table of bare language codes the two
    URLs collapse to one.  The table of language-region codes has no [/en/]
    entry: both URLs survive, in sorted order, while a region prefix such
    as [/en-us/] is collapsed. *)
Theorem process_locale_example :
  SitemapCleaner.process Platform.reference SitemapCleaner.new_language
    ["https://example.com/a"; "https://example.com/en/a"]
  = Some ["https://example.com/a"]
  /\ SitemapCleaner.process Platform.reference SitemapCleaner.new_region
       ["https://example.com/a"; "https://example.com/en/a"]
     = Some ["https://example.com/a"; "https://example.com/en/a"]
  /\ SitemapCleaner.process Platform.reference SitemapCleaner.new_region
       ["https://example.com/a"; "https://example.com/en-us/a"]
     = Some ["https://example.com/a"].
Proof. repeat split; reflexivity. Qed.

(** C4 as worded fails on the cleaner with the language-region table: the
    result is not the singleton. *)
Lemma process_region_keeps_en :
  SitemapCleaner.process Platform.reference SitemapCleaner.new_region
    ["https://example.com/a"; "https://example.com/en/a"]
  <> Some ["https://example.com/a"].
Proof. vm_compute. discriminate. Qed.

(** C9, as the code has it.  For every input list and every URL class
    that obeys the laws, [process] returns a list whose every member
    parses as a URL with the scheme of an input it was cleaned from; so
    the output has only http and https URLs whenever the parseable inputs
    have. *)
Theorem process_keeps_schemes (P : Platform.t) (c : SitemapCleaner.t)
    (urls : list string) :
  Platform.Laws P ->
  exists out,
    SitemapCleaner.process P c urls = Some out
    /\ (forall v, In v out ->
          exists url u u',
            In url urls /\ Platform.newURL P (JS.trim url) = Some u
            /\ Platform.newURL P v = Some u'
            /\ Platform.scheme u' = Platform.scheme u)
    /\ ((forall url u, In url urls ->
           Platform.newURL P (JS.trim url) = Some u ->
           URL.is_http (Platform.scheme u) = true) ->
        forall v, In v out ->
          exists u',
            Platform.newURL P v = Some u'
            /\ URL.is_http (Platform.scheme u') = true).
Proof.
  intros laws.
  destruct (process_total P (Platform.newURL_href P laws) c urls) as [out Hout].
  exists out. split; [exact Hout|].
  assert (forall v, In v out ->
            exists url u u',
              In url urls /\ Platform.newURL P (JS.trim url) = Some u
              /\ Platform.newURL P v = Some u'
              /\ Platform.scheme u' = Platform.scheme u) as Hschemes.
  { intros v Hv.
    destruct (process_In P c urls out v Hout Hv) as (url & Hin & Hclean).
    destruct (cleanSingleUrl_scheme P laws c url v Hclean)
      as (u & u' & Hu & Hu' & Hs).
    by exists url, u, u'. }
  split; [exact Hschemes|].
  intros Hhttp v Hv.
  destruct (Hschemes v Hv) as (url & u & u' & Hin & Hu & Hu' & Hs).
  exists u'. split; [exact Hu'|]. rewrite Hs. by apply (Hhttp url).
Qed.

Lemma process_keeps_schemes_witness :
  exists out,
    SitemapCleaner.process Platform.reference SitemapCleaner.new_region
      ["https://example.com/en-us/a?lang=fr"; "http://example.com/b#top"]
    = Some out
    /\ forall v, In v out ->
         exists u',
           Platform.newURL Platform.reference v = Some u'
           /\ URL.is_http (Platform.scheme u') = true.
Proof.
  destruct (process_keeps_schemes Platform.reference SitemapCleaner.new_region
              ["https://example.com/en-us/a?lang=fr"; "http://example.com/b#top"])
    as (out & Hout & _ & Hhttp).
  - exact reference_laws.
  - exists out. split; [exact Hout|]. apply Hhttp.
    intros url u [<-|[<-|[]]] Hu; vm_compute in Hu;
      apply (inj Some) in Hu; subst u; reflexivity.
Defined.

(** C9 as worded fails: [process] filters nothing by scheme.  An ftp URL
    is returned as it came, and so is a URL whose scheme begins with the
    letters http, which also passes the fetcher's validation. *)
Lemma process_returns_other_schemes :
  SitemapCleaner.process Platform.reference SitemapCleaner.new_region
    ["ftp://example.com/a"]
  = Some ["ftp://example.com/a"]
  /\ option_map Platform.scheme
       (Platform.newURL Platform.reference "ftp://example.com/a") = Some "ftp"
  /\ SitemapCleaner.process Platform.reference SitemapCleaner.new_region
       (SitemapFetcher.validUrls ["httpx://example.com/a"])
     = Some ["httpx://example.com/a"]
  /\ option_map Platform.scheme
       (Platform.newURL Platform.reference "httpx://example.com/a")
     = Some "httpx".
Proof. repeat split; reflexivity. Qed.
(** ** The properties on the small world *)

Lemma checkLinksInBatch_preserves_order_witness :
  exists s',
    LinkChecker.checkLinksInBatch Fixture.get Fixture.completion 5 2
      [Fixture.sectionLink; Fixture.httpxLink; Fixture.sectionLink] LinkChecker.resetStats
    = Some (map (LinkChecker.verdict Fixture.get) [Fixture.sectionLink; Fixture.httpxLink; Fixture.sectionLink], s').
Proof.
  destruct (checkLinksInBatch_preserves_order Fixture.get Fixture.completion 5 2
              [Fixture.sectionLink; Fixture.httpxLink; Fixture.sectionLink] LinkChecker.resetStats
              Fixture_completion_perm)
    as [_ Hrun].
  apply Hrun.
  - lia.
  - cbn. lia.
Defined.

(** * Further properties of the program *)

(** ** SitemapCleaner: the list [process] returns *)

Section SortedUnique.
Import JS.

Lemma str_leb_total (a b : string) : str_leb a b = false -> str_leb b a = true.
Proof.
  unfold str_leb. rewrite String.compare_antisym.
  by destruct (String.compare b a).
Qed.

Lemma insert_sorted_perm (x : string) (l : list string) :
  insert_sorted x l ≡ₚ x :: l.
Proof.
  induction l as [|y l IH]; cbn; [done|].
  destruct (str_leb x y); [done|].
  rewrite IH. apply Permutation_swap.
Qed.

Lemma sort_perm (l : list string) : sort l ≡ₚ l.
Proof.
  induction l as [|x l IH]; cbn; [done|].
  by rewrite insert_sorted_perm, IH.
Qed.

Lemma insert_sorted_Sorted (x : string) (l : list string) :
  Sorted str_le l -> Sorted str_le (insert_sorted x l).
Proof.
  induction 1 as [|y l Hl IH Hy]; cbn; [by repeat constructor|].
  destruct (str_leb x y) eqn:Hxy.
  - constructor; [by constructor|]. by constructor.
  - constructor; [exact IH|].
    destruct l as [|z l]; cbn.
    + constructor. by apply str_leb_total.
    + destruct (str_leb x z).
      * constructor. by apply str_leb_total.
      * constructor. by inversion Hy.
Qed.

Lemma sort_Sorted (l : list string) : Sorted str_le (sort l).
Proof.
  induction l as [|x l IH]; cbn; [constructor|].
  by apply insert_sorted_Sorted.
Qed.

Lemma sort_of_Sorted (l : list string) : Sorted str_le l -> sort l = l.
Proof.
  induction 1 as [|x l Hl IH Hx]; cbn; [done|].
  fold (sort l). rewrite IH.
  destruct Hx as [|y l Hxy]; cbn; [done|].
  unfold str_le in Hxy. by rewrite Hxy.
Qed.

Lemma seen_spec (x : string) (seen : list string) :
  existsb (String.eqb x) seen = true <-> In x seen.
Proof.
  rewrite existsb_exists. split.
  - intros (y & Hy & ->%String.eqb_eq). exact Hy.
  - intros Hx. exists x. split; [exact Hx | apply String.eqb_refl].
Qed.

Lemma unique_from_spec (l : list string) :
  forall seen,
    NoDup (unique_from seen l)
    /\ forall x, In x (unique_from seen l) <-> In x l /\ ~ In x seen.
Proof.
  induction l as [|y l IH]; intros seen; cbn.
  - split; [constructor|]. tauto.
  - destruct (existsb (String.eqb y) seen) eqn:Hy.
    + destruct (IH seen) as [Hnd Hin]. split; [exact Hnd|].
      intros x. rewrite Hin. apply seen_spec in Hy.
      split; [tauto|]. intros [[<-|Hx] Hs]; tauto.
    + destruct (IH (y :: seen)) as [Hnd Hin].
      assert (~ In y seen) as Hys.
      { intros H%seen_spec. congruence. }
      split.
      * apply NoDup_cons. split; [|exact Hnd].
        rewrite list_elem_of_In, Hin. cbn. tauto.
      * intros x. cbn. rewrite Hin. cbn.
        destruct (String.eqb_spec y x) as [->|Hne]; [tauto|].
        split; [tauto|]. intros [[?|Hx] Hs]; [done|]. right. tauto.
Qed.

Lemma unique_NoDup (l : list string) : NoDup (unique l).
Proof. apply unique_from_spec. Qed.

Lemma unique_In (l : list string) (x : string) : In x (unique l) <-> In x l.
Proof.
  unfold unique. rewrite (proj2 (unique_from_spec l [])). cbn. tauto.
Qed.

Lemma unique_from_of_NoDup (l : list string) :
  forall seen,
    NoDup l -> (forall x, In x l -> ~ In x seen) -> unique_from seen l = l.
Proof.
  induction l as [|y l IH]; intros seen Hnd Hs; cbn; [done|].
  apply NoDup_cons in Hnd as [Hy Hnd].
  destruct (existsb (String.eqb y) seen) eqn:Hseen.
  - apply seen_spec in Hseen. destruct (Hs y); [by left | done].
  - f_equal. apply IH; [exact Hnd|].
    intros x Hx [<-|Hin].
    + by rewrite <- list_elem_of_In in Hx.
    + apply (Hs x); [by right | done].
Qed.

Lemma unique_of_NoDup (l : list string) : NoDup l -> unique l = l.
Proof. intros H. apply unique_from_of_NoDup; [exact H | intros x _ []]. Qed.
End SortedUnique.

Section ProcessOutput.
Import JS SitemapCleaner.
Variable P : Platform.t.
Variable c : SitemapCleaner.t.

Lemma filter_not_In (pred : string -> option bool) (xs r : list string) :
  filter_not pred xs = Some r ->
  forall x, In x r <-> In x xs /\ pred x = Some false.
Proof.
  revert r. induction xs as [|y xs IH]; intros r; cbn.
  - intros [= <-] x. cbn. tauto.
  - destruct (pred y) as [b|] eqn:Hy; [|discriminate].
    destruct (filter_not pred xs) as [r'|]; [|discriminate].
    intros [= <-] x. specialize (IH r' eq_refl x).
    destruct b; cbn; rewrite IH.
    + split; [tauto|]. intros [[<-|Hx] Hp]; [congruence | tauto].
    + split.
      * intros [<-|[Hx Hp]]; tauto.
      * intros [[<-|Hx] Hp]; tauto.
Qed.

Lemma filter_not_length (pred : string -> option bool) (xs r : list string) :
  filter_not pred xs = Some r -> length r <= length xs.
Proof.
  revert r. induction xs as [|y xs IH]; intros r; cbn.
  - by intros [= <-].
  - destruct (pred y) as [b|]; [|discriminate].
    destruct (filter_not pred xs) as [r'|]; [|discriminate].
    intros [= <-]. specialize (IH r' eq_refl). destruct b; cbn; lia.
Qed.

Lemma filter_not_all (pred : string -> option bool) (xs : list string) :
  (forall x, In x xs -> pred x = Some false) -> filter_not pred xs = Some xs.
Proof.
  induction xs as [|y xs IH]; intros H; cbn; [done|].
  rewrite (H y (or_introl eq_refl)), IH; [done|].
  intros x Hx. apply H. by right.
Qed.

Lemma unique_length (l : list string) :
  forall seen, length (unique_from seen l) <= length l.
Proof.
  induction l as [|y l IH]; intros seen; cbn; [done|].
  destruct (existsb (String.eqb y) seen); cbn.
  - specialize (IH seen). lia.
  - specialize (IH (y :: seen)). lia.
Qed.

Lemma cleanAll_length (urls : list string) :
  length (cleanAll P c urls) <= length urls.
Proof.
  unfold cleanAll. induction urls as [|u urls IH]; cbn; [done|].
  destruct (cleanSingleUrl P c u); cbn; lia.
Qed.

Lemma cleanAll_fixed (l : list string) :
  (forall v, In v l -> cleanSingleUrl P c v = Some v) -> cleanAll P c l = l.
Proof.
  unfold cleanAll. induction l as [|v l IH]; intros H; cbn; [done|].
  rewrite (H v (or_introl eq_refl)). cbn. f_equal. apply IH.
  intros x Hx. apply H. by right.
Qed.

Lemma process_member_iff (urls out : list string) (v : string) :
  process P c urls = Some out ->
  (In v out <->
   (exists url, In url urls /\ cleanSingleUrl P c url = Some v)
   /\ isExcludedFile P c v = Some false
   /\ isExcludedPath P v = Some false).
Proof.
  unfold process.
  destruct (filter_not (isExcludedFile P c) (cleanAll P c urls)) as [r|] eqn:Hr;
    [|discriminate].
  destruct (filter_not (isExcludedPath P) r) as [r'|] eqn:Hr'; [|discriminate].
  intros [= <-].
  rewrite <- !list_elem_of_In, sort_perm, !list_elem_of_In, unique_In.
  rewrite (filter_not_In _ _ _ Hr' v), (filter_not_In _ _ _ Hr v).
  split.
  - intros [[Hin Hf] Hp]. split; [by apply cleanAll_In|]. by split.
  - intros [(url & Hin & Hc) [Hf Hp]]. split; [split|]; try done.
    unfold cleanAll. rewrite <- list_elem_of_In, list_elem_of_omap.
    exists url. by rewrite list_elem_of_In.
Qed.

(** The result is never longer than the input. *)
Lemma process_length (urls out : list string) :
  process P c urls = Some out -> length out <= length urls.
Proof.
  unfold process.
  destruct (filter_not (isExcludedFile P c) (cleanAll P c urls)) as [r|] eqn:Hr;
    [|discriminate].
  destruct (filter_not (isExcludedPath P) r) as [r'|] eqn:Hr'; [|discriminate].
  intros [= <-].
  rewrite (Permutation_length (sort_perm _)).
  pose proof (unique_length r' []).
  pose proof (filter_not_length _ _ _ Hr').
  pose proof (filter_not_length _ _ _ Hr).
  pose proof (cleanAll_length urls). unfold unique. lia.
Qed.

Lemma process_Sorted_NoDup (urls out : list string) :
  process P c urls = Some out -> Sorted str_le out /\ NoDup out.
Proof.
  unfold process.
  destruct (filter_not (isExcludedFile P c) (cleanAll P c urls)) as [r|]; [|discriminate].
  destruct (filter_not (isExcludedPath P) r) as [r'|]; [|discriminate].
  intros [= <-]. split; [apply sort_Sorted|].
  rewrite sort_perm. apply unique_NoDup.
Qed.

(** A list that is sorted, without duplicates, made of URLs that cleaning
    leaves alone and that pass both exclusion tests, is returned as it
    is. *)
Lemma process_fixed (l : list string) :
  Sorted str_le l -> NoDup l ->
  (forall v, In v l ->
     cleanSingleUrl P c v = Some v
     /\ isExcludedFile P c v = Some false /\ isExcludedPath P v = Some false) ->
  process P c l = Some l.
Proof.
  intros Hs Hnd H. unfold process.
  rewrite cleanAll_fixed; [|intros v Hv; by apply H].
  rewrite filter_not_all; [|intros v Hv; by apply H].
  rewrite filter_not_all; [|intros v Hv; by apply H].
  by rewrite (unique_of_NoDup _ Hnd), (sort_of_Sorted _ Hs).
Qed.
End ProcessOutput.

(** X1. For every URL class whose serialisation parses back to the object
    it came from, [process] never throws, and the list it returns is in
    ascending code-unit order, has no duplicates and is no longer than the
    input, for every input list. *)
Theorem process_sorted_unique (P : Platform.t) (c : SitemapCleaner.t)
    (urls : list string) :
  (forall u : Platform.obj P, Platform.newURL P (Platform.href u) = Some u) ->
  exists out,
    SitemapCleaner.process P c urls = Some out
    /\ Sorted JS.str_le out /\ NoDup out
    /\ length out <= length urls.
Proof.
  intros Hc. destruct (process_total P Hc c urls) as [out Hout].
  exists out. split; [exact Hout|].
  destruct (process_Sorted_NoDup P c urls out Hout) as [Hs Hn].
  repeat split; try done. by apply (process_length P c urls).
Qed.

Lemma process_sorted_unique_witness :
  exists out,
    SitemapCleaner.process Platform.reference SitemapCleaner.new_region
      ["https://example.com/b"; "https://example.com/en-us/a";
       "https://example.com/a"; "https://example.com/b#top"] = Some out
    /\ Sorted JS.str_le out /\ NoDup out.
Proof.
  destruct (process_sorted_unique Platform.reference SitemapCleaner.new_region
              ["https://example.com/b"; "https://example.com/en-us/a";
               "https://example.com/a"; "https://example.com/b#top"])
    as (out & Hout & Hs & Hn & _).
  - apply (Platform.newURL_href _ reference_laws).
  - exists out. by repeat split.
Defined.

(** X4. For every URL class that obeys the laws, running [process] on its
    own result returns it unchanged, provided no URL of the result still
    begins with a locale prefix. *)
Theorem process_again (P : Platform.t) (c : SitemapCleaner.t)
    (urls out : list string) :
  Platform.Laws P ->
  SitemapCleaner.process P c urls = Some out ->
  (forall v, In v out ->
     SitemapCleaner.beginsWithLanguagePrefix P c v = false) ->
  SitemapCleaner.process P c out = Some out.
Proof.
  intros Hc Hout Hpre.
  destruct (process_Sorted_NoDup P c urls out Hout) as [Hs Hn].
  apply process_fixed; try done.
  intros v Hv.
  apply (process_member_iff P c urls out v Hout) in Hv as Hm.
  destruct Hm as ((url & _ & Hclean) & Hf & Hp).
  split; [|by split].
  by apply (cleanSingleUrl_again P Hc c url v Hclean), Hpre.
Qed.

Lemma process_again_witness :
  SitemapCleaner.process Platform.reference SitemapCleaner.new_language
    ["https://example.com/a"; "https://example.com/b"]
  = Some ["https://example.com/a"; "https://example.com/b"].
Proof.
  apply (process_again Platform.reference SitemapCleaner.new_language
           ["https://example.com/fr/b?lang=fr"; "https://example.com/en/a#x";
            "https://example.com/a"]).
  - exact reference_laws.
  - reflexivity.
  - intros v [<-|[<-|[]]]; reflexivity.
Defined.

(** X2. What [process] returns is characterised member by member: a URL is
    in the result exactly when it is the cleaned form of some input and
    neither [isExcludedFile] nor [isExcludedPath] rejects it.  So a URL
    whose cleaned path ends in an excluded extension or starts with an
    excluded path never appears. *)
Theorem process_members (P : Platform.t) (c : SitemapCleaner.t)
    (urls out : list string) (v : string) :
  SitemapCleaner.process P c urls = Some out ->
  (In v out <->
   (exists url, In url urls /\ SitemapCleaner.cleanSingleUrl P c url = Some v)
   /\ SitemapCleaner.isExcludedFile P c v = Some false
   /\ SitemapCleaner.isExcludedPath P v = Some false).
Proof. apply process_member_iff. Qed.

Lemma process_members_witness :
  In "https://example.com/a"
     [ "https://example.com/a" ]
  <-> (exists url,
         In url ["https://example.com/en/a?utm_source=x";
                 "https://example.com/en/DOC.PDF";
                 "https://example.com/api/v1"]
         /\ SitemapCleaner.cleanSingleUrl Platform.reference
              SitemapCleaner.new_language url
            = Some "https://example.com/a")
      /\ SitemapCleaner.isExcludedFile Platform.reference
           SitemapCleaner.new_language "https://example.com/a" = Some false
      /\ SitemapCleaner.isExcludedPath Platform.reference
           "https://example.com/a" = Some false.
Proof.
  apply (process_members Platform.reference SitemapCleaner.new_language
           ["https://example.com/en/a?utm_source=x";
            "https://example.com/en/DOC.PDF";
            "https://example.com/api/v1"]).
  reflexivity.
Defined.
(** ** LinkExtractor: de-duplication *)

Section Deduplicate.
Import JS LinkExtractor.

Lemma unique_from_snoc (l : list string) (k : string) :
  forall seen,
    unique_from seen (l ++ [k])
    = unique_from seen l
      ++ (if existsb (String.eqb k) seen || existsb (String.eqb k) l
          then [] else [k]).
Proof.
  induction l as [|y l IH]; intros seen; cbn.
  - rewrite orb_false_r. by destruct (existsb (String.eqb k) seen).
  - destruct (existsb (String.eqb y) seen) eqn:Hy.
    + rewrite IH. do 2 f_equal.
      destruct (String.eqb_spec k y) as [->|_]; [by rewrite Hy|reflexivity].
    + cbn. rewrite IH. cbn. do 3 f_equal.
      destruct (String.eqb k y), (existsb (String.eqb k) seen); reflexivity.
Qed.

Lemma unique_snoc (l : list string) (k : string) :
  unique (l ++ [k]) = unique l ++ (if existsb (String.eqb k) l then [] else [k]).
Proof. unfold unique. by rewrite unique_from_snoc. Qed.

Lemma firstWith_url (p : list Link) (k : string) (l : Link) :
  firstWith k p = Some l -> url l = k /\ In l p.
Proof.
  unfold firstWith. intros H. apply find_some in H as [Hin Hk].
  by apply String.eqb_eq in Hk.
Qed.

Lemma firstWith_Some (p : list Link) (k : string) :
  In k (map url p) -> exists l, firstWith k p = Some l.
Proof.
  unfold firstWith. induction p as [|x p IH]; cbn [map find In]; [done|].
  destruct (String.eqb_spec (url x) k) as [_|Hne]; [by eexists|].
  intros [?|Hin]; [done | by apply IH].
Qed.

Lemma firstWith_None (p : list Link) (k : string) :
  ~ In k (map url p) -> firstWith k p = None.
Proof.
  unfold firstWith. induction p as [|x p IH]; cbn [map find In]; [done|].
  intros Hnot. destruct (String.eqb_spec (url x) k) as [Heq|Hne]; [tauto|].
  apply IH. tauto.
Qed.

Lemma firstWith_snoc (p : list Link) (x : Link) (k : string) :
  firstWith k (p ++ [x])
  = match firstWith k p with
    | Some l => Some l
    | None => if String.eqb (url x) k then Some x else None
    end.
Proof.
  unfold firstWith. induction p as [|y p IH]; cbn [app find]; [done|].
  by destruct (String.eqb (url y) k).
Qed.

Lemma occurrences_snoc (p : list Link) (x : Link) (k : string) :
  occurrences k (p ++ [x])
  = occurrences k p + (if String.eqb (url x) k then 1 else 0).
Proof.
  unfold occurrences. rewrite List.filter_app, List.length_app. cbn [List.filter].
  by destruct (String.eqb (url x) k).
Qed.

Lemma occurrences_pos (p : list Link) (k : string) :
  In k (map url p) -> 1 <= occurrences k p.
Proof.
  unfold occurrences. induction p as [|x p IH]; cbn [map In List.filter]; [done|].
  destruct (String.eqb_spec (url x) k) as [_|Hne]; cbn [length]; [lia|].
  intros [?|Hin]; [done | by apply IH].
Qed.

Lemma occurrences_zero (p : list Link) (k : string) :
  ~ In k (map url p) -> occurrences k p = 0.
Proof.
  unfold occurrences. induction p as [|x p IH]; cbn [map In List.filter]; [done|].
  intros Hnot. destruct (String.eqb_spec (url x) k) as [Heq|Hne]; [tauto|].
  apply IH. tauto.
Qed.

Lemma bump_counted (n : nat) (l : Link) :
  1 <= n -> bump (counted n l) = counted (n + 1) l.
Proof.
  intros Hn. unfold bump, counted. cbn. f_equal.
  destruct (Nat.leb_spec n 1), (Nat.leb_spec (n + 1) 1); try lia.
  - by replace n with 1 by lia.
  - destruct n; [lia|]. reflexivity.
Qed.

Lemma counted_fresh (l : Link) : duplicateCount l = None -> counted 1 l = l.
Proof. destruct l. cbn. by intros ->. Qed.

Lemma entryOf_snoc_other (p : list Link) (x : Link) (k : string) :
  k <> url x -> entryOf (p ++ [x]) k = entryOf p k.
Proof.
  intros Hne. unfold entryOf. rewrite firstWith_snoc, occurrences_snoc.
  destruct (String.eqb_spec (url x) k) as [Heq|_]; [congruence|].
  rewrite Nat.add_0_r. by destruct (firstWith k p).
Qed.

Lemma omap_entryOf_snoc_other (p : list Link) (x : Link) (ks : list string) :
  ~ In (url x) ks -> omap (entryOf (p ++ [x])) ks = omap (entryOf p) ks.
Proof.
  induction ks as [|k ks IH]; intros Hx; [done|].
  cbn [omap list_omap]. cbn in Hx.
  rewrite (entryOf_snoc_other p x k); [|intros ->; tauto].
  rewrite IH; [done | tauto].
Qed.

Lemma omap_entryOf_urls (p : list Link) (ks : list string) :
  (forall k, In k ks -> In k (map url p)) ->
  map url (omap (entryOf p) ks) = ks.
Proof.
  induction ks as [|k ks IH]; intros H; [done|].
  destruct (firstWith_Some p k (H k (or_introl eq_refl))) as [l Hl].
  cbn [omap list_omap]. unfold entryOf at 1. rewrite Hl. cbn.
  rewrite (proj1 (firstWith_url p k l Hl)). f_equal.
  apply IH. intros k' Hk'. apply H. by right.
Qed.

(** Counting [x] once more in a map that already holds its URL. *)
Lemma bumpKey_entryOf (p : list Link) (x : Link) (ks : list string) :
  NoDup ks ->
  (forall k, In k ks -> In k (map url p)) ->
  In (url x) ks ->
  bumpKey (url x) (omap (entryOf p) ks) = omap (entryOf (p ++ [x])) ks.
Proof.
  induction ks as [|k ks IH]; intros Hnd Hks Hx; [done|].
  apply NoDup_cons in Hnd as [Hk Hnd]. rewrite list_elem_of_In in Hk.
  destruct (firstWith_Some p k (Hks k (or_introl eq_refl))) as [l Hl].
  destruct (firstWith_url p k l Hl) as [Hurl _].
  assert (entryOf p k = Some (counted (occurrences k p) l)) as Hold.
  { unfold entryOf. by rewrite Hl. }
  assert (entryOf (p ++ [x]) k
          = Some (counted (occurrences k p
                           + (if String.eqb (url x) k then 1 else 0)) l)) as Hnew.
  { unfold entryOf. by rewrite firstWith_snoc, occurrences_snoc, Hl. }
  cbn [omap list_omap]. rewrite Hold, Hnew. cbn [bumpKey].
  change (url (counted (occurrences k p) l)) with (url l).
  rewrite Hurl. rewrite (String.eqb_sym k (url x)).
  destruct (String.eqb_spec (url x) k) as [Heq|Hne].
  - rewrite bump_counted; [|apply occurrences_pos, Hks; by left].
    f_equal. symmetry. apply omap_entryOf_snoc_other. by rewrite Heq.
  - rewrite Nat.add_0_r. f_equal. apply IH; [done| |].
    + intros k' Hk'. apply Hks. by right.
    + destruct Hx as [?|?]; [congruence|done].
Qed.

Lemma existsb_url (acc : list Link) (k : string) :
  existsb (fun l => String.eqb (url l) k) acc = existsb (String.eqb k) (map url acc).
Proof.
  induction acc as [|l acc IH]; [done|]. cbn.
  by rewrite IH, (String.eqb_sym k).
Qed.

(** The map after the links [ls], in closed form. *)
Lemma deduplicateLinks_closed (ls : list Link) :
  Forall (fun l => duplicateCount l = None) ls ->
  deduplicateLinks ls = omap (entryOf ls) (unique (map url ls)).
Proof.
  unfold deduplicateLinks.
  induction ls as [|x p IH] using rev_ind; intros Hls; [done|].
  apply Forall_app in Hls as [Hp Hx]. apply Forall_cons in Hx as [Hx _].
  rewrite fold_left_app. cbn [fold_left]. rewrite (IH Hp).
  assert (forall k, In k (unique (map url p)) -> In k (map url p)) as Hks.
  { intros k. by rewrite unique_In. }
  rewrite existsb_url, (omap_entryOf_urls p _ Hks).
  rewrite map_app. cbn [map]. rewrite unique_snoc.
  destruct (existsb (String.eqb (url x)) (unique (map url p))) eqn:Hseen.
  - assert (existsb (String.eqb (url x)) (map url p) = true) as ->.
    { apply seen_spec. apply seen_spec in Hseen. by apply unique_In. }
    rewrite app_nil_r.
    apply bumpKey_entryOf; [apply unique_NoDup | exact Hks |].
    by apply seen_spec in Hseen.
  - assert (~ In (url x) (map url p)) as Hnot.
    { intros Hin. apply unique_In, seen_spec in Hin. congruence. }
    assert (existsb (String.eqb (url x)) (map url p) = false) as ->.
    { destruct (existsb (String.eqb (url x)) (map url p)) eqn:He; [|done].
      exfalso. apply Hnot. by apply seen_spec. }
    rewrite omap_app. cbn [omap list_omap].
    rewrite omap_entryOf_snoc_other; [|by rewrite unique_In].
    f_equal. unfold entryOf.
    rewrite firstWith_snoc, occurrences_snoc, (firstWith_None p _ Hnot),
      (occurrences_zero p _ Hnot), String.eqb_refl.
    cbn. by rewrite (counted_fresh x Hx).
Qed.
Lemma deduplicateLinks_first_occurrences_aux (ls : list Link) :
  Forall (fun l => duplicateCount l = None) ls ->
  NoDup (map url (deduplicateLinks ls)).
Proof.
  intros Hls. rewrite (deduplicateLinks_closed ls Hls).
  rewrite omap_entryOf_urls; [apply unique_NoDup|].
  intros k. by rewrite unique_In.
Qed.
End Deduplicate.

(** X5. De-duplication keeps, for each distinct URL in order of first
    appearance, the first link that has it, and sets its duplicate count to
    the number of links with that URL when there are at least two.  So the
    result has pairwise distinct URLs and the same URLs as the input. *)
Theorem deduplicateLinks_first_occurrences (ls : list LinkExtractor.Link) :
  Forall (fun l => LinkExtractor.duplicateCount l = None) ls ->
  map LinkExtractor.url (LinkExtractor.deduplicateLinks ls)
  = JS.unique (map LinkExtractor.url ls)
  /\ NoDup (map LinkExtractor.url (LinkExtractor.deduplicateLinks ls))
  /\ forall l, In l (LinkExtractor.deduplicateLinks ls) ->
       exists l0,
         LinkExtractor.firstWith (LinkExtractor.url l) ls = Some l0
         /\ l = LinkExtractor.counted
                  (LinkExtractor.occurrences (LinkExtractor.url l) ls) l0.
Proof.
  intros Hls. rewrite (deduplicateLinks_closed ls Hls).
  assert (map LinkExtractor.url
            (omap (LinkExtractor.entryOf ls) (JS.unique (map LinkExtractor.url ls)))
          = JS.unique (map LinkExtractor.url ls)) as Hurls.
  { apply omap_entryOf_urls. intros k. by rewrite unique_In. }
  split; [exact Hurls|]. split; [rewrite Hurls; apply unique_NoDup|].
  intros l Hl. rewrite <- list_elem_of_In in Hl.
  apply list_elem_of_omap in Hl as (k & _ & Hk).
  unfold LinkExtractor.entryOf in Hk.
  destruct (LinkExtractor.firstWith k ls) as [l0|] eqn:Hf; [|discriminate].
  injection Hk as <-. cbn [LinkExtractor.url LinkExtractor.counted].
  destruct (firstWith_url ls k l0 Hf) as [-> _]. by exists l0.
Qed.

Lemma deduplicateLinks_first_occurrences_witness :
  map LinkExtractor.url
    (LinkExtractor.deduplicateLinks
       [Fixture.sectionLink; Fixture.httpxLink; Fixture.sectionLink])
  = ["https://example.com/docs#install"; "httpx://example.com/a"].
Proof.
  destruct (deduplicateLinks_first_occurrences
              [Fixture.sectionLink; Fixture.httpxLink; Fixture.sectionLink])
    as (Hurls & _).
  - repeat constructor.
  - exact Hurls.
Defined.

(** ** LinkExtractor: what an extracted link looks like *)

Section Extracted.
Import JS LinkExtractor.
Context {P : Platform.t}.
Variable newURL2 : string -> string -> option (Platform.obj P).
Variable load : string -> list Element.

Lemma extractSingleLink_well (e : Element) (a base html : string) (l : Link) :
  extractSingleLink newURL2 e a base html = Some l ->
  wellExtracted newURL2 base l /\ duplicateCount l = None.
Proof.
  unfold extractSingleLink. intros H.
  destruct (attr a (attrs e)) as [href|]; [|discriminate].
  destruct (URL.is_empty href); [discriminate|].
  destruct (Utils.resolveUrl newURL2 href base) as [u|] eqn:Hr; [|discriminate].
  inversion H; subst. by repeat split.
Qed.

Lemma extracted_raw (x : LinkExtractor.t) (html baseUrl : string) :
  exists raw,
    extractLinks newURL2 load x html baseUrl = deduplicateLinks raw
    /\ Forall (fun l => wellExtracted newURL2 baseUrl l /\ duplicateCount l = None) raw.
Proof.
  unfold extractLinks. eexists. split; [reflexivity|].
  assert (forall (f : Element -> option Link) es,
            (forall e l, f e = Some l ->
                         wellExtracted newURL2 baseUrl l /\ duplicateCount l = None) ->
            Forall (fun l => wellExtracted newURL2 baseUrl l /\ duplicateCount l = None)
                   (omap f es)) as Homap.
  { intros f es Hf. apply Forall_forall. intros l Hl.
    apply list_elem_of_omap in Hl as (e & _ & He). by apply (Hf e). }
  destruct (negb (excludeImages x)).
  - apply Forall_app. split.
    + apply Homap. intros e l. apply extractSingleLink_well.
    + apply Homap. intros e l Hl.
      destruct (extractSingleLink newURL2 e _ baseUrl html) as [l'|] eqn:He;
        [|discriminate].
      injection Hl as <-. by apply extractSingleLink_well in He.
  - apply Homap. intros e l. apply extractSingleLink_well.
Qed.

Lemma resolveUrl_href (href base u : string) :
  Utils.resolveUrl newURL2 href base = Some u ->
  URL.is_empty href = false
  /\ startsWith "#" href = false /\ startsWith "javascript:" href = false
  /\ startsWith "mailto:" href = false /\ startsWith "tel:" href = false
  /\ exists p, newURL2 href base = Some p /\ u = Platform.href p.
Proof.
  unfold Utils.resolveUrl.
  destruct (URL.is_empty href), (startsWith "#" href),
    (startsWith "javascript:" href), (startsWith "mailto:" href),
    (startsWith "tel:" href); cbn [orb]; try discriminate.
  destruct (newURL2 href base) as [p|]; [|discriminate].
  intros [= <-]. repeat split. by exists p.
Qed.

Lemma extractLinks_well (x : LinkExtractor.t) (html baseUrl : string) :
  NoDup (map url (extractLinks newURL2 load x html baseUrl))
  /\ Forall (wellExtracted newURL2 baseUrl) (extractLinks newURL2 load x html baseUrl).
Proof.
  destruct (extracted_raw x html baseUrl) as (raw & -> & Hraw).
  split.
  - apply deduplicateLinks_first_occurrences_aux.
    eapply Forall_impl; [exact Hraw|]. by intros l [_ ?].
  - apply deduplicateLinks_Forall; [by intros l|].
    eapply Forall_impl; [exact Hraw|]. by intros l [? _].
Qed.
End Extracted.

(** X6. The links [extractLinks] returns have pairwise distinct URLs.  Each
    records the page as [foundOn]; its URL is the resolution of its
    original reference against the page; that reference is not empty and
    does not begin with "#", "javascript:", "mailto:" or "tel:".  So for an
    extracted link the filter of [scanSinglePage] comes down to its two
    tests on the URL. *)
Theorem extractLinks_links {P : Platform.t}
    (newURL2 : string -> string -> option (Platform.obj P))
    (load : string -> list LinkExtractor.Element) (x : LinkExtractor.t)
    (html baseUrl : string) :
  let links := LinkExtractor.extractLinks newURL2 load x html baseUrl in
  NoDup (map LinkExtractor.url links)
  /\ forall l, In l links ->
       LinkExtractor.foundOn l = baseUrl
       /\ (exists p, newURL2 (LinkExtractor.originalHref l) baseUrl = Some p
                     /\ LinkExtractor.url l = Platform.href p)
       /\ URL.is_empty (LinkExtractor.originalHref l) = false
       /\ JS.startsWith "#" (LinkExtractor.originalHref l) = false
       /\ JS.startsWith "javascript:" (LinkExtractor.originalHref l) = false
       /\ LinkChecker.toCheck l
          = JS.startsWith "http" (LinkExtractor.url l)
            && negb (JS.includes "#" (LinkExtractor.url l)).
Proof.
  intros links.
  destruct (extractLinks_well newURL2 load x html baseUrl) as [Hnd Hwell].
  split; [exact Hnd|]. intros l Hl.
  rewrite Forall_forall in Hwell. rewrite <- list_elem_of_In in Hl.
  destruct (Hwell l Hl) as (Hfound & Hres & _).
  apply resolveUrl_href in Hres as (He & Hh & Hj & Hm & Ht & p & Hp & Hu).
  repeat split; try done.
  - by exists p.
  - unfold LinkChecker.toCheck. rewrite Hm, Ht. cbn [negb]. by rewrite !andb_true_r.
Qed.


(** ** LinkChecker: verdicts, page statistics and the shape of a scan *)

Section Verdicts.
Import LinkExtractor LinkChecker.
Variable get : string -> GetOutcome.

(** X7. The verdict on a link ties its category to its status code:
    [broken] exactly when the code is 404; [ok] only with a code below 400
    and no error; [warning] only with a code from 400 on other than 404;
    [timeout] only with code 0 and a time-out error code; [error] only with
    a code below 400 and an error message.  The link itself is carried
    over unchanged. *)
Theorem verdict_category (l : Link) :
  let c := verdict get l in
  link c = l
  /\ (category c = broken <-> statusCode c = 404%Z)
  /\ (category c = ok -> (statusCode c < 400)%Z /\ c_error c = None)
  /\ (category c = warning -> (400 <= statusCode c)%Z /\ statusCode c <> 404%Z)
  /\ (category c = timeout ->
      statusCode c = 0%Z /\ is_timeout_code (errorCode c) = true)
  /\ (category c = error -> (statusCode c < 400)%Z /\ c_error c <> None).
Proof.
  unfold verdict, checkSingleLink.
  destruct (get (url l)) as [r|e].
  - destruct (Z.eqb_spec (status r) 404) as [E|N].
    + cbn. rewrite E. repeat split; try done.
    + destruct (Z.leb_spec 400 (status r)) as [G|L]; cbn;
        repeat split; try done; try lia.
  - destruct (is_timeout_code (code e)) eqn:Ht.
    + cbn. repeat split; try done.
    + destruct (response e) as [sc|]; [|cbn; repeat split; try done; lia].
      destruct (Z.eqb_spec sc 404) as [E|N].
      * cbn. rewrite E. repeat split; try done.
      * destruct (Z.leb_spec 400 sc) as [G|L]; cbn;
          repeat split; try done; try lia.
Qed.

Lemma verdict_is404 (l : Link) :
  is404 (verdict get l) = Category_eqb (category (verdict get l)) broken.
Proof.
  unfold is404, verdict, checkSingleLink.
  destruct (get (url l)) as [r|e].
  - destruct (Z.eqb_spec (status r) 404) as [E|N]; cbn.
    + by rewrite E.
    + by destruct (400 <=? status r)%Z.
  - destruct (is_timeout_code (code e)); [done|].
    destruct (response e) as [sc|]; [|done].
    destruct (Z.eqb_spec sc 404) as [E|N]; cbn.
    + by rewrite E.
    + by destruct (400 <=? sc)%Z.
Qed.
End Verdicts.

Lemma count_split {A} (p : A -> bool) (l : list A) :
  LinkChecker.count p l + LinkChecker.count (fun x => negb (p x)) l = length l.
Proof.
  unfold LinkChecker.count. induction l as [|x l IH]; cbn; [done|].
  destruct (p x); cbn; lia.
Qed.

(** X8. The page statistics partition the checked links: internal and
    external links add up to the number checked, and so do the five
    categories. *)
Theorem generatePageStats_partition (allLinks : list LinkExtractor.Link)
    (checkedLinks : list LinkChecker.CheckedLink) :
  let s := LinkChecker.generatePageStats allLinks checkedLinks in
  LinkChecker.totalLinksFound s = length allLinks
  /\ LinkChecker.ps_linksChecked s = length checkedLinks
  /\ LinkChecker.internal s + LinkChecker.external s = length checkedLinks
  /\ LinkChecker.ps_ok s + LinkChecker.ps_broken s + LinkChecker.warnings s
     + LinkChecker.errors s + LinkChecker.ps_timeouts s = length checkedLinks.
Proof.
  cbn. repeat split.
  - apply count_split.
  - unfold LinkChecker.count.
    induction checkedLinks as [|c cs IH]; cbn; [done|].
    destruct (LinkChecker.category c); cbn; lia.
Qed.

(** ** The shared counters under concurrency *)

Section Measures.
Context {A R E St : Type}.
Variable processor : A -> St -> (R + E) * St.
Variable completion : list A -> list nat.
(** A counter of the shared state, and what one call adds to it. *)
Variable m : St -> nat.
Variable w : A -> nat.
Hypothesis processor_adds : forall x s, m (snd (processor x s)) = m s + w x.
Hypothesis completion_perm :
  forall batch, completion batch ≡ₚ seq 0 (length batch).

Lemma settle_measure (batch : list A) (order : list nat) :
  forall slots s,
    m (snd (fold_left (Utils.settle processor batch) order (slots, s)))
    = m s + sum_list_with (fun i => from_option w 0 (batch !! i)) order.
Proof.
  induction order as [|j order IH]; intros slots s; cbn [fold_left]; [cbn; lia|].
  unfold Utils.settle at 2. cbn [fst snd].
  destruct (batch !! j) as [y|] eqn:Hj.
  - pose proof (processor_adds y s) as Hy.
    destruct (processor y s) as [r s1]. cbn [snd] in Hy.
    rewrite IH, Hy. cbn. rewrite Hj. cbn. lia.
  - rewrite IH. cbn. rewrite Hj. cbn. lia.
Qed.

Lemma sum_list_with_ext {B} (f g : B -> nat) (l : list B) :
  (forall x, x ∈ l -> f x = g x) -> sum_list_with f l = sum_list_with g l.
Proof.
  induction l as [|x l IH]; intros H; cbn; [done|].
  rewrite (H x), IH; [done| |].
  - intros y Hy. apply H, elem_of_cons. by right.
  - apply elem_of_cons. by left.
Qed.

Lemma sum_over_indices (batch : list A) :
  sum_list_with (fun i => from_option w 0 (batch !! i)) (seq 0 (length batch))
  = sum_list_with w batch.
Proof.
  induction batch as [|x batch IH] using rev_ind; [done|].
  rewrite List.length_app. cbn [length]. rewrite seq_app. cbn [seq].
  rewrite !sum_list_with_app. cbn. rewrite <- IH.
  rewrite lookup_app_r by lia. rewrite Nat.sub_diag. cbn.
  f_equal. apply sum_list_with_ext. intros i Hi.
  apply elem_of_seq in Hi. by rewrite lookup_app_l by lia.
Qed.

Lemma allSettled_measure (batch : list A) (s : St) :
  m (snd (Utils.allSettled processor completion batch s))
  = m s + sum_list_with w batch.
Proof.
  unfold Utils.allSettled. rewrite settle_measure.
  by rewrite (completion_perm batch), sum_over_indices.
Qed.

Lemma batches_measure (items : list A) (c : Z) :
  (1 <= c)%Z ->
  forall fuel i results s r s',
    Utils.batches processor completion fuel items c (Z.of_nat i) results s
    = Some (r, s') ->
    m s' = m s + sum_list_with w (skipn i items).
Proof.
  intros Hc. induction fuel as [|fuel IH]; intros i results s r s' H;
    [discriminate|].
  cbn [Utils.batches] in H.
  destruct (Z.ltb_spec (Z.of_nat i) (Z.of_nat (length items))) as [Hlt|Hge].
  - pose proof (allSettled_measure
                  (Utils.slice items (Z.of_nat i) (Z.of_nat i + c)) s) as Hm.
    destruct (Utils.allSettled processor completion
                (Utils.slice items (Z.of_nat i) (Z.of_nat i + c)) s)
      as [slots s1].
    cbn [snd] in Hm.
    destruct (Utils.tag _ slots) as [batchResults|]; [|discriminate].
    assert (Z.of_nat i + c = Z.of_nat (i + Z.to_nat c))%Z as Hnext by lia.
    rewrite Hnext in H. apply IH in H.
    rewrite H, Hm, <- Nat.add_assoc, <- sum_list_with_app. do 2 f_equal.
    apply slice_step; lia.
  - injection H as _ <-. rewrite skipn_all2 by lia. cbn. lia.
Qed.

(** Whatever the order of completion, the counter ends up increased by
    the sum over the items. *)
Lemma processConcurrent_measure (items : list A) (c : Z) (fuel : nat) (s : St)
    (r : list (Utils.Settled A R E)) (s' : St) :
  Utils.processConcurrent processor completion fuel items c s = Some (r, s') ->
  m s' = m s + sum_list_with w items.
Proof.
  unfold Utils.processConcurrent. intros H.
  destruct (Z.le_gt_cases 1 c) as [Hc|Hc].
  - exact (batches_measure items c Hc fuel 0 [] s r s' H).
  - destruct items as [|x items].
    + destruct fuel; [discriminate|]. cbn in H. injection H as _ <-. cbn. lia.
    + rewrite batches_stuck in H; [discriminate|lia|done|lia].
Qed.
End Measures.

(** ** LinkChecker: what a scan returns *)

Section Scan.
Import LinkExtractor LinkChecker.
Variable get : string -> GetOutcome.
Context {P : Platform.t}.
Variable newURL2 : string -> string -> option (Platform.obj P).
Variable load : string -> list Element.
Variable completion : list Link -> list nat.
Hypothesis completion_perm :
  forall batch, completion batch ≡ₚ seq 0 (length batch).

(** What one check adds to each counter. *)
Lemma checkSingleLink_errors404 (l : Link) (s : Stats) :
  errors404 (snd (checkSingleLink get l s))
  = errors404 s
    + (if Category_eqb (category (verdict get l)) broken then 1 else 0).
Proof.
  unfold verdict, checkSingleLink.
  destruct (get (url l)) as [r|e].
  - destruct (status r =? 404)%Z; [cbn; lia|].
    destruct (400 <=? status r)%Z; cbn; lia.
  - destruct (is_timeout_code (code e)); [cbn; lia|].
    destruct (response e) as [sc|]; [|cbn; lia].
    destruct (sc =? 404)%Z; [cbn; lia|].
    destruct (400 <=? sc)%Z; cbn; lia.
Qed.

Lemma checkSingleLink_timeouts (l : Link) (s : Stats) :
  timeouts (snd (checkSingleLink get l s))
  = timeouts s
    + (if Category_eqb (category (verdict get l)) timeout then 1 else 0).
Proof.
  unfold verdict, checkSingleLink.
  destruct (get (url l)) as [r|e].
  - destruct (status r =? 404)%Z; [cbn; lia|].
    destruct (400 <=? status r)%Z; cbn; lia.
  - destruct (is_timeout_code (code e)); [cbn; lia|].
    destruct (response e) as [sc|]; [|cbn; lia].
    destruct (sc =? 404)%Z; [cbn; lia|].
    destruct (400 <=? sc)%Z; cbn; lia.
Qed.

Lemma checkSingleLink_errorsOther (l : Link) (s : Stats) :
  errorsOther (snd (checkSingleLink get l s))
  = errorsOther s + errorsOther (snd (checkSingleLink get l resetStats)).
Proof.
  unfold checkSingleLink.
  destruct (get (url l)) as [r|e].
  - destruct (status r =? 404)%Z; [cbn; lia|].
    destruct (400 <=? status r)%Z; cbn; lia.
  - destruct (is_timeout_code (code e)); [cbn; lia|].
    destruct (response e) as [sc|]; [|cbn; lia].
    destruct (sc =? 404)%Z; [cbn; lia|].
    destruct (400 <=? sc)%Z; cbn; lia.
Qed.

Lemma errorsOther_bounds (l : Link) :
  (if Category_eqb (category (verdict get l)) warning then 1 else 0)
  <= errorsOther (snd (checkSingleLink get l resetStats))
  /\ errorsOther (snd (checkSingleLink get l resetStats))
     <= (if Category_eqb (category (verdict get l)) warning then 1 else 0)
        + (if Category_eqb (category (verdict get l)) error then 1 else 0).
Proof.
  unfold verdict, checkSingleLink.
  destruct (get (url l)) as [r|e].
  - destruct (status r =? 404)%Z; [cbn; lia|].
    destruct (400 <=? status r)%Z; cbn; lia.
  - destruct (is_timeout_code (code e)); [cbn; lia|].
    destruct (response e) as [sc|]; [|cbn; lia].
    destruct (sc =? 404)%Z; [cbn; lia|].
    destruct (400 <=? sc)%Z; cbn; lia.
Qed.

Lemma checkSingleLink_pages (l : Link) (s : Stats) :
  pagesScanned (snd (checkSingleLink get l s)) = pagesScanned s
  /\ linksChecked (snd (checkSingleLink get l s)) = linksChecked s.
Proof.
  unfold checkSingleLink.
  destruct (get (url l)) as [r|e].
  - destruct (status r =? 404)%Z; [done|].
    by destruct (400 <=? status r)%Z.
  - destruct (is_timeout_code (code e)); [done|].
    destruct (response e) as [sc|]; [|done].
    destruct (sc =? 404)%Z; [done|].
    by destruct (400 <=? sc)%Z.
Qed.

Lemma processor_snd (l : Link) (s : Stats) :
  snd (processor get l s) = snd (checkSingleLink get l s).
Proof. unfold processor. by destruct (checkSingleLink get l s). Qed.

Lemma sum_count {A B} (f : A -> B) (p : B -> bool) (l : list A) :
  sum_list_with (fun x => if p (f x) then 1 else 0) l = count p (map f l).
Proof.
  unfold count. induction l as [|x l IH]; cbn; [done|].
  rewrite IH. by destruct (p (f x)).
Qed.

Lemma sum_zero {A} (l : list A) : sum_list_with (fun _ => 0) l = 0.
Proof. by induction l. Qed.

Lemma sum_le {A} (f g : A -> nat) (l : list A) :
  (forall x, f x <= g x) -> sum_list_with f l <= sum_list_with g l.
Proof.
  intros H. induction l as [|x l IH]; cbn; [done|]. specialize (H x). lia.
Qed.

Lemma sum_plus {A} (f g : A -> nat) (l : list A) :
  sum_list_with (fun x => f x + g x) l = sum_list_with f l + sum_list_with g l.
Proof. induction l as [|x l IH]; cbn; [done|]. lia. Qed.

(** A counter [m] to which every check adds [w] gains the sum of [w]
    over the links of the batch run. *)
Lemma checkLinksInBatch_measure (m : Stats -> nat) (w : Link -> nat) :
  (forall l s, m (snd (checkSingleLink get l s)) = m s + w l) ->
  forall fuel mc links s r s',
    checkLinksInBatch get completion fuel mc links s = Some (r, s') ->
    m s' = m s + sum_list_with w links.
Proof.
  intros Hadd fuel mc links s r s'. unfold checkLinksInBatch.
  destruct links as [|l links]; [intros [= <- <-]; cbn; lia|].
  destruct (Utils.processConcurrent (processor get) completion fuel
              (l :: links) mc s) as [[results s1]|] eqn:Hrun; [|discriminate].
  intros [= <- <-].
  apply (processConcurrent_measure (processor get) completion m w) in Hrun;
    [done| |done].
  intros y t. rewrite processor_snd. apply Hadd.
Qed.

(** The counters after the checks of a page, in terms of the verdicts. *)
Lemma checkLinksInBatch_counters (fuel : nat) (mc : Z) (links : list Link)
    (s : Stats) (r : list CheckedLink) (s' : Stats) :
  checkLinksInBatch get completion fuel mc links s = Some (r, s') ->
  r = map (verdict get) links
  /\ pagesScanned s' = pagesScanned s
  /\ linksChecked s' = linksChecked s
  /\ errors404 s' = errors404 s
                    + count (fun c => Category_eqb (category c) broken) r
  /\ timeouts s' = timeouts s
                   + count (fun c => Category_eqb (category c) timeout) r
  /\ errorsOther s + count (fun c => Category_eqb (category c) warning) r
     <= errorsOther s'
  /\ errorsOther s'
     <= errorsOther s + count (fun c => Category_eqb (category c) warning) r
        + count (fun c => Category_eqb (category c) error) r.
Proof.
  intros H.
  pose proof (checkLinksInBatch_result get completion _ _ _ _ _ _
                completion_perm H) as ->.
  split; [done|].
  pose proof (checkLinksInBatch_measure pagesScanned (fun _ => 0)
                (fun l s => eq_trans (proj1 (checkSingleLink_pages l s))
                                     (eq_sym (Nat.add_0_r _)))
                _ _ _ _ _ _ H) as H1.
  pose proof (checkLinksInBatch_measure linksChecked (fun _ => 0)
                (fun l s => eq_trans (proj2 (checkSingleLink_pages l s))
                                     (eq_sym (Nat.add_0_r _)))
                _ _ _ _ _ _ H) as H2.
  pose proof (checkLinksInBatch_measure errors404 _ checkSingleLink_errors404
                _ _ _ _ _ _ H) as H3.
  pose proof (checkLinksInBatch_measure timeouts _ checkSingleLink_timeouts
                _ _ _ _ _ _ H) as H4.
  pose proof (checkLinksInBatch_measure errorsOther _ checkSingleLink_errorsOther
                _ _ _ _ _ _ H) as H5.
  rewrite sum_zero in H1, H2.
  rewrite (sum_count (verdict get)
             (fun c => Category_eqb (category c) broken)) in H3.
  rewrite (sum_count (verdict get)
             (fun c => Category_eqb (category c) timeout)) in H4.
  pose proof (sum_le _ _ links (fun l => proj1 (errorsOther_bounds l))) as Hlo.
  pose proof (sum_le _ _ links (fun l => proj2 (errorsOther_bounds l))) as Hhi.
  rewrite sum_plus in Hhi.
  rewrite (sum_count (verdict get)
             (fun c => Category_eqb (category c) warning)) in Hlo, Hhi.
  rewrite (sum_count (verdict get)
             (fun c => Category_eqb (category c) error)) in Hhi.
  repeat split; lia.
Qed.
Lemma count_app {A} (p : A -> bool) (l1 l2 : list A) :
  count p (l1 ++ l2) = count p l1 + count p l2.
Proof. unfold count. by rewrite List.filter_app, List.length_app. Qed.

Lemma compile_totalLinks (checked : list CheckedLink) :
  forall sm,
    totalLinks (fold_left compile checked sm) = totalLinks sm + length checked
    /\ s_errorsOther (fold_left compile checked sm) = s_errorsOther sm
    /\ s_timeouts (fold_left compile checked sm) = s_timeouts sm.
Proof.
  induction checked as [|l checked IH]; intros sm; cbn [fold_left length].
  - repeat split. lia.
  - destruct (IH (compile sm l)) as (-> & -> & ->). cbn. repeat split. lia.
Qed.

(** One page: the record returned and the counters after it. *)
Lemma scanSinglePage_page (x : LinkExtractor.t) (fuel : nat) (mc : Z)
    (u : string) (s : Stats) (p : PageResult) (s' : Stats) :
  scanSinglePage get newURL2 load completion x fuel mc u s = Some (p, s') ->
  (pageUrl p = u
   /\ (accessible p = true <-> exists r, get u = Resolved r /\ status r = 200%Z)
   /\ (accessible p = false ->
       links p = [] /\ checkedLinks p = [] /\ stats p = None
       /\ pageError p <> None)
   /\ (accessible p = true ->
       checkedLinks p = map (verdict get) (List.filter toCheck (links p))
       /\ stats p = Some (generatePageStats (links p) (checkedLinks p))
       /\ pageError p = None))
  /\ pagesScanned s' = pagesScanned s + (if accessible p then 1 else 0)
  /\ linksChecked s' = linksChecked s + length (checkedLinks p)
  /\ errors404 s'
     = errors404 s
       + count (fun c => Category_eqb (category c) broken) (checkedLinks p)
  /\ timeouts s'
     = timeouts s
       + count (fun c => Category_eqb (category c) timeout) (checkedLinks p)
  /\ errorsOther s
     + count (fun c => Category_eqb (category c) warning) (checkedLinks p)
     <= errorsOther s'
  /\ errorsOther s'
     <= errorsOther s
        + count (fun c => Category_eqb (category c) warning) (checkedLinks p)
        + count (fun c => Category_eqb (category c) error) (checkedLinks p).
Proof.
  unfold scanSinglePage. destruct (get u) as [r|e] eqn:Hget.
  - destruct (Z.eqb_spec (status r) 200) as [E|N]; cbn [negb].
    + destruct (checkLinksInBatch get completion fuel mc _ s)
        as [[checked s1]|] eqn:Hrun; [|discriminate].
      intros [= <- <-]. cbn.
      destruct (checkLinksInBatch_counters _ _ _ _ _ _ Hrun)
        as (Hr & H1 & H2 & H3 & H4 & H5 & H6).
      repeat split; try done; try lia.
      by exists r.
    + intros [= <- <-]. cbn. repeat split; try done; try lia.
      intros (r' & [= <-] & Hr'). done.
  - intros [= <- <-]. cbn. repeat split; try done; try lia.
    intros (r' & Hr' & _). discriminate.
Qed.

(** The loop over the pages. *)
Lemma scanPages_pages (x : LinkExtractor.t) (fuel : nat) (mc : Z)
    (urls : list string) :
  forall acc sm s pages' sm' s',
    scanPages get newURL2 load completion x fuel mc urls acc sm s
    = Some (pages', sm', s') ->
    exists new,
      pages' = acc ++ new
      /\ map pageUrl new = urls
      /\ Forall (fun p =>
           (accessible p = true
            <-> exists r, get (pageUrl p) = Resolved r /\ status r = 200%Z)
           /\ (accessible p = false ->
               links p = [] /\ checkedLinks p = [] /\ stats p = None
               /\ pageError p <> None)
           /\ (accessible p = true ->
               checkedLinks p
               = map (verdict get) (List.filter toCheck (links p))
               /\ stats p = Some (generatePageStats (links p) (checkedLinks p))
               /\ pageError p = None)) new
      /\ totalLinks sm'
         = totalLinks sm + length (concat (map checkedLinks new))
      /\ s_errorsOther sm' = s_errorsOther sm
      /\ s_timeouts sm' = s_timeouts sm.
Proof.
  induction urls as [|u urls IH]; intros acc sm s pages' sm' s' H;
    cbn [scanPages] in H.
  - injection H as <- <- <-. exists []. rewrite app_nil_r. cbn.
    repeat split; [constructor|lia].
  - destruct (scanSinglePage get newURL2 load completion x fuel mc u s)
      as [[p s1]|] eqn:Hp; [|discriminate].
    apply scanSinglePage_page in Hp as ((Hu & Hacc & Hno & Hyes) & _).
    apply IH in H as (new & -> & Hurls & Hall & Htot & Ho & Ht).
    destruct (compile_totalLinks (checkedLinks p) sm) as (Hc1 & Hc2 & Hc3).
    exists (p :: new). rewrite <- app_assoc. cbn [app map concat].
    rewrite List.length_app, Hurls, Hu.
    repeat split; try congruence; try lia.
    constructor; [|done]. rewrite Hu. done.
Qed.

Lemma scanPages_counters (x : LinkExtractor.t) (fuel : nat) (mc : Z)
    (urls : list string) :
  forall acc sm s pages' sm' s',
    scanPages get newURL2 load completion x fuel mc urls acc sm s
    = Some (pages', sm', s') ->
    exists new,
      pages' = acc ++ new
      /\ pagesScanned s' = pagesScanned s + count accessible new
      /\ linksChecked s'
         = linksChecked s + length (concat (map checkedLinks new))
      /\ errors404 s'
         = errors404 s
           + count (fun c => Category_eqb (category c) broken)
                   (concat (map checkedLinks new))
      /\ timeouts s'
         = timeouts s
           + count (fun c => Category_eqb (category c) timeout)
                   (concat (map checkedLinks new))
      /\ errorsOther s
         + count (fun c => Category_eqb (category c) warning)
                 (concat (map checkedLinks new))
         <= errorsOther s'
      /\ errorsOther s'
         <= errorsOther s
            + count (fun c => Category_eqb (category c) warning)
                    (concat (map checkedLinks new))
            + count (fun c => Category_eqb (category c) error)
                    (concat (map checkedLinks new)).
Proof.
  induction urls as [|u urls IH]; intros acc sm s pages' sm' s' H;
    cbn [scanPages] in H.
  - injection H as <- <- <-. exists []. rewrite app_nil_r. cbn.
    repeat split; lia.
  - destruct (scanSinglePage get newURL2 load completion x fuel mc u s)
      as [[p s1]|] eqn:Hp; [|discriminate].
    apply scanSinglePage_page in Hp as (_ & H1 & H2 & H3 & H4 & H5 & H6).
    apply IH in H as (new & -> & G1 & G2 & G3 & G4 & G5 & G6).
    exists (p :: new). rewrite <- app_assoc. cbn [app map concat].
    rewrite List.length_app, !count_app.
    assert (count accessible (p :: new)
            = (if accessible p then 1 else 0) + count accessible new) as ->.
    { unfold count. cbn. by destruct (accessible p). }
    repeat split; try done; lia.
Qed.

(** Every checked link of a scan is a verdict. *)
Lemma scanPages_verdicts (ps : list PageResult) :
  Forall (fun p =>
    (accessible p = true
     <-> exists r, get (pageUrl p) = Resolved r /\ status r = 200%Z)
    /\ (accessible p = false ->
        links p = [] /\ checkedLinks p = [] /\ stats p = None
        /\ pageError p <> None)
    /\ (accessible p = true ->
        checkedLinks p = map (verdict get) (List.filter toCheck (links p))
        /\ stats p = Some (generatePageStats (links p) (checkedLinks p))
        /\ pageError p = None)) ps ->
  Forall (fun c => c = verdict get (link c)) (concat (map checkedLinks ps)).
Proof.
  induction 1 as [|p ps (Hacc & Hno & Hyes) _ IH]; cbn; [constructor|].
  apply Forall_app. split; [|done].
  destruct (accessible p).
  - destruct (Hyes eq_refl) as (-> & _). apply Forall_forall.
    intros c Hc. apply list_elem_of_fmap in Hc as (l & -> & _).
    pose proof (checkSingleLink_link get l resetStats) as Hl.
    fold (verdict get l) in Hl. by rewrite Hl.
  - destruct (Hno eq_refl) as (_ & -> & _). constructor.
Qed.

Lemma filter_is404_verdicts (cs : list CheckedLink) :
  Forall (fun c => c = verdict get (link c)) cs ->
  List.filter is404 cs
  = List.filter (fun c => Category_eqb (category c) broken) cs.
Proof.
  induction 1 as [|c cs Hc _ IH]; cbn [List.filter]; [done|].
  assert (is404 c = Category_eqb (category c) broken) as ->
    by (rewrite Hc; apply verdict_is404).
  by rewrite IH.
Qed.
End Scan.

(** X9. A scan that returns has one page record per URL given, in the
    order given.  A page is accessible exactly when its GET answered 200;
    a page that is not carries no links, no checked links, no statistics,
    and an error text; an accessible page carries the verdicts on the
    links selected for verification, in extraction order, and the
    statistics of these.  The summary counts every checked link, and its
    lists of other errors and of time-outs stay empty. *)
Theorem scanWebsite_pages (get : string -> LinkChecker.GetOutcome)
    {P : Platform.t}
    (newURL2 : string -> string -> option (Platform.obj P))
    (load : string -> list LinkExtractor.Element)
    (completion : list LinkExtractor.Link -> list nat)
    (x : LinkExtractor.t) (fuel : nat) (mc : Z) (urls : list string)
    (res : LinkChecker.ScanResults) :
  (forall batch, completion batch ≡ₚ seq 0 (length batch)) ->
  LinkChecker.scanWebsite get newURL2 load completion x fuel mc urls
  = Some res ->
  LinkChecker.totalPages res = length urls
  /\ map LinkChecker.pageUrl (LinkChecker.pages res) = urls
  /\ Forall (fun p =>
       (LinkChecker.accessible p = true
        <-> exists r, get (LinkChecker.pageUrl p) = LinkChecker.Resolved r
                      /\ LinkChecker.status r = 200%Z)
       /\ (LinkChecker.accessible p = false ->
           LinkChecker.links p = [] /\ LinkChecker.checkedLinks p = []
           /\ LinkChecker.stats p = None /\ LinkChecker.pageError p <> None)
       /\ (LinkChecker.accessible p = true ->
           LinkChecker.checkedLinks p
           = map (LinkChecker.verdict get)
                 (List.filter LinkChecker.toCheck (LinkChecker.links p))
           /\ LinkChecker.stats p
              = Some (LinkChecker.generatePageStats (LinkChecker.links p)
                        (LinkChecker.checkedLinks p))
           /\ LinkChecker.pageError p = None))
       (LinkChecker.pages res)
  /\ LinkChecker.totalLinks (LinkChecker.summary res)
     = length (concat (map LinkChecker.checkedLinks (LinkChecker.pages res)))
  /\ LinkChecker.s_errorsOther (LinkChecker.summary res) = []
  /\ LinkChecker.s_timeouts (LinkChecker.summary res) = [].
Proof.
  intros Hperm. unfold LinkChecker.scanWebsite.
  destruct (LinkChecker.scanPages get newURL2 load completion x fuel mc urls []
              (LinkChecker.mkSummary 0 [] [] []) LinkChecker.resetStats)
    as [[[ps sm] s]|] eqn:Hscan; [|discriminate].
  intros [= <-]. cbn.
  apply (scanPages_pages get newURL2 load completion Hperm) in Hscan
    as (new & -> & Hurls & Hall & Htot & Ho & Ht).
  cbn in *. done.
Qed.

Lemma scanWebsite_pages_witness :
  exists res,
    LinkChecker.scanWebsite Fixture.get Fixture.newURL2 Fixture.load
      Fixture.completion LinkExtractor.new 5 10 [Fixture.front] = Some res
    /\ map LinkChecker.pageUrl (LinkChecker.pages res) = [Fixture.front]
    /\ LinkChecker.totalLinks (LinkChecker.summary res)
       = length (concat (map LinkChecker.checkedLinks (LinkChecker.pages res))).
Proof.
  destruct (LinkChecker.scanWebsite Fixture.get Fixture.newURL2 Fixture.load
              Fixture.completion LinkExtractor.new 5 10 [Fixture.front])
    as [res|] eqn:Hscan; [|vm_compute in Hscan; discriminate].
  exists res. split; [reflexivity|].
  destruct (scanWebsite_pages _ _ _ _ _ _ _ _ _ Fixture_completion_perm Hscan)
    as (_ & Hurls & _ & Htot & _).
  by split.
Defined.

(** X10. The counters of a scan agree with its records, in whatever
    order the checks of a batch complete: [errors404] is the length of the
    404 list of the summary and the number of checked links classified
    [broken]; [timeouts] is the number classified [timeout];
    [linksChecked] is the total of the summary; [pagesScanned] counts the
    accessible pages only; [errorsOther] lies between the number of
    [warning] links and that number plus the number of [error] links. *)
Theorem scanWebsite_counters (get : string -> LinkChecker.GetOutcome)
    {P : Platform.t}
    (newURL2 : string -> string -> option (Platform.obj P))
    (load : string -> list LinkExtractor.Element)
    (completion : list LinkExtractor.Link -> list nat)
    (x : LinkExtractor.t) (fuel : nat) (mc : Z) (urls : list string)
    (res : LinkChecker.ScanResults) :
  (forall batch, completion batch ≡ₚ seq 0 (length batch)) ->
  LinkChecker.scanWebsite get newURL2 load completion x fuel mc urls
  = Some res ->
  let all := concat (map LinkChecker.checkedLinks (LinkChecker.pages res)) in
  let has k c := LinkChecker.Category_eqb (LinkChecker.category c) k in
  let st := LinkChecker.scanStats res in
  LinkChecker.errors404 st
  = length (LinkChecker.s_errors404 (LinkChecker.summary res))
  /\ LinkChecker.errors404 st = LinkChecker.count (has LinkChecker.broken) all
  /\ LinkChecker.timeouts st = LinkChecker.count (has LinkChecker.timeout) all
  /\ LinkChecker.linksChecked st
     = LinkChecker.totalLinks (LinkChecker.summary res)
  /\ LinkChecker.pagesScanned st
     = LinkChecker.count LinkChecker.accessible (LinkChecker.pages res)
  /\ LinkChecker.count (has LinkChecker.warning) all
     <= LinkChecker.errorsOther st
  /\ LinkChecker.errorsOther st
     <= LinkChecker.count (has LinkChecker.warning) all
        + LinkChecker.count (has LinkChecker.error) all.
Proof.
  intros Hperm. unfold LinkChecker.scanWebsite.
  destruct (LinkChecker.scanPages get newURL2 load completion x fuel mc urls []
              (LinkChecker.mkSummary 0 [] [] []) LinkChecker.resetStats)
    as [[[ps sm] s]|] eqn:Hscan; [|discriminate].
  intros [= <-]. cbn.
  destruct (scanPages_pages get newURL2 load completion Hperm _ _ _ _ _ _ _ _ _ _
              Hscan) as (new1 & -> & _ & Hall & Htot & _).
  destruct (scanPages_errors404 _ _ _ _ _ _ _ _ _ _ _ _ _ _ Hscan)
    as (new2 & E2 & Herr).
  destruct (scanPages_counters get newURL2 load completion Hperm _ _ _ _ _ _ _ _ _ _
              Hscan) as (new3 & E3 & G1 & G2 & G3 & G4 & G5 & G6).
  cbn in E2, E3. subst new2 new3. cbn in *.
  assert (List.filter LinkChecker.is404 (concat (map LinkChecker.checkedLinks new1))
          = List.filter (fun c => LinkChecker.Category_eqb (LinkChecker.category c)
                                    LinkChecker.broken)
              (concat (map LinkChecker.checkedLinks new1))) as Hsame.
  { apply filter_is404_verdicts with get, scanPages_verdicts, Hall. }
  rewrite Herr, length_map, Hsame.
  repeat split; try done; lia.
Qed.

Lemma scanWebsite_counters_witness :
  exists res,
    LinkChecker.scanWebsite Fixture.get Fixture.newURL2 Fixture.load
      Fixture.completion LinkExtractor.new 5 10 [Fixture.front] = Some res
    /\ LinkChecker.errors404 (LinkChecker.scanStats res)
       = length (LinkChecker.s_errors404 (LinkChecker.summary res))
    /\ LinkChecker.errors404 (LinkChecker.scanStats res) = 1.
Proof.
  destruct (LinkChecker.scanWebsite Fixture.get Fixture.newURL2 Fixture.load
              Fixture.completion LinkExtractor.new 5 10 [Fixture.front])
    as [res|] eqn:Hscan; [|vm_compute in Hscan; discriminate].
  exists res. split; [reflexivity|].
  destruct (scanWebsite_counters _ _ _ _ _ _ _ _ _ Fixture_completion_perm Hscan)
    as (H1 & _).
  split; [exact H1|].
  vm_compute in Hscan. injection Hscan as <-. reflexivity.
Defined.

(** ** SitemapFetcher: the URLs a sitemap yields *)

Section Trim.
Import JS.

Lemma trimEnd_cons (c : ascii) (s : string) :
  trimEnd (String c s)
  = match trimEnd s with
    | EmptyString => if is_space c then EmptyString else String c EmptyString
    | r => String c r
    end.
Proof. reflexivity. Qed.

Lemma trimEnd_idem (s : string) : trimEnd (trimEnd s) = trimEnd s.
Proof.
  induction s as [|c s IH]; [done|].
  rewrite trimEnd_cons. destruct (trimEnd s) as [|d r] eqn:Hr.
  - destruct (is_space c) eqn:Hc; [done|]. cbn [trimEnd]. by rewrite Hc.
  - rewrite trimEnd_cons. by rewrite IH.
Qed.

Lemma startsWith_trimEnd (p s : string) :
  all_chars (non is_space) p = true ->
  startsWith p s = true -> startsWith p (trimEnd s) = true.
Proof.
  revert s. induction p as [|a p IH]; intros s Hp Hs; [done|].
  destruct s as [|c s]; [done|].
  cbn [startsWith] in Hs. cbn [all_chars] in Hp.
  apply andb_true_iff in Hp as [Ha Hp].
  destruct (Ascii.eqb_spec a c) as [<-|]; [|done].
  specialize (IH s Hp Hs).
  rewrite trimEnd_cons. destruct (trimEnd s) as [|d r] eqn:Hr.
  - unfold non in Ha. apply negb_true_iff in Ha. rewrite Ha.
    cbn [startsWith]. rewrite Ascii.eqb_refl.
    by destruct p.
  - cbn [startsWith]. by rewrite Ascii.eqb_refl.
Qed.

Lemma trimStart_http (s : string) :
  startsWith "http" s = true -> trimStart s = s.
Proof.
  destruct s as [|c s]; [done|]. cbn [startsWith trimStart].
  destruct (Ascii.eqb_spec "h" c) as [<-|]; [|done]. done.
Qed.

Lemma trim_http (s : string) :
  startsWith "http" s = true ->
  startsWith "http" (trim s) = true /\ trim (trim s) = trim s.
Proof.
  intros H. unfold trim. rewrite (trimStart_http s H).
  assert (startsWith "http" (trimEnd s) = true) as H'
    by (by apply startsWith_trimEnd).
  split; [done|]. by rewrite (trimStart_http _ H'), trimEnd_idem.
Qed.
End Trim.

Section Fetcher.
Import JS SitemapFetcher.

Lemma validUrls_valid (urls : list string) :
  Forall (fun u => startsWith "http" u = true /\ trim u = u) (validUrls urls).
Proof.
  unfold validUrls. apply Forall_forall. intros u Hu.
  apply list_elem_of_fmap in Hu as (v & -> & Hv).
  apply list_elem_of_In, filter_In in Hv as [_ Hv].
  by apply trim_http.
Qed.

Lemma validUrls_fixed (urls : list string) :
  Forall (fun u => startsWith "http" u = true /\ trim u = u) urls ->
  validUrls urls = urls.
Proof.
  unfold validUrls. induction 1 as [|u urls [Hh Ht] _ IH]; [done|].
  cbn [List.filter].
  assert (URL.is_empty u = false) as -> by (by destruct u).
  cbn [negb List.filter]. rewrite Hh. cbn [map]. by rewrite Ht, IH.
Qed.

Variable download : option string -> option string.
Variable parseXml : string -> option Parsed.

Lemma fetchSitemap_Forall (fuel : nat) (u : option string) (urls : list string) :
  fetchSitemap download parseXml fuel u = Some (inl urls) ->
  Forall (fun u => startsWith "http" u = true /\ trim u = u) urls.
Proof.
  destruct fuel as [|fuel]; [done|]. cbn [fetchSitemap].
  destruct (download u) as [data|]; [|done].
  destruct (parseXml data) as [[entries|sitemaps|]|]; [| | |done].
  - intros [= <-]. apply validUrls_valid.
  - destruct (subSitemaps _ sitemaps []); [done|done|].
    intros [= <-]. apply validUrls_valid.
  - intros [= <-]. apply validUrls_valid.
Qed.

(** The loop over the sub-sitemaps that all return. *)
Lemma subSitemaps_collected (fetch : option string -> option (list string + string))
    (locs : list Loc) (rs : list (list string + string)) :
  Forall2 (fun loc r => fetch (locText loc) = Some r) locs rs ->
  forall urls,
    subSitemaps fetch (map Some locs) urls
    = Collected
        (urls ++ concat (map (fun r => match r with
                                       | inl l => l
                                       | inr _ => []
                                       end) rs)).
Proof.
  induction 1 as [|loc r locs rs Hr _ IH]; intros urls; cbn.
  - by rewrite app_nil_r.
  - rewrite Hr. destruct r as [l|msg]; rewrite IH; [|done].
    by rewrite <- app_assoc.
Qed.

(** The loop does not end when one of the sub-sitemaps does not return
    and the entries before it have a [loc]. *)
Lemma subSitemaps_pending (fetch : option string -> option (list string + string))
    (pre : list Loc) (loc : Loc) (post : list (option Loc)) :
  fetch (locText loc) = None ->
  forall urls,
    subSitemaps fetch (map Some pre ++ Some loc :: post) urls = Pending.
Proof.
  intros Hloc. induction pre as [|p pre IH]; intros urls; cbn.
  - by rewrite Hloc.
  - destruct (fetch (locText p)) as [[l|msg]|]; [apply IH|apply IH|done].
Qed.
End Fetcher.

(** X11. Every URL [fetchSitemap] returns, from a standard sitemap or
    through any nesting of sitemap indexes, begins with the characters
    http and has no white space at either end. *)
Theorem fetchSitemap_valid (download : option string -> option string)
    (parseXml : string -> option SitemapFetcher.Parsed)
    (fuel : nat) (sitemapUrl : option string) (urls : list string) :
  SitemapFetcher.fetchSitemap download parseXml fuel sitemapUrl
  = Some (inl urls) ->
  Forall (fun u => JS.startsWith "http" u = true /\ JS.trim u = u) urls.
Proof. apply fetchSitemap_Forall. Qed.

Lemma fetchSitemap_valid_witness :
  SitemapFetcher.fetchSitemap Fixture.download Fixture.parseXml 2
    (Some "https://example.com/sitemap.xml")
  = Some (inl ["https://example.com/"])
  /\ Forall (fun u => JS.startsWith "http" u = true /\ JS.trim u = u)
            ["https://example.com/"].
Proof.
  split; [reflexivity|].
  apply (fetchSitemap_valid Fixture.download Fixture.parseXml 2
           (Some "https://example.com/sitemap.xml")).
  reflexivity.
Defined.

(** X12. For a sitemap index whose entries all have a [loc] and whose
    sub-sitemaps all return, [fetchSitemap] returns the URLs of the
    sub-sitemaps that succeeded, joined in the order of the index; a
    sub-sitemap that failed is skipped and contributes nothing. *)
Theorem fetchSitemap_index (download : option string -> option string)
    (parseXml : string -> option SitemapFetcher.Parsed)
    (fuel : nat) (sitemapUrl : option string) (data : string)
    (locs : list SitemapFetcher.Loc) (rs : list (list string + string)) :
  download sitemapUrl = Some data ->
  parseXml data = Some (SitemapFetcher.SitemapIndex (map Some locs)) ->
  Forall2 (fun loc r =>
             SitemapFetcher.fetchSitemap download parseXml fuel
               (SitemapFetcher.locText loc) = Some r) locs rs ->
  SitemapFetcher.fetchSitemap download parseXml (S fuel) sitemapUrl
  = Some (inl (concat (map (fun r => match r with
                                     | inl l => l
                                     | inr _ => []
                                     end) rs))).
Proof.
  intros Hd Hp Hsub. cbn [SitemapFetcher.fetchSitemap]. rewrite Hd, Hp.
  rewrite (subSitemaps_collected _ locs rs Hsub). cbn [app].
  do 2 f_equal. apply validUrls_fixed.
  clear Hd Hp. induction Hsub as [|loc r locs rs Hr _ IH]; cbn; [constructor|].
  apply Forall_app. split; [|done].
  destruct r as [l|msg]; [|constructor].
  exact (fetchSitemap_Forall download parseXml _ _ _ Hr).
Qed.

Lemma fetchSitemap_index_witness :
  SitemapFetcher.fetchSitemap Fixture.download Fixture.parseXml 2
    (Some "https://example.com/sitemap.xml")
  = Some (inl (concat [[]; ["https://example.com/"]])).
Proof.
  apply (fetchSitemap_index Fixture.download Fixture.parseXml 1
           (Some "https://example.com/sitemap.xml") "index"
           [SitemapFetcher.LocText "https://example.com/gone.xml";
            SitemapFetcher.LocObject (Some "https://example.com/pages.xml")]
           [inr (SitemapFetcher.failure (Some "https://example.com/gone.xml"));
            inl ["https://example.com/"]]).
  - reflexivity.
  - reflexivity.
  - repeat constructor.
Defined.

(** X13. A sitemap index that lists its own address, after entries that
    all have a [loc], is fetched again and again: [fetchSitemap] never
    returns on it. *)
Theorem fetchSitemap_cycle (download : option string -> option string)
    (parseXml : string -> option SitemapFetcher.Parsed)
    (sitemapUrl : option string) (data : string)
    (pre : list SitemapFetcher.Loc) (loc : SitemapFetcher.Loc)
    (post : list (option SitemapFetcher.Loc)) :
  download sitemapUrl = Some data ->
  parseXml data
  = Some (SitemapFetcher.SitemapIndex (map Some pre ++ Some loc :: post)) ->
  SitemapFetcher.locText loc = sitemapUrl ->
  forall fuel,
    SitemapFetcher.fetchSitemap download parseXml fuel sitemapUrl = None.
Proof.
  intros Hd Hp Hloc. induction fuel as [|fuel IH]; [done|].
  cbn [SitemapFetcher.fetchSitemap]. rewrite Hd, Hp.
  rewrite subSitemaps_pending; [done|]. by rewrite Hloc.
Qed.

Lemma fetchSitemap_cycle_witness :
  SitemapFetcher.fetchSitemap
    (fun _ => Some "index")
    (fun _ => Some (SitemapFetcher.SitemapIndex
                      [Some (SitemapFetcher.LocText "https://example.com/sitemap.xml")]))
    7 (Some "https://example.com/sitemap.xml") = None.
Proof.
  apply (fetchSitemap_cycle _ _ (Some "https://example.com/sitemap.xml")
           "index" [] (SitemapFetcher.LocText "https://example.com/sitemap.xml") []);
    reflexivity.
Defined.

(** ** utils: the line of an element *)

Section Lines.
Import JS Utils.

Lemma includes_empty (s : string) : includes "" s = true.
Proof. by destruct s. Qed.

Lemma findLine_first (clean : string) (lines : list string) :
  forall i,
    match findLine clean lines i with
    | 0 =>
        Forall (fun line => includes clean line
                            || includes clean (collapseSpaces line) = false)
               lines
    | S n =>
        exists k,
          n = i + k
          /\ k < length lines
          /\ option_map (fun line => includes clean line
                                     || includes clean (collapseSpaces line))
                        (lines !! k) = Some true
          /\ Forall (fun line => includes clean line
                                 || includes clean (collapseSpaces line) = false)
                    (take k lines)
    end.
Proof.
  induction lines as [|line lines IH]; intros i; cbn [findLine].
  - constructor.
  - destruct (includes clean line || includes clean (collapseSpaces line))
      eqn:Hline.
    + replace (i + 1) with (S i) by lia. exists 0. cbn.
      rewrite Hline. repeat split; [lia|lia|constructor].
    + specialize (IH (i + 1)).
      destruct (findLine clean lines (i + 1)) as [|n].
      * by constructor.
      * destruct IH as (k & -> & Hk & Hat & Hbefore).
        exists (S k). cbn. repeat split; [lia|lia|done|by constructor].
Qed.
End Lines.

(** X14. [findLineNumber] returns the 1-based number of the first line of
    the page that contains the element, as it is or with its white space
    collapsed; it returns 0 exactly when no line does.  An empty element
    is reported on line 1. *)
Theorem findLineNumber_first (html element : string) :
  let lines := JS.split "010" html in
  let clean := JS.trim (Utils.collapseSpaces element) in
  let found line :=
    JS.includes clean line || JS.includes clean (Utils.collapseSpaces line) in
  match Utils.findLineNumber html element with
  | 0 => Forall (fun line => found line = false) lines
  | S k =>
      k < length lines
      /\ option_map found (lines !! k) = Some true
      /\ Forall (fun line => found line = false) (take k lines)
  end
  /\ Utils.findLineNumber html "" = 1.
Proof.
  cbn zeta. split.
  - unfold Utils.findLineNumber.
    pose proof (findLine_first (JS.trim (Utils.collapseSpaces element))
                  (JS.split "010" html) 0) as H.
    destruct (Utils.findLine _ _ 0) as [|n]; [done|].
    destruct H as (k & -> & H). exact H.
  - unfold Utils.findLineNumber.
    pose proof (split_not_nil "010" html) as Hne.
    destruct (JS.split "010" html) as [|line lines]; [done|].
    cbn [Utils.findLine]. change (JS.trim (Utils.collapseSpaces "")) with "".
    by rewrite includes_empty.
Qed.


(** A no-break space counts as white space: the element [a b] is found on
    the second line, where a no-break space separates the two letters. *)
Lemma findLineNumber_no_break_space :
  Utils.findLineNumber
    (String "x" (String "010" (String "a" (String "160" "b")))) "a b" = 2.
Proof. reflexivity. Qed.
(** ** The check-links handler: the pages scanned and the report *)

(** X15. The pages to scan are the first pages of the cleaned list: all of
    them when no limit is given or the limit is 0, the first [n] for a
    limit [n] above 0, and all but the last [-n] for a limit below 0. *)
Theorem urlsToScan_take (maxPages : option Z) (cleanUrls : list string) :
  CheckLinks.urlsToScan maxPages cleanUrls
  = take (match maxPages with
          | None => length cleanUrls
          | Some n =>
              if (n =? 0)%Z then length cleanUrls
              else if (n <? 0)%Z then length cleanUrls - Z.to_nat (- n)
              else Z.to_nat n
          end) cleanUrls.
Proof.
  unfold CheckLinks.urlsToScan.
  destruct maxPages as [n|]; [|by rewrite firstn_all].
  destruct (Z.eqb_spec n 0) as [->|Hn]; [by rewrite firstn_all|].
  unfold Utils.slice, Utils.clamp_index.
  change (0 <? 0)%Z with false. cbn match.
  rewrite (Z.min_l 0) by apply Nat2Z.is_nonneg.
  change (drop (Z.to_nat 0) cleanUrls) with cleanUrls.
  destruct (Z.ltb_spec n 0) as [Hneg|Hpos].
  - f_equal. lia.
  - rewrite Z.sub_0_r.
    destruct (Z.le_ge_cases n (Z.of_nat (length cleanUrls))) as [Hle|Hge].
    + by rewrite Z.min_l by lia.
    + rewrite Z.min_r by lia. rewrite Nat2Z.id.
      rewrite firstn_all. symmetry. apply firstn_all2. lia.
Qed.

(** ** SitemapCleaner: the cleaning report *)

Section Report.
Import JS SitemapCleaner CleaningReport.
Variable P : Platform.t.
Variable c : SitemapCleaner.t.

Lemma countCategories_bounds (urls : list string) :
  forall files lang,
    match countCategories P c urls files lang with
    | Some (files', lang') =>
        Forall (fun url => Platform.newURL P url <> None) urls
        /\ files <= files' <= files + length urls
        /\ lang <= lang' <= lang + length urls
    | None => Exists (fun url => Platform.newURL P url = None) urls
    end.
Proof.
  induction urls as [|url urls IH]; intros files lang; cbn [countCategories].
  - repeat split; [constructor|lia..].
  - unfold isExcludedFile. destruct (Platform.newURL P url) as [u|] eqn:Hu.
    + match goal with
      | |- context [countCategories P c urls ?f ?l] =>
          specialize (IH f l); destruct (countCategories P c urls f l)
            as [[files' lang']|]
      end.
      * destruct IH as (Hall & Hf & Hl). split.
        { constructor; [by rewrite Hu|done]. }
        cbn [length].
        destruct (existsb _ (excludedExtensions c));
          destruct (existsb _ (languagePrefixes c)); lia.
      * by apply Exists_cons_tl.
    + by apply Exists_cons_hd.
Qed.
End Report.

(** X16. Whatever the URL class, [generateReport] throws exactly when
    [new URL] rejects one of the original URLs.  Otherwise it reports the two list lengths and their
    difference, and none of its three category counts exceeds the number
    of original URLs. *)
Theorem generateReport_counts (P : Platform.t) (c : SitemapCleaner.t)
    (originalUrls cleanedUrls : list string) :
  match CleaningReport.generateReport P c originalUrls cleanedUrls with
  | None => Exists (fun url => Platform.newURL P url = None) originalUrls
  | Some r =>
      Forall (fun url => Platform.newURL P url <> None) originalUrls
      /\ CleaningReport.original r = length originalUrls
      /\ CleaningReport.cleaned r = length cleanedUrls
      /\ CleaningReport.removed r
         = (Z.of_nat (length originalUrls) - Z.of_nat (length cleanedUrls))%Z
      /\ CleaningReport.filesRemoved r <= length originalUrls
      /\ CleaningReport.languageNormalized r <= length originalUrls
      /\ CleaningReport.duplicatesRemoved r <= length originalUrls
  end.
Proof.
  unfold CleaningReport.generateReport.
  pose proof (countCategories_bounds P c originalUrls 0 0) as H.
  destruct (CleaningReport.countCategories P c originalUrls 0 0)
    as [[files lang]|]; [|done].
  destruct H as (Hall & Hf & Hl). cbn. repeat split; try done; lia.
Qed.

(** ** LinkChecker: when a scan ends *)

Section Ends.
Import LinkExtractor LinkChecker.
Variable get : string -> GetOutcome.
Context {P : Platform.t}.
Variable newURL2 : string -> string -> option (Platform.obj P).
Variable load : string -> list Element.
Variable completion : list Link -> list nat.

Lemma scanPages_returns (x : LinkExtractor.t) (fuel : nat) (mc : Z)
    (urls : list string) :
  (1 <= mc)%Z ->
  (forall batch, completion batch ≡ₚ seq 0 (length batch)) ->
  (forall u r, In u urls -> get u = Resolved r -> status r = 200%Z ->
     length (List.filter toCheck (extractLinks newURL2 load x (data r) u))
     < fuel) ->
  forall acc sm s,
    exists out, scanPages get newURL2 load completion x fuel mc urls acc sm s
                = Some out.
Proof.
  intros Hmc Hperm. induction urls as [|u urls IH]; intros Hfuel acc sm s;
    cbn [scanPages]; [by eexists|].
  assert (exists p s', scanSinglePage get newURL2 load completion x fuel mc u s
                       = Some (p, s')) as (p & s' & ->).
  { unfold scanSinglePage. destruct (get u) as [r|e] eqn:Hget; [|by eexists _, _].
    destruct (Z.eqb_spec (status r) 200) as [E|N]; cbn [negb];
      [|by eexists _, _].
    destruct (checkLinksInBatch_run get completion fuel mc
                (List.filter toCheck (extractLinks newURL2 load x (data r) u))
                s Hmc) as [s' ->]; [|done|by eexists _, _].
    apply (Hfuel u r); [by left|done|done]. }
  apply IH. intros v r Hv. apply Hfuel. by right.
Qed.

Lemma scanSinglePage_stuck (x : LinkExtractor.t) (mc : Z) (u : string)
    (r : Response) :
  (mc <= 0)%Z ->
  get u = Resolved r -> status r = 200%Z ->
  List.filter toCheck (extractLinks newURL2 load x (data r) u) <> [] ->
  forall fuel s,
    scanSinglePage get newURL2 load completion x fuel mc u s = None.
Proof.
  intros Hmc Hget Hst Hne fuel s. unfold scanSinglePage.
  rewrite Hget, Hst. cbn [Z.eqb Pos.eqb negb].
  unfold checkLinksInBatch.
  destruct (List.filter toCheck (extractLinks newURL2 load x (data r) u))
    as [|l ls]; [done|].
  unfold Utils.processConcurrent. rewrite batches_stuck; [done|done|done|lia].
Qed.

Lemma scanPages_stuck (x : LinkExtractor.t) (fuel : nat) (mc : Z)
    (urls : list string) (u : string) :
  In u urls ->
  (forall s, scanSinglePage get newURL2 load completion x fuel mc u s = None) ->
  forall acc sm s,
    scanPages get newURL2 load completion x fuel mc urls acc sm s = None.
Proof.
  intros Hu Hstuck. induction urls as [|v urls IH]; intros acc sm s; [done|].
  cbn [scanPages]. destruct Hu as [->|Hu].
  - by rewrite Hstuck.
  - destruct (scanSinglePage _ _ _ _ _ _ _ v s) as [[p s']|]; [|done].
    by apply IH.
Qed.
End Ends.

(** X17. With a batch size of at least one, a scan of any list of pages
    ends and returns its results, once the fuel exceeds the number of
    links to verify on each page. *)
Theorem scanWebsite_returns (get : string -> LinkChecker.GetOutcome)
    {P : Platform.t}
    (newURL2 : string -> string -> option (Platform.obj P))
    (load : string -> list LinkExtractor.Element)
    (completion : list LinkExtractor.Link -> list nat)
    (x : LinkExtractor.t) (fuel : nat) (mc : Z) (urls : list string) :
  (1 <= mc)%Z ->
  (forall batch, completion batch ≡ₚ seq 0 (length batch)) ->
  (forall u r, In u urls -> get u = LinkChecker.Resolved r ->
     LinkChecker.status r = 200%Z ->
     length (List.filter LinkChecker.toCheck
               (LinkExtractor.extractLinks newURL2 load x
                  (LinkChecker.data r) u)) < fuel) ->
  exists res,
    LinkChecker.scanWebsite get newURL2 load completion x fuel mc urls
    = Some res.
Proof.
  intros Hmc Hperm Hfuel. unfold LinkChecker.scanWebsite.
  destruct (scanPages_returns get newURL2 load completion x fuel mc urls
              Hmc Hperm Hfuel [] (LinkChecker.mkSummary 0 [] [] [])
              LinkChecker.resetStats) as [[[ps sm] s] ->].
  by eexists.
Qed.

Lemma scanWebsite_returns_witness :
  exists res,
    LinkChecker.scanWebsite Fixture.get Fixture.newURL2 Fixture.load
      Fixture.completion LinkExtractor.new 5 10 [Fixture.front] = Some res.
Proof.
  apply scanWebsite_returns.
  - lia.
  - apply Fixture_completion_perm.
  - intros u r [<-|[]] Hget _. vm_compute in Hget. injection Hget as <-.
    vm_compute. lia.
Defined.

(** X18. With a batch size of zero or less, a scan never ends as soon as
    one page that answers 200 has a link to verify: the loop over the
    batches does not advance. *)
Theorem scanWebsite_never_returns (get : string -> LinkChecker.GetOutcome)
    {P : Platform.t}
    (newURL2 : string -> string -> option (Platform.obj P))
    (load : string -> list LinkExtractor.Element)
    (completion : list LinkExtractor.Link -> list nat)
    (x : LinkExtractor.t) (mc : Z) (urls : list string)
    (u : string) (r : LinkChecker.Response) :
  (mc <= 0)%Z ->
  In u urls ->
  get u = LinkChecker.Resolved r ->
  LinkChecker.status r = 200%Z ->
  List.filter LinkChecker.toCheck
    (LinkExtractor.extractLinks newURL2 load x (LinkChecker.data r) u) <> [] ->
  forall fuel,
    LinkChecker.scanWebsite get newURL2 load completion x fuel mc urls = None.
Proof.
  intros Hmc Hu Hget Hst Hne fuel. unfold LinkChecker.scanWebsite.
  rewrite (scanPages_stuck get newURL2 load completion x fuel mc urls u Hu);
    [done|].
  intros s. by apply scanSinglePage_stuck with r.
Qed.

Lemma scanWebsite_never_returns_witness :
  LinkChecker.scanWebsite Fixture.get Fixture.newURL2 Fixture.load
    Fixture.completion LinkExtractor.new 9 (-1) [Fixture.front] = None.
Proof.
  apply (scanWebsite_never_returns Fixture.get Fixture.newURL2 Fixture.load
           Fixture.completion LinkExtractor.new (-1) [Fixture.front]
           Fixture.front
           {| LinkChecker.status := 200; LinkChecker.data := Fixture.frontHtml;
              LinkChecker.contentType := Some "text/html";
              LinkChecker.lastModified := None;
              LinkChecker.responseUrl := None; LinkChecker.elapsed := 12 |}).
  - lia.
  - by left.
  - reflexivity.
  - reflexivity.
  - vm_compute. discriminate.
Defined.

(** ** LinkChecker: the 404 list of a scan *)

Section Errors404.
Import LinkExtractor LinkChecker.
Variable get : string -> GetOutcome.
Context {P : Platform.t}.
Variable newURL2 : string -> string -> option (Platform.obj P).
Variable load : string -> list Element.
Variable completion : list Link -> list nat.

(** The page records come one per URL given, in the order given. *)
Lemma scanPages_pageUrls (x : LinkExtractor.t) (fuel : nat) (mc : Z)
    (urls : list string) :
  forall acc sm s pages' sm' s',
    scanPages get newURL2 load completion x fuel mc urls acc sm s
    = Some (pages', sm', s') ->
    exists new, pages' = acc ++ new /\ map pageUrl new = urls.
Proof.
  induction urls as [|u urls IH]; intros acc sm s pages' sm' s' H;
    cbn [scanPages] in H.
  - injection H as <- <- <-. exists []. by rewrite app_nil_r.
  - destruct (scanSinglePage get newURL2 load completion x fuel mc u s)
      as [[p s1]|] eqn:Hp; [|discriminate].
    assert (pageUrl p = u) as Hu.
    { unfold scanSinglePage in Hp. destruct (get u) as [r|e].
      - destruct (negb (status r =? 200)%Z); [by injection Hp as <- _|].
        destruct (checkLinksInBatch get completion fuel mc _ s)
          as [[checked s2]|]; [|discriminate].
        by injection Hp as <- _.
      - by injection Hp as <- _. }
    apply IH in H as (new & -> & Hnew).
    exists (p :: new). rewrite <- app_assoc. split; [done|].
    cbn [map]. by rewrite Hu, Hnew.
Qed.

Hypothesis completion_perm :
  forall batch, completion batch ≡ₚ seq 0 (length batch).

(** The checked links of a page are the verdicts on the links of the
    page that pass the filter, when the page answers 200, and none
    otherwise. *)
Lemma scanSinglePage_checked (x : LinkExtractor.t) (fuel : nat) (mc : Z)
    (u : string) (s : Stats) (p : PageResult) (s' : Stats) :
  scanSinglePage get newURL2 load completion x fuel mc u s = Some (p, s') ->
  checkedLinks p
  = map (verdict get)
      match get u with
      | Resolved r =>
          if (status r =? 200)%Z
          then List.filter toCheck (extractLinks newURL2 load x (data r) u)
          else []
      | Rejected _ => []
      end.
Proof.
  unfold scanSinglePage. destruct (get u) as [r|e].
  - destruct (status r =? 200)%Z; cbn [negb].
    + destruct (checkLinksInBatch get completion fuel mc _ s)
        as [[checked s1]|] eqn:Hrun; [|discriminate].
      intros [= <- <-]. cbn [checkedLinks].
      exact (checkLinksInBatch_result get completion _ _ _ _ _ _
               completion_perm Hrun).
    + by intros [= <- <-].
  - by intros [= <- <-].
Qed.

Lemma scanPages_checked (x : LinkExtractor.t) (fuel : nat) (mc : Z)
    (urls : list string) :
  forall acc sm s pages' sm' s',
    scanPages get newURL2 load completion x fuel mc urls acc sm s
    = Some (pages', sm', s') ->
    exists new,
      pages' = acc ++ new
      /\ concat (map checkedLinks new)
         = map (verdict get)
             (concat (map (fun u =>
                match get u with
                | Resolved r =>
                    if (status r =? 200)%Z
                    then List.filter toCheck
                           (extractLinks newURL2 load x (data r) u)
                    else []
                | Rejected _ => []
                end) urls)).
Proof.
  induction urls as [|u urls IH]; intros acc sm s pages' sm' s' H;
    cbn [scanPages] in H.
  - injection H as <- <- <-. exists []. by rewrite app_nil_r.
  - destruct (scanSinglePage get newURL2 load completion x fuel mc u s)
      as [[p s1]|] eqn:Hp; [|discriminate].
    apply scanSinglePage_checked in Hp.
    apply IH in H as (new & -> & Hnew).
    exists (p :: new). rewrite <- app_assoc. split; [done|].
    cbn [map concat]. by rewrite map_app, Hp, Hnew.
Qed.
End Errors404.

(** C2. The 404 list of the report of a scan is, in order, one entry
    for each checked link whose category is [broken] and whose status
    code is 404, and nothing else; the entry carries the link's url,
    foundOn, linkText, position and isInternal; the page records come one
    per URL given.  Every check of a batch completing once, in whatever
    order, the checked links are the verdicts on the links that pass the
    filter on the pages that answer 200, page after page in the order
    given; and with a batch size of at least one and enough fuel for the
    links of each page, the scan returns its report. *)
Theorem errors404_exact (get : string -> LinkChecker.GetOutcome)
    {P : Platform.t}
    (newURL2 : string -> string -> option (Platform.obj P))
    (load : string -> list LinkExtractor.Element)
    (completion : list LinkExtractor.Link -> list nat)
    (x : LinkExtractor.t) (fuel : nat) (mc : Z) (urls : list string) :
  let toVerify u :=
    match get u with
    | LinkChecker.Resolved r =>
        if (LinkChecker.status r =? 200)%Z
        then List.filter LinkChecker.toCheck
               (LinkExtractor.extractLinks newURL2 load x
                  (LinkChecker.data r) u)
        else []
    | LinkChecker.Rejected _ => []
    end in
  (forall res,
     LinkChecker.scanWebsite get newURL2 load completion x fuel mc urls
     = Some res ->
     map LinkChecker.pageUrl (LinkChecker.pages res) = urls
     /\ LinkChecker.s_errors404 (LinkChecker.summary res)
        = map (fun l =>
                 {| LinkChecker.e_url := LinkExtractor.url (LinkChecker.link l);
                    LinkChecker.e_foundOn :=
                      LinkExtractor.foundOn (LinkChecker.link l);
                    LinkChecker.e_linkText :=
                      LinkExtractor.linkText (LinkChecker.link l);
                    LinkChecker.e_position :=
                      LinkExtractor.position (LinkChecker.link l);
                    LinkChecker.e_isInternal :=
                      LinkExtractor.isInternal (LinkChecker.link l) |})
            (List.filter
               (fun l =>
                  LinkChecker.Category_eqb (LinkChecker.category l)
                                           LinkChecker.broken
                  && (LinkChecker.statusCode l =? 404)%Z)
               (concat (map LinkChecker.checkedLinks
                            (LinkChecker.pages res)))))
  /\ ((forall batch, completion batch ≡ₚ seq 0 (length batch)) ->
      (forall res,
         LinkChecker.scanWebsite get newURL2 load completion x fuel mc urls
         = Some res ->
         concat (map LinkChecker.checkedLinks (LinkChecker.pages res))
         = map (LinkChecker.verdict get) (concat (map toVerify urls)))
      /\ ((1 <= mc)%Z ->
          (forall u, In u urls -> length (toVerify u) < fuel) ->
          exists res,
            LinkChecker.scanWebsite get newURL2 load completion x fuel mc urls
            = Some res)).
Proof.
  intros toVerify. split; [|intros Hperm; split].
  - intros res. unfold LinkChecker.scanWebsite.
    destruct (LinkChecker.scanPages get newURL2 load completion x fuel mc
                urls [] (LinkChecker.mkSummary 0 [] [] [])
                LinkChecker.resetStats)
      as [[[ps sm] s]|] eqn:Hscan; [|discriminate].
    intros [= <-]. cbn [LinkChecker.pages LinkChecker.summary].
    destruct (scanPages_pageUrls get newURL2 load completion
                _ _ _ _ _ _ _ _ _ _ Hscan) as (new1 & E1 & Hurls).
    destruct (scanPages_errors404 _ _ _ _ _ _ _ _ _ _ _ _ _ _ Hscan)
      as (new3 & E3 & Herr).
    cbn [app] in E1, E3. subst new1 new3.
    split; [exact Hurls|]. exact Herr.
  - intros res. unfold LinkChecker.scanWebsite.
    destruct (LinkChecker.scanPages get newURL2 load completion x fuel mc
                urls [] (LinkChecker.mkSummary 0 [] [] [])
                LinkChecker.resetStats)
      as [[[ps sm] s]|] eqn:Hscan; [|discriminate].
    intros [= <-]. cbn [LinkChecker.pages].
    destruct (scanPages_checked get newURL2 load completion Hperm
                _ _ _ _ _ _ _ _ _ _ Hscan) as (new2 & E2 & Hchecked).
    cbn [app] in E2. subst new2. exact Hchecked.
  - intros Hmc Hfuel. unfold LinkChecker.scanWebsite.
    destruct (scanPages_returns get newURL2 load completion x fuel mc urls
                Hmc Hperm) with (acc := @nil LinkChecker.PageResult)
                (sm := LinkChecker.mkSummary 0 [] [] [])
                (s := LinkChecker.resetStats) as [[[ps sm] s] ->];
      [|by eexists].
    intros u r Hu Hget H200. specialize (Hfuel u Hu). unfold toVerify in Hfuel.
    rewrite Hget, H200 in Hfuel. exact Hfuel.
Qed.

Lemma errors404_exact_witness :
  exists res,
    LinkChecker.scanWebsite Fixture.get Fixture.newURL2 Fixture.load
      Fixture.completion LinkExtractor.new 5 10 [Fixture.front] = Some res
    /\ map LinkChecker.pageUrl (LinkChecker.pages res) = [Fixture.front]
    /\ LinkChecker.s_errors404 (LinkChecker.summary res)
       = [ {| LinkChecker.e_url := "https://example.com/missing";
              LinkChecker.e_foundOn := Fixture.front;
              LinkChecker.e_linkText := "x";
              LinkChecker.e_position :=
                LinkExtractor.mkPosition 1 "<a href=/missing>x</a>";
              LinkChecker.e_isInternal := true |} ].
Proof.
  destruct (errors404_exact Fixture.get Fixture.newURL2 Fixture.load
              Fixture.completion LinkExtractor.new 5 10 [Fixture.front])
    as [Hall Hperm].
  destruct (Hperm Fixture_completion_perm) as [Hchecked Hex].
  destruct Hex as [res Hscan].
  - lia.
  - intros u [<-|[]]. vm_compute. lia.
  - exists res. split; [exact Hscan|].
    destruct (Hall res Hscan) as (Hpages & Herr).
    split; [exact Hpages|].
    rewrite Herr, (Hchecked res Hscan). reflexivity.
Defined.

Lemma generateReport_lengths (P : Platform.t) (c : SitemapCleaner.t)
    (originalUrls cleanedUrls : list string) :
  match CleaningReport.generateReport P c originalUrls cleanedUrls with
  | None => True
  | Some r =>
      CleaningReport.original r = length originalUrls
      /\ CleaningReport.cleaned r = length cleanedUrls
  end.
Proof.
  unfold CleaningReport.generateReport.
  by destruct (CleaningReport.countCategories P c originalUrls 0 0) as [[? ?]|].
Qed.

Lemma urlsToScan_length (maxPages : option Z) (cleanUrls : list string) :
  length (CheckLinks.urlsToScan maxPages cleanUrls) <= length cleanUrls.
Proof.
  unfold CheckLinks.urlsToScan.
  destruct maxPages as [n|]; [|done].
  destruct (n =? 0)%Z; [done|].
  unfold Utils.slice. rewrite length_take, length_drop. lia.
Qed.

(** ** The check-links handler: the final report *)

Section Agree.
Import LinkExtractor LinkChecker.

Lemma count_le {A} (p : A -> bool) (l : list A) : count p l <= length l.
Proof. pose proof (count_split p l). lia. Qed.

Lemma scanWebsite_agree (get : string -> GetOutcome)
    {P : Platform.t}
    (newURL2 : string -> string -> option (Platform.obj P))
    (load : string -> list Element) (completion : list Link -> list nat)
    (x : LinkExtractor.t) (fuel : nat) (mc : Z) (urls : list string)
    (res : ScanResults) :
  (forall batch, completion batch ≡ₚ seq 0 (length batch)) ->
  scanWebsite get newURL2 load completion x fuel mc urls = Some res ->
  length (pages res) = length urls
  /\ linksChecked (scanStats res) = totalLinks (summary res)
  /\ errors404 (scanStats res) = length (s_errors404 (summary res))
  /\ pagesScanned (scanStats res) <= length urls.
Proof.
  intros Hperm. unfold scanWebsite.
  destruct (scanPages get newURL2 load completion x fuel mc urls []
              (mkSummary 0 [] [] []) resetStats)
    as [[[ps sm] s]|] eqn:Hscan; [|discriminate].
  intros [= <-]. cbn [pages scanStats summary].
  destruct (scanPages_pages get newURL2 load completion Hperm _ _ _ _ _ _ _ _ _ _
              Hscan) as (new1 & -> & Hurls & Hall & Htot & _).
  destruct (scanPages_errors404 _ _ _ _ _ _ _ _ _ _ _ _ _ _ Hscan)
    as (new2 & E2 & Herr).
  destruct (scanPages_counters get newURL2 load completion Hperm _ _ _ _ _ _ _ _ _ _
              Hscan) as (new3 & E3 & G1 & G2 & G3 & _).
  cbn in E2, E3. subst new2 new3. cbn in *.
  rewrite Herr, length_map.
  rewrite (filter_is404_verdicts get _ (scanPages_verdicts get _ Hall)).
  pose proof (count_le accessible new1).
  assert (length new1 = length urls) by (by rewrite <- Hurls, length_map).
  unfold count in *. repeat split; lia.
Qed.
End Agree.

(** X19. The report of a run that completes is consistent: it answers 200
    with success; the sitemap was not empty, cleaning did not add URLs and
    no more pages were scanned than cleaning left; one page record was
    made per page scanned; the links-checked total equals the counter of
    the statistics, whose 404 counter equals the length of the 404 list
    reported; the notification block repeats that length and the flag,
    and says sent only when the flag is on and the list is not empty. *)
Theorem handler_report (cleaner : SitemapCleaner.t)
    (fetchSitemap : string -> list string + string)
    (get : string -> LinkChecker.GetOutcome)
    {P : Platform.t}
    (newURL2 : string -> string -> option (Platform.obj P))
    (load : string -> list LinkExtractor.Element)
    (completion : list LinkExtractor.Link -> list nat)
    (post : string -> bool)
    (fuel : nat) (request : CheckLinks.Request) (env : CheckLinks.Env)
    (o : CheckLinks.Outcome)
    (originalUrls cleanedUrls scannedUrls : nat) (rep : CleaningReport.t)
    (totalLinksChecked : nat) (errors404 : list LinkChecker.Error404)
    (st : LinkChecker.Stats) (n : CheckLinks.Notification) :
  (forall batch, completion batch ≡ₚ seq 0 (length batch)) ->
  CheckLinks.handler cleaner fetchSitemap get newURL2 load completion post
    fuel request env = Some o ->
  CheckLinks.body (CheckLinks.reply o)
  = CheckLinks.Final originalUrls cleanedUrls scannedUrls rep
      totalLinksChecked errors404 st n ->
  CheckLinks.httpStatus (CheckLinks.reply o) = 200%Z
  /\ CheckLinks.success (CheckLinks.reply o) = Some true
  /\ 0 < originalUrls
  /\ cleanedUrls <= originalUrls
  /\ scannedUrls <= cleanedUrls
  /\ CleaningReport.original rep = originalUrls
  /\ CleaningReport.cleaned rep = cleanedUrls
  /\ length (CheckLinks.attempted o) = scannedUrls
  /\ errors404 = CheckLinks.reported404 o
  /\ totalLinksChecked = LinkChecker.linksChecked st
  /\ LinkChecker.errors404 st = length errors404
  /\ LinkChecker.pagesScanned st <= scannedUrls
  /\ CheckLinks.enabled n = CheckLinks.notifySlack request
  /\ CheckLinks.errors404Count n = length errors404
  /\ (CheckLinks.sent n = true ->
      CheckLinks.enabled n = true /\ errors404 <> []).
Proof.
  intros Hperm. unfold CheckLinks.handler.
  destruct (String.eqb (CheckLinks.method request) "OPTIONS");
    [intros [= <-]; discriminate|].
  destruct (fetchSitemap (CheckLinks.sitemapUrl request env))
    as [rawUrls|msg]; [|intros [= <-]; discriminate].
  destruct rawUrls as [|u rawUrls]; [intros [= <-]; discriminate|].
  destruct (SitemapCleaner.process P cleaner (u :: rawUrls)) as [cleanUrls|]
    eqn:Hclean; [|intros [= <-]; discriminate].
  pose proof (generateReport_lengths P cleaner (u :: rawUrls) cleanUrls) as Hrep.
  destruct (CleaningReport.generateReport P cleaner (u :: rawUrls) cleanUrls)
    as [cleaningReport|]; [|intros [= <-]; discriminate].
  destruct (LinkChecker.scanWebsite get newURL2 load completion
              LinkExtractor.new fuel (CheckLinks.maxConcurrent env)
              (CheckLinks.urlsToScan (CheckLinks.q_maxPages request) cleanUrls))
    as [scanResults|] eqn:Hscan; [|discriminate].
  destruct (scanWebsite_agree _ _ _ _ _ _ _ _ _ Hperm Hscan)
    as (Hpages & Hlinks & H404 & Hscanned).
  pose proof (process_length P cleaner _ _ Hclean) as Hlen.
  pose proof (urlsToScan_length (CheckLinks.q_maxPages request) cleanUrls)
    as Hcap.
  destruct Hrep as [Ho Hc].
  destruct (CheckLinks.notifySlack request
            && negb (Nat.eqb (length (LinkChecker.s_errors404
                                        (LinkChecker.summary scanResults))) 0))
    eqn:Hflag.
  - destruct (SlackNotifier.notifyErrors404 post
                (CheckLinks.SLACK_WEBHOOK_URL env)
                (LinkChecker.s_errors404 (LinkChecker.summary scanResults)))
      as [b posted].
    intros [= <-]. cbn. intros [= <- <- <- <- <- <- <- <-]. cbn.
    apply andb_true_iff in Hflag as [Hon Hne].
    repeat split; try done; try lia.
    intros Hnil. by rewrite Hnil in Hne.
  - intros [= <-]. cbn. intros [= <- <- <- <- <- <- <- <-]. cbn.
    repeat split; try done; lia.
Qed.

Lemma handler_report_witness :
  exists o,
    Fixture.run Fixture.fetchSitemap None = Some o
    /\ CheckLinks.httpStatus (CheckLinks.reply o) = 200%Z
    /\ length (CheckLinks.attempted o) = 1.
Proof.
  destruct (Fixture.run Fixture.fetchSitemap None) as [o|] eqn:Hrun;
    [|vm_compute in Hrun; discriminate].
  exists o. split; [reflexivity|].
  pose proof Hrun as Hval. vm_compute in Hval. injection Hval as <-.
  destruct (handler_report SitemapCleaner.new_language Fixture.fetchSitemap
              Fixture.get Fixture.newURL2 Fixture.load Fixture.completion
              Fixture.post 5 (Fixture.request None) Fixture.env
              _ _ _ _ _ _ _ _ _ Fixture_completion_perm Hrun eq_refl)
    as (H200 & _ & _ & _ & _ & _ & _ & Hpages & _).
  split; [exact H200|exact Hpages].
Defined.


(** ** The handlers: when a run aborts *)

Section CronProofs.
Import LinkChecker.

(** The summary of a scan has no [warnings] property. *)
Lemma arrayLength_warnings (sm : Summary) : Cron.arrayLength "warnings" sm = None.
Proof. reflexivity. Qed.

Lemma generateCronAnalysis_throws (scanResults : ScanResults) (a b c : nat) :
  Cron.generateCronAnalysis scanResults a b c = None.
Proof.
  unfold Cron.generateCronAnalysis. rewrite arrayLength_warnings.
  by destruct (Cron.arrayLength "errors404" (summary scanResults)),
       (Cron.arrayLength "errorsOther" (summary scanResults)).
Qed.
End CronProofs.

Section Abort.
Import CheckLinks.
Variable P : Platform.t.
Variable c : SitemapCleaner.t.

End Abort.



(** ** LinkExtractor: what a link records, and filtering *)

Section Bounds.
Import JS Utils LinkExtractor.

Lemma substring_to_length (n : nat) (s : string) :
  String.length (substring_to n s) <= n.
Proof.
  revert s. induction n as [|n IH]; intros s; [done|].
  destruct s as [|c s]; cbn; [lia|]. specialize (IH s). lia.
Qed.

Lemma findLineNumber_le (html element : string) :
  findLineNumber html element <= length (split "010" html).
Proof.
  unfold findLineNumber.
  pose proof (findLine_first (trim (collapseSpaces element))
                (split "010" html) 0) as H.
  destruct (findLine _ _ 0) as [|n]; [lia|].
  destruct H as (k & -> & Hk & _). cbn. lia.
Qed.

Context {P : Platform.t}.
Variable newURL2 : string -> string -> option (Platform.obj P).
Variable load : string -> list Element.

Lemma extractSingleLink_bounds (e : Element) (a base html : string) (l : Link) :
  extractSingleLink newURL2 e a base html = Some l ->
  String.length (LinkExtractor.html (position l)) <= 203
  /\ line (position l) <= length (split "010" html)
  /\ (element l = "a" -> String.length (linkText l) <= 100).
Proof.
  unfold extractSingleLink. intros H.
  destruct (attr a (attrs e)) as [href|]; [|discriminate].
  destruct (URL.is_empty href); [discriminate|].
  destruct (Utils.resolveUrl newURL2 href base) as [u|]; [|discriminate].
  apply (inj Some) in H. subst l.
  cbn [LinkExtractor.html position line element linkText]. repeat split.
  - rewrite length_app.
    pose proof (substring_to_length 200 (outerHtml e)).
    destruct (200 <? String.length (outerHtml e))%nat;
      cbn [String.length]; lia.
  - apply findLineNumber_le.
  - intros ->. rewrite String.eqb_refl. apply substring_to_length.
Qed.

Lemma extractLinks_Forall_bounds (x : LinkExtractor.t) (html baseUrl : string) :
  Forall (fun l =>
            String.length (LinkExtractor.html (position l)) <= 203
            /\ line (position l) <= length (split "010" html)
            /\ (element l = "a" -> String.length (linkText l) <= 100))
         (extractLinks newURL2 load x html baseUrl).
Proof.
  unfold extractLinks. apply deduplicateLinks_Forall; [by intros l|].
  assert (forall (f : Element -> option Link) es,
            (forall e l, f e = Some l ->
               String.length (LinkExtractor.html (position l)) <= 203
               /\ line (position l) <= length (split "010" html)
               /\ (element l = "a" -> String.length (linkText l) <= 100)) ->
            Forall (fun l =>
               String.length (LinkExtractor.html (position l)) <= 203
               /\ line (position l) <= length (split "010" html)
               /\ (element l = "a" -> String.length (linkText l) <= 100))
                   (omap f es)) as Homap.
  { intros f es Hf. apply Forall_forall. intros l Hl.
    apply list_elem_of_omap in Hl as (e & _ & He). by apply (Hf e). }
  destruct (negb (excludeImages x)).
  - apply Forall_app. split.
    + apply Homap. intros e l. apply extractSingleLink_bounds.
    + apply Homap. intros e l Hl.
      destruct (extractSingleLink newURL2 e _ baseUrl html) as [l'|] eqn:He;
        [|discriminate].
      injection Hl as <-. by apply extractSingleLink_bounds in He.
  - apply Homap. intros e l. apply extractSingleLink_bounds.
Qed.
End Bounds.

(** X20. Every link [extractLinks] returns carries a snippet of at most
    203 characters and a line number no greater than the number of lines
    of the page; the text of a link of an [a] element has at most 100
    characters. *)
Theorem extractLinks_bounds {P : Platform.t}
    (newURL2 : string -> string -> option (Platform.obj P))
    (load : string -> list LinkExtractor.Element) (x : LinkExtractor.t)
    (html baseUrl : string) :
  Forall (fun l =>
            String.length (LinkExtractor.html (LinkExtractor.position l)) <= 203
            /\ LinkExtractor.line (LinkExtractor.position l)
               <= length (JS.split "010" html)
            /\ (LinkExtractor.element l = "a" ->
                String.length (LinkExtractor.linkText l) <= 100))
         (LinkExtractor.extractLinks newURL2 load x html baseUrl).
Proof. apply extractLinks_Forall_bounds. Qed.

Lemma filter_sublist {A} (p : A -> bool) (l : list A) :
  sublist (List.filter p l) l.
Proof.
  induction l as [|x l IH]; cbn; [constructor|].
  destruct (p x); by constructor.
Qed.

(** X21. [filterLinks] keeps, in their order, exactly the links that meet
    every criterion given: internal, external, one of the listed elements
    (a list that is not empty), a host that is not excluded (a link
    whose URL has no host is kept).  Asking for internal and external
    links at once gives no link; giving no criterion gives every link. *)
Theorem filterLinks_criteria (hostname : string -> option string)
    (links : list LinkExtractor.Link) (filters : LinkExtractor.Filters) :
  let r := LinkExtractor.filterLinks hostname links filters in
  sublist r links
  /\ (forall l, In l r <->
        In l links
        /\ (LinkExtractor.f_internal filters = true ->
            LinkExtractor.isInternal l = true)
        /\ (LinkExtractor.f_external filters = true ->
            LinkExtractor.isInternal l = false)
        /\ (forall e es, LinkExtractor.f_elements filters = Some (e :: es) ->
            In (LinkExtractor.element l) (e :: es))
        /\ (forall domains domain,
              LinkExtractor.f_excludeDomains filters = Some domains ->
              hostname (LinkExtractor.url l) = Some domain ->
              ~ In domain domains))
  /\ (if LinkExtractor.f_internal filters && LinkExtractor.f_external filters
      then r = [] else True)
  /\ LinkExtractor.filterLinks hostname links
       (LinkExtractor.mkFilters false false None None) = links.
Proof.
  cbn zeta. destruct filters as [fi fe fel fd].
  unfold LinkExtractor.filterLinks.
  cbn [LinkExtractor.f_internal LinkExtractor.f_external
       LinkExtractor.f_elements LinkExtractor.f_excludeDomains].
  set (L1 := if fi then List.filter LinkExtractor.isInternal links else links).
  set (L2 := if fe
             then List.filter (fun link => negb (LinkExtractor.isInternal link)) L1
             else L1).
  set (L3 := match fel with
             | Some (e :: es) =>
                 List.filter
                   (fun link => existsb (String.eqb (LinkExtractor.element link))
                                        (e :: es)) L2
             | _ => L2
             end).
  assert (forall (d : string) ds,
            existsb (String.eqb d) ds = true <-> In d ds) as Hex.
  { intros d ds. rewrite existsb_exists. split.
    - by intros (y & Hy & ->%String.eqb_eq).
    - intros Hd. exists d. by rewrite String.eqb_refl. }
  assert (sublist L1 links
          /\ forall l, In l L1 <->
               In l links /\ (fi = true -> LinkExtractor.isInternal l = true))
    as [S1 H1].
  { subst L1. destruct fi.
    - split; [apply filter_sublist|]. intros l. rewrite filter_In. tauto.
    - split; [done|]. intros l. split; [by intros ?|tauto]. }
  assert (sublist L2 L1
          /\ forall l, In l L2 <->
               In l L1 /\ (fe = true -> LinkExtractor.isInternal l = false))
    as [S2 H2].
  { subst L2. destruct fe.
    - split; [apply filter_sublist|]. intros l.
      rewrite filter_In, negb_true_iff. tauto.
    - split; [done|]. intros l. split; [by intros ?|tauto]. }
  assert (sublist L3 L2
          /\ forall l, In l L3 <->
               In l L2
               /\ (forall e es, fel = Some (e :: es) ->
                   In (LinkExtractor.element l) (e :: es)))
    as [S3 H3].
  { subst L3. destruct fel as [[|e es]|].
    - split; [done|]. intros l. split; [by intros ?|tauto].
    - split; [apply filter_sublist|]. intros l. rewrite filter_In, Hex.
      split.
      + intros [? ?]. split; [done|]. by intros ? ? [= <- <-].
      + intros [? H]. split; [done|]. by apply H.
    - split; [done|]. intros l. split; [by intros ?|tauto]. }
  split; [|split; [|split]].
  - destruct fd as [ds|]; [etrans; [apply filter_sublist|]|];
      by repeat (etrans; [eassumption|]).
  - intros l.
    assert (In l L3 <->
            In l links
            /\ (fi = true -> LinkExtractor.isInternal l = true)
            /\ (fe = true -> LinkExtractor.isInternal l = false)
            /\ (forall e es, fel = Some (e :: es) ->
                In (LinkExtractor.element l) (e :: es))) as H123.
    { rewrite H3, H2, H1. tauto. }
    destruct fd as [ds|].
    + rewrite filter_In, H123. split.
      * intros [(? & ? & ? & ?) Hh]. repeat split; try done.
        intros ? d [= <-] Hd.
        rewrite Hd in Hh. apply negb_true_iff in Hh.
        intros Hx%Hex. congruence.
      * intros (? & ? & ? & ? & Hh). split; [done|].
        destruct (hostname (LinkExtractor.url l)) as [d|] eqn:Hd; [|done].
        apply negb_true_iff.
        destruct (existsb (String.eqb d) ds) eqn:Hx; [|done].
        apply Hex in Hx. by destruct (Hh ds d eq_refl eq_refl).
    + rewrite H123. split; [|tauto].
      intros (? & ? & ? & ?). by repeat split.
  - destruct fi, fe; cbn [andb]; try done.
    assert (L2 = []) as HL2.
    { subst L2 L1. clear. induction links as [|l ls IH]; cbn; [done|].
      destruct (LinkExtractor.isInternal l) eqn:Hl; cbn; [|done].
      by rewrite Hl. }
    assert (L3 = []) as HL3.
    { subst L3. rewrite HL2. by destruct fel as [[|e es]|]. }
    rewrite HL3. by destruct fd.
  - done.
Qed.

(** ** LinkChecker: the second check of the 404 list *)

(** X22. [extractErrors404Only] returns no entry, whatever the scan found:
    the entries of the 404 list that [scanWebsite] builds have no
    [statusCode] property, so none passes the test [statusCode === 404]. *)
Theorem extractErrors404Only_empty (scanResults : LinkChecker.ScanResults) :
  LinkChecker.extractErrors404Only scanResults = [].
Proof.
  unfold LinkChecker.extractErrors404Only.
  induction (LinkChecker.s_errors404 (LinkChecker.summary scanResults))
    as [|e es IH]; [done|].
  cbn [List.filter]. by rewrite IH.
Qed.

(** ** SlackNotifier: the URL shown in a message *)

Lemma substring_to_min (n : nat) (s : string) :
  String.length (Utils.substring_to n s) = Nat.min n (String.length s).
Proof.
  revert s. induction n as [|n IH]; intros s; [done|].
  destruct s as [|c s]; cbn; [done|]. by rewrite IH.
Qed.

(** X23. Whatever the URL class, [truncateUrl] returns a URL of at most
    [maxLength] characters unchanged.  A longer one that [new URL]
    accepts is shortened to its host name, then the first
    [maxLength - 3] less the length of the host name characters of its
    path (all of the path when it has fewer, none when the number is
    negative), then three dots; the result is no longer than [maxLength]
    unless the host name alone has more than [maxLength - 3] characters.
    A longer one that [new URL] rejects makes it throw. *)
Theorem truncateUrl_length (P : Platform.t) (url : string) (maxLength : Z) :
  match SlackNotifier.truncateUrl P url maxLength with
  | Some r =>
      ((Z.of_nat (String.length url) <= maxLength)%Z /\ r = url)
      \/ ((maxLength < Z.of_nat (String.length url))%Z
          /\ exists u middle rest,
               Platform.newURL P url = Some u
               /\ r = Platform.hostname u +:+ middle +:+ "..."
               /\ Platform.pathname u = middle +:+ rest
               /\ String.length middle
                  = Nat.min
                      (Z.to_nat
                         (maxLength
                          - Z.of_nat (String.length (Platform.hostname u)) - 3))
                      (String.length (Platform.pathname u))
               /\ (Z.of_nat (String.length r)
                   <= Z.max maxLength
                        (Z.of_nat (String.length (Platform.hostname u)) + 3))%Z)
  | None =>
      (maxLength < Z.of_nat (String.length url))%Z
      /\ Platform.newURL P url = None
  end.
Proof.
  unfold SlackNotifier.truncateUrl.
  destruct (Z.leb_spec (Z.of_nat (String.length url)) maxLength) as [Hle|Hgt].
  - by left.
  - destruct (Platform.newURL P url) as [u|]; [|done].
    right. split; [done|].
    set (k := Z.to_nat (maxLength
                        - Z.of_nat (String.length (Platform.hostname u)) - 3)).
    exists u, (Utils.substring_to k (Platform.pathname u)),
      (JS.substring_from k (Platform.pathname u)).
    pose proof (substring_to_min k (Platform.pathname u)) as Hk.
    split; [done|]. split; [done|].
    split; [apply take_drop|]. split; [exact Hk|].
    rewrite !length_app. change (String.length "...") with 3. lia.
Qed.

Lemma truncateUrl_length_example :
  SlackNotifier.truncateUrl Platform.reference
    "https://example.com/docs/getting-started/installation" 30
  = Some "example.com/docs/getting-st...".
Proof. reflexivity. Qed.
(** ** The cron handler *)

(** X24. The cron handler never answers with success and never sends
    anything to Slack.  Without the expected authorization header it
    answers 401 before anything is fetched.  With it, every run that ends
    answers 500: once the scan is done, [generateCronAnalysis] reads the
    length of [summary.warnings], a property the results of [scanWebsite]
    do not have, and the error branch calls a notifier method that does
    not exist. *)
Theorem cron_never_succeeds (cleaner : SitemapCleaner.t)
    (fetchSitemap : string -> list string + string)
    (get : string -> LinkChecker.GetOutcome)
    {P : Platform.t}
    (newURL2 : string -> string -> option (Platform.obj P))
    (load : string -> list LinkExtractor.Element)
    (completion : list LinkExtractor.Link -> list nat)
    (fuel : nat) (authorization cronSecret : option string)
    (env : CheckLinks.Env) (o : Cron.Outcome) :
  Cron.handler cleaner fetchSitemap get newURL2 load completion fuel
    authorization cronSecret env = Some o ->
  Cron.success o = false
  /\ Cron.posted o = []
  /\ (if Cron.authorized authorization cronSecret
      then Cron.httpStatus o = 500%Z
      else Cron.httpStatus o = 401%Z /\ Cron.scan o = None).
Proof.
  unfold Cron.handler.
  destruct (Cron.authorized authorization cronSecret); cbn [negb];
    [|by intros [= <-]].
  destruct (fetchSitemap (Cron.sitemapUrl env)) as [rawUrls|msg];
    [|by intros [= <-]].
  destruct rawUrls as [|u rawUrls]; [by intros [= <-]|].
  destruct (SitemapCleaner.process P cleaner (u :: rawUrls)) as [cleanUrls|];
    [|by intros [= <-]].
  destruct (LinkChecker.scanWebsite _ _ _ _ _ _ _ _) as [scanResults|];
    [|discriminate].
  rewrite generateCronAnalysis_throws. by intros [= <-].
Qed.

Lemma cron_never_succeeds_witness :
  exists o,
    Cron.handler SitemapCleaner.new_language Fixture.fetchSitemap Fixture.get
      Fixture.newURL2 Fixture.load Fixture.completion 5
      (Some "Bearer s3cret") (Some "s3cret") Fixture.env = Some o
    /\ Cron.httpStatus o = 500%Z
    /\ Cron.scan o <> None.
Proof.
  destruct (Cron.handler SitemapCleaner.new_language Fixture.fetchSitemap
              Fixture.get Fixture.newURL2 Fixture.load Fixture.completion 5
              (Some "Bearer s3cret") (Some "s3cret") Fixture.env)
    as [o|] eqn:Hrun; [|vm_compute in Hrun; discriminate].
  exists o. split; [reflexivity|].
  destruct (cron_never_succeeds _ _ _ _ _ _ _ _ _ _ _ Hrun) as (_ & _ & H500).
  split; [exact H500|].
  vm_compute in Hrun. injection Hrun as <-. discriminate.
Defined.

(** ** SlackNotifier: the title shown for a page *)

Section Titles.
Import JS.

Lemma split_segments (sep : ascii) (s : string) :
  Forall (fun seg => all_chars (fun c => negb (Ascii.eqb c sep)) seg = true)
         (split sep s).
Proof.
  induction s as [|c s IH]; cbn [split]; [by repeat constructor|].
  destruct (Ascii.eqb c sep) eqn:Hc; [by constructor|].
  destruct (split sep s) as [|x xs]; [by repeat constructor; cbn; rewrite Hc|].
  inversion IH as [|? ? Hx Hxs]; subst.
  constructor; [|done]. cbn. by rewrite Hc.
Qed.

Lemma includes_char (sep : ascii) (s : string) :
  all_chars (fun c => negb (Ascii.eqb c sep)) s = true ->
  includes (String sep "") s = false.
Proof.
  induction s as [|c s IH]; [done|]. cbn [all_chars includes startsWith].
  intros [Hc Hs]%andb_true_iff. apply negb_true_iff in Hc.
  rewrite Ascii.eqb_sym, Hc. by apply IH.
Qed.

Lemma last_filter {A} (p : A -> bool) (l : list A) :
  match last (List.filter p l) with
  | Some x =>
      exists pre post, l = pre ++ x :: post /\ p x = true
                       /\ Forall (fun y => p y = false) post
  | None => Forall (fun y => p y = false) l
  end.
Proof.
  induction l as [|a l IH]; [by constructor|]. cbn [List.filter].
  destruct (p a) eqn:Ha.
  - destruct (List.filter p l) as [|b bs] eqn:Hf.
    + cbn. exists [], l. by repeat split.
    + rewrite last_cons. cbn in IH. destruct (last (b :: bs)) as [x|] eqn:Hl.
      * destruct IH as (pre & post & -> & Hx & Hpost).
        exists (a :: pre), post. by repeat split.
      * by apply last_None in Hl.
  - destruct (last (List.filter p l)) as [x|].
    + destruct IH as (pre & post & -> & Hx & Hpost).
      exists (a :: pre), post. by repeat split.
    + by constructor.
Qed.
End Titles.

(** X25. The title [getPageTitle] gives a page is never empty and holds
    no slash: it is the last path segment that is not empty, "accueil"
    when the path has none, and "page inconnue" when the URL does not
    parse. *)
Theorem getPageTitle_label (pathnameOf : string -> option string)
    (url : string) :
  let title := SlackNotifier.getPageTitle pathnameOf url in
  title <> ""
  /\ JS.includes "/" title = false
  /\ match pathnameOf url with
     | None => title = "page inconnue"
     | Some pathname =>
         (title = "accueil"
          /\ Forall (fun segment => segment = "") (JS.split "/" pathname))
         \/ exists pre post,
              JS.split "/" pathname = pre ++ title :: post
              /\ Forall (fun segment => segment = "") post
     end.
Proof.
  cbn zeta. unfold SlackNotifier.getPageTitle.
  destruct (pathnameOf url) as [pathname|]; [|by repeat split].
  pose proof (last_filter (fun segment => negb (URL.is_empty segment))
                (JS.split "/" pathname)) as H.
  pose proof (split_segments "/" pathname) as Hseg.
  assert (forall post,
            Forall (fun y => negb (URL.is_empty y) = false) post ->
            Forall (fun segment => segment = "") post) as Hempty.
  { intros post Hp. eapply Forall_impl; [exact Hp|].
    intros [|c r]; [done|discriminate]. }
  cbn beta in H.
  destruct (last _) as [[|c r]|].
  - destruct H as (pre & post & _ & Hx & _). discriminate.
  - destruct H as (pre & post & Hsplit & _ & Hpost).
    split; [done|]. split.
    + apply includes_char. rewrite Hsplit in Hseg.
      apply Forall_app in Hseg as [_ Hseg]. by inversion Hseg.
    + right. exists pre, post. split; [done|]. by apply Hempty.
  - repeat split; [done|]. left. split; [done|]. by apply Hempty.
Qed.

